(** * Height-field water simulation and buoyancy

    A shallow embedding of the water subsystem: the HEIGHT_FS compute pass
    and the NORMAL_FS pass,
    the [CompWaterPBR] component (wave registry, splash, step, height query),
    the wave registry of its JavaScript twin [GPGPUWaterPBR], and the
    [CompBuoyancy] component.

    Numbers.  A JavaScript [number] and a GLSL [float] are modelled as a real
    number: arithmetic is exact, there is no rounding and no overflow, and the
    special values NaN and +/-Infinity do not exist.  An optional or untyped
    parameter is an [option R]; [None] is [undefined].  Since every modelled
    number is finite, [Number.isFinite v] holds exactly when [v] is defined.

    Two places of the code leave the finite numbers.  The wave registry
    multiplies by [this.gpu.width], which is [undefined], and gets NaN: the
    resolved omega is an [option R] whose [None] is NaN.  The shaders divide
    by the brush size and by the decay of a radial wave: the division by a
    decay of 0 is followed through, statements that depend on the division
    by the brush size assume a brush size other than 0. *)

From Stdlib Require Import Reals Lra Lia List ZArith Bool.
From Stdlib Require Import Zfloor.
Import ListNotations.
Open Scope R_scope.

(** ** JavaScript helpers *)

Module Js.

(** A number that has been computed is always finite in this model. *)
Definition isFiniteNum (_ : R) : bool := true.

Definition ltb (x y : R) : bool := if Rlt_dec x y then true else false.
Definition leb (x y : R) : bool := if Rle_dec x y then true else false.
Definition eqb (x y : R) : bool := if Req_dec_T x y then true else false.

Definition Math_max : R -> R -> R := Rmax.
Definition Math_min : R -> R -> R := Rmin.
Definition Math_abs : R -> R := Rabs.
Definition Math_sqrt : R -> R := sqrt.
Definition Math_floor (x : R) : Z := Zfloor x.
Definition Math_PI : R := PI.

(** [x || d] on numbers: [d] when [x] is undefined or zero. *)
Definition orElse (x : option R) (d : R) : R :=
  match x with
  | Some v => if Req_dec_T v 0 then d else v
  | None => d
  end.

(** Numbers that may be NaN: [None] is NaN, and [undefined] converted to
    a number is NaN as well, so the [None] of an optional parameter is
    kept.  A product or a maximum with a NaN operand is NaN, the square
    root of a NaN or of a negative number is NaN, a comparison with NaN is
    false and NaN is not finite. *)
Definition mulN (a b : option R) : option R :=
  match a, b with
  | Some x, Some y => Some (x * y)
  | _, _ => None
  end.

Definition maxN (a b : option R) : option R :=
  match a, b with
  | Some x, Some y => Some (Math_max x y)
  | _, _ => None
  end.

Definition sqrtN (a : option R) : option R :=
  match a with
  | Some x => if Rlt_dec x 0 then None else Some (Math_sqrt x)
  | None => None
  end.

Definition isFiniteN (a : option R) : bool :=
  match a with
  | Some x => isFiniteNum x
  | None => false
  end.

Definition lebN (a : option R) (y : R) : bool :=
  match a with
  | Some x => leb x y
  | None => false
  end.

(** The number an array of floats of the model holds for a value of the
    program.  The arrays of the model hold real numbers; where the program
    writes NaN the model writes 0. *)
Definition stored (a : option R) : R :=
  match a with
  | Some x => x
  | None => 0
  end.

(** Store into a fixed-length array: an index past the end is ignored, as
    a typed array does. *)
Fixpoint set_nth {A : Type} (i : nat) (v : A) (l : list A) : list A :=
  match l, i with
  | [], _ => []
  | _ :: t, O => v :: t
  | h :: t, S j => h :: set_nth j v t
  end.

End Js.

(** ** GLSL built-ins *)

Module Glsl.

Definition vec2 : Type := (R * R)%type.

Definition clamp (x lo hi : R) : R := Rmin (Rmax x lo) hi.

Definition smoothstep (e0 e1 x : R) : R :=
  let t := clamp ((x - e0) / (e1 - e0)) 0 1 in
  t * t * (3 - 2 * t).

Definition mix (a b t : R) : R := a * (1 - t) + b * t.

Definition dot (a b : vec2) : R := fst a * fst b + snd a * snd b.

Definition length (a : vec2) : R := sqrt (dot a a).

Definition sub (a b : vec2) : vec2 := (fst a - fst b, snd a - snd b).

End Glsl.

(** ** The height texture

    One texel holds the R and G channels of the render target: height and
    velocity.  The B and A channels are the constants 0 and 1 and are never
    read.  Texels are stored row by row. *)

Module Tex.

Record texel : Type := mkTexel { hgt : R; vel : R }.

Record texture : Type := mkTexture {
  width  : nat;
  height : nat;
  data   : list texel
}.

Definition zero : texel := mkTexel 0 0.

Definition clampIndex (n : nat) (i : Z) : Z :=
  Z.max 0 (Z.min i (Z.of_nat n - 1)).

(** Texel at integer coordinates, clamped to the edge. *)
Definition texelFetch (t : texture) (ix iy : Z) : texel :=
  let cx := clampIndex (width t) ix in
  let cy := clampIndex (height t) iy in
  nth (Z.to_nat (cy * Z.of_nat (width t) + cx)) (data t) zero.

(** [texture2D] on a render target of the compute renderer: nearest
    filtering, clamp-to-edge wrapping. *)
Definition texture2D (t : texture) (uv : Glsl.vec2) : texel :=
  texelFetch t (Zfloor (fst uv * INR (width t)))
               (Zfloor (snd uv * INR (height t))).

Definition flat (w h : nat) : texture :=
  mkTexture w h (repeat zero (w * h)).

End Tex.

(** ** HEIGHT_FS: the per-texel update *)

Module HeightFS.
Import Glsl Tex.

Definition MAX_PW : nat := 4.
Definition MAX_RW : nat := 4.

(** The five plane-wave arrays and the six radial-wave arrays, each of
    length 4. *)
Record planeSlots : Type := mkPlaneSlots {
  pw_dir   : list vec2;
  pw_k     : list R;
  pw_omega : list R;
  pw_amp   : list R;
  pw_phase : list R
}.

Record radialSlots : Type := mkRadialSlots {
  rw_center : list vec2;
  rw_k      : list R;
  rw_omega  : list R;
  rw_amp    : list R;
  rw_decay  : list R;
  rw_phase  : list R
}.

Record uniforms : Type := mkUniforms {
  mousePos       : vec2;
  mouseSize      : R;
  viscosity      : R;
  delta          : R;
  bounds         : vec2;
  splashStrength : R;
  baselineReturn : R;
  simTime        : R;
  numPW          : nat;
  pw             : planeSlots;
  numRW          : nat;
  rw             : radialSlots
}.

(** [local]: the texel's position in the plane's local XY. *)
Definition localOf (u : uniforms) (uv : vec2) : vec2 :=
  ((fst uv - 0.5) * 2 * fst (bounds u), (snd uv - 0.5) * 2 * snd (bounds u)).

(** The splash impulse added to the velocity. *)
Definition splashImpulse (u : uniforms) (local : vec2) : R :=
  let d  := length (sub local (mousePos u)) in
  let k  := clamp (1 - smoothstep 0 (mouseSize u) d) 0 1 in
  let r  := d / mouseSize u in
  let r2 := r * r in
  let g  := exp (- 100 * r2) in
  (1 - 50 * r2) * g * splashStrength u.

(** One iteration of the plane-wave loop. *)
Definition planeTerm (u : uniforms) (local : vec2) (i : nat) : R :=
  let amp := nth i (pw_amp (pw u)) 0 in
  if Req_dec_T amp 0 then 0
  else
    let theta := nth i (pw_k (pw u)) 0 * dot (nth i (pw_dir (pw u)) (0, 0)) local
                 - nth i (pw_omega (pw u)) 0 * simTime u + nth i (pw_phase (pw u)) 0 in
    nth i (pw_amp (pw u)) 0 * sin theta.

(** One iteration of the radial-wave loop.  With a decay of 0 the quotient
    [1.0 / rw_decay[i]] is +infinity, so is [sigma], and [q = r / sigma] is
    0. *)
Definition radialTerm (u : uniforms) (local : vec2) (i : nat) : R :=
  let amp := nth i (rw_amp (rw u)) 0 in
  if Req_dec_T amp 0 then 0
  else
    let d := sub local (nth i (rw_center (rw u)) (0, 0)) in
    let r := length d in
    let decay := nth i (rw_decay (rw u)) 0 in
    let q := if Req_dec_T decay 0 then 0
             else let sigma := Rmax 1e-3 (1 / decay) in r / sigma in
    let env := exp (- (q * q)) in
    let hat := (1 - 2 * q * q) * env in
    let om := Rmax (nth i (rw_omega (rw u)) 0) 1e-3 in
    let theta := nth i (rw_k (rw u)) 0 * r - om * simTime u + nth i (rw_phase (rw u)) 0 in
    let wave := sin theta in
    amp * hat * wave.

Definition waveForcing (u : uniforms) (local : vec2) : R :=
  let forcing := 0 in
  let forcing :=
    fold_left (fun acc i => acc + planeTerm u local i) (seq 0 MAX_PW) forcing in
  fold_left (fun acc i => acc + radialTerm u local i) (seq 0 MAX_RW) forcing.

(** [main] at the fragment whose pixel coordinates are [(x, y)];
    [gl_FragCoord.xy] is the pixel centre [(x + 0.5, y + 0.5)]. *)
Definition main (u : uniforms) (heightmap : texture) (x y : nat) : texel :=
  let cell : vec2 := (1 / INR (width heightmap), 1 / INR (height heightmap)) in
  let uv : vec2 := ((INR x + 0.5) * fst cell, (INR y + 0.5) * snd cell) in
  let h  := texture2D heightmap uv in
  let hC := hgt h in
  let hL := hgt (texture2D heightmap (fst uv - fst cell, snd uv)) in
  let hR := hgt (texture2D heightmap (fst uv + fst cell, snd uv)) in
  let hD := hgt (texture2D heightmap (fst uv, snd uv - snd cell)) in
  let hU := hgt (texture2D heightmap (fst uv, snd uv + snd cell)) in
  let sump := hL + hR + hD + hU - 4 * hC in
  let GRAVITY := INR (width heightmap) * 3 in
  let accel := sump * GRAVITY in
  let vel    := vel h + accel * delta u in
  let height := hC + vel * delta u in
  let height := height + sump * viscosity u in
  let local := localOf u uv in
  let impulse := splashImpulse u local in
  let vel := vel + impulse in
  let forcing := waveForcing u local in
  let vel := vel + forcing * delta u in
  let vel    := clamp vel (-20) 20 in
  let height := hC + vel * delta u in
  let height := clamp height (-5) 5 in
  let vel    := vel * 0.995 in
  let height := hC + vel * delta u in
  let height := height - height * baselineReturn u * delta u in
  let fx := Rmin (fst uv) (1 - fst uv) in
  let fy := Rmin (snd uv) (1 - snd uv) in
  let border := smoothstep 0 0.04 (Rmin fx fy) in
  let vel := vel * mix 0.99 1 border in
  mkTexel height vel.

(** [gpu.compute()] for the height variable: every texel of the next
    target is [main] on the current one; then the targets are swapped.  The
    normal and foam pass that follows reads the new height target and
    writes a target of its own; nothing of it flows back. *)
Definition compute (u : uniforms) (t : texture) : texture :=
  mkTexture (width t) (height t)
    (map (fun i => main u t (i mod width t) (i / width t))
         (seq 0 (width t * height t))).

End HeightFS.

(** ** three.js vectors and the water mesh

    three.js is a dependency of the repository; the operations the
    components call are written out here as the library defines them. *)

Module Three.

Record Vector2 : Type := mkV2 { x2 : R; y2 : R }.
Record Vector3 : Type := mkV3 { x : R; y : R; z : R }.

Definition toVec2 (v : Vector2) : Glsl.vec2 := (x2 v, y2 v).

Definition length2 (v : Vector2) : R := sqrt (x2 v * x2 v + y2 v * y2 v).

(** [Vector2.normalize]: [divideScalar (length () || 1)]. *)
Definition normalize2 (v : Vector2) : Vector2 :=
  let l := Js.orElse (Some (length2 v)) 1 in
  mkV2 (x2 v * (1 / l)) (y2 v * (1 / l)).

Definition length (v : Vector3) : R := sqrt (x v * x v + y v * y v + z v * z v).
Definition lengthSq (v : Vector3) : R := x v * x v + y v * y v + z v * z v.

Definition multiplyScalar (v : Vector3) (s : R) : Vector3 :=
  mkV3 (x v * s) (y v * s) (z v * s).

Definition divideScalar (v : Vector3) (s : R) : Vector3 :=
  multiplyScalar v (1 / s).

Definition add (a b : Vector3) : Vector3 :=
  mkV3 (x a + x b) (y a + y b) (z a + z b).

Definition sub (a b : Vector3) : Vector3 :=
  mkV3 (x a - x b) (y a - y b) (z a - z b).

Definition addScaledVector (a v : Vector3) (s : R) : Vector3 :=
  mkV3 (x a + x v * s) (y a + y v * s) (z a + z v * s).

Definition cross (a b : Vector3) : Vector3 :=
  mkV3 (y a * z b - z a * y b) (z a * x b - x a * z b) (x a * y b - y a * x b).

(** [MathUtils.clamp]. *)
Definition clamp (value lo hi : R) : R := Rmax lo (Rmin hi value).

(** [Vector3.normalize]. *)
Definition normalize (v : Vector3) : Vector3 :=
  divideScalar v (Js.orElse (Some (length v)) 1).

(** [Vector3.clampLength]. *)
Definition clampLength (v : Vector3) (lo hi : R) : Vector3 :=
  let l := length v in
  multiplyScalar (divideScalar v (Js.orElse (Some l) 1)) (clamp l lo hi).

(** The water mesh: a plane placed at [position] and turned by
    [rotationX] about the X axis; its parent is the scene. *)
Record Mesh : Type := mkMesh { position : Vector3; rotationX : R }.

Definition rotateX (a : R) (v : Vector3) : Vector3 :=
  mkV3 (x v) (cos a * y v - sin a * z v) (sin a * y v + cos a * z v).

Definition localToWorld (m : Mesh) (v : Vector3) : Vector3 :=
  add (rotateX (rotationX m) v) (position m).

Definition worldToLocal (m : Mesh) (v : Vector3) : Vector3 :=
  rotateX (- rotationX m) (sub v (position m)).

End Three.

(** ** CompWaterPBR *)

Module CompWaterPBR.
Import Three.

Definition MIN_OMEGA : R := 0.5.

Record planeWave : Type := mkPlaneWave {
  dir : Vector2; k : R; omega : R; amp : R; phase : R
}.

Record radialWave : Type := mkRadialWave {
  center : Vector2; rk : R; romega : R; ramp : R; rdecay : R; rphase : R
}.

(** Constructor properties.  [gpuWidth] is the width the compute renderer
    is built with ([new GPUComputationRenderer (simW, simH, renderer)]);
    the renderer does not expose it, and no function of the component
    reads it. *)
Record ICompWaterPBRProps : Type := mkProps {
  p_position  : Vector3;
  sizeX       : R;
  sizeY       : R;
  simW        : nat;
  simH        : nat;
  p_rotationX : option R;
  displacementScale : R;
  p_mouseSize : option R;
  p_viscosity : option R;
  gpuWidth    : R
}.

(** The fields of the component that the simulation reads or writes.  The
    mesh, the renderer and the render target exist from construction on;
    their null checks are not modelled. *)
Record state : Type := mkState {
  props        : ICompWaterPBRProps;
  mesh         : Mesh;
  uniforms     : HeightFS.uniforms;
  target       : Tex.texture;
  simTime      : R;
  _MAX_PW      : nat;
  _pwWrite     : nat;
  _MAX_RW      : nat;
  _rwWrite     : nat;
  _planeWaves  : list planeWave;
  _radialWaves : list radialWave;
  _invSizeX    : R;
  _invSizeY    : R;
  _simWidth    : nat;
  _simHeight   : nat;
  _normalY     : R
}.

Definition set_uniforms (s : state) (u : HeightFS.uniforms) : state :=
  mkState (props s) (mesh s) u (target s) (simTime s) (_MAX_PW s) (_pwWrite s)
          (_MAX_RW s) (_rwWrite s) (_planeWaves s) (_radialWaves s)
          (_invSizeX s) (_invSizeY s) (_simWidth s) (_simHeight s) (_normalY s).

Definition set_target (s : state) (t : Tex.texture) : state :=
  mkState (props s) (mesh s) (uniforms s) t (simTime s) (_MAX_PW s) (_pwWrite s)
          (_MAX_RW s) (_rwWrite s) (_planeWaves s) (_radialWaves s)
          (_invSizeX s) (_invSizeY s) (_simWidth s) (_simHeight s) (_normalY s).

Definition set_simTime (s : state) (t : R) : state :=
  mkState (props s) (mesh s) (uniforms s) (target s) t (_MAX_PW s) (_pwWrite s)
          (_MAX_RW s) (_rwWrite s) (_planeWaves s) (_radialWaves s)
          (_invSizeX s) (_invSizeY s) (_simWidth s) (_simHeight s) (_normalY s).

Definition set_rwWrite (s : state) (n : nat) : state :=
  mkState (props s) (mesh s) (uniforms s) (target s) (simTime s) (_MAX_PW s)
          (_pwWrite s) (_MAX_RW s) n (_planeWaves s) (_radialWaves s)
          (_invSizeX s) (_invSizeY s) (_simWidth s) (_simHeight s) (_normalY s).

Definition set_planeWaves (s : state) (l : list planeWave) : state :=
  mkState (props s) (mesh s) (uniforms s) (target s) (simTime s) (_MAX_PW s)
          (_pwWrite s) (_MAX_RW s) (_rwWrite s) l (_radialWaves s)
          (_invSizeX s) (_invSizeY s) (_simWidth s) (_simHeight s) (_normalY s).

Definition set_radialWaves (s : state) (l : list radialWave) : state :=
  mkState (props s) (mesh s) (uniforms s) (target s) (simTime s) (_MAX_PW s)
          (_pwWrite s) (_MAX_RW s) (_rwWrite s) (_planeWaves s) l
          (_invSizeX s) (_invSizeY s) (_simWidth s) (_simHeight s) (_normalY s).

(** Writers of the uniform block. *)
Definition u_set_splash (u : HeightFS.uniforms) (pos : Glsl.vec2) (size strength : R)
  : HeightFS.uniforms :=
  HeightFS.mkUniforms pos size (HeightFS.viscosity u) (HeightFS.delta u)
    (HeightFS.bounds u) strength (HeightFS.baselineReturn u) (HeightFS.simTime u)
    (HeightFS.numPW u) (HeightFS.pw u) (HeightFS.numRW u) (HeightFS.rw u).

Definition u_set_clock (u : HeightFS.uniforms) (dt t : R) : HeightFS.uniforms :=
  HeightFS.mkUniforms (HeightFS.mousePos u) (HeightFS.mouseSize u)
    (HeightFS.viscosity u) dt (HeightFS.bounds u) (HeightFS.splashStrength u)
    (HeightFS.baselineReturn u) t
    (HeightFS.numPW u) (HeightFS.pw u) (HeightFS.numRW u) (HeightFS.rw u).

Definition u_set_pw (u : HeightFS.uniforms) (n : nat) (p : HeightFS.planeSlots)
  : HeightFS.uniforms :=
  HeightFS.mkUniforms (HeightFS.mousePos u) (HeightFS.mouseSize u)
    (HeightFS.viscosity u) (HeightFS.delta u) (HeightFS.bounds u)
    (HeightFS.splashStrength u) (HeightFS.baselineReturn u) (HeightFS.simTime u)
    n p (HeightFS.numRW u) (HeightFS.rw u).

Definition u_set_rw (u : HeightFS.uniforms) (n : nat) (r : HeightFS.radialSlots)
  : HeightFS.uniforms :=
  HeightFS.mkUniforms (HeightFS.mousePos u) (HeightFS.mouseSize u)
    (HeightFS.viscosity u) (HeightFS.delta u) (HeightFS.bounds u)
    (HeightFS.splashStrength u) (HeightFS.baselineReturn u) (HeightFS.simTime u)
    (HeightFS.numPW u) (HeightFS.pw u) n r.

(** The constructor: the part that sets up the simulation. *)
Definition create (p : ICompWaterPBRProps) : state :=
  let rotX := match p_rotationX p with Some a => a | None => - PI / 2 end in
  let mouseSize := match p_mouseSize p with Some a => a | None => 10 end in
  let viscosity := match p_viscosity p with Some a => a | None => 0.01 end in
  let hmU :=
    HeightFS.mkUniforms (9999, 9999) mouseSize viscosity (1 / 60)
      (sizeX p * 0.5, sizeY p * 0.5) 0 0.08 0
      0 (HeightFS.mkPlaneSlots (repeat (1, 0) 4) (repeat 0 4) (repeat 0 4)
                               (repeat 0 4) (repeat 0 4))
      0 (HeightFS.mkRadialSlots (repeat (0, 0) 4) (repeat 0 4) (repeat 0 4)
                                (repeat 0 4) (repeat 0 4) (repeat 0 4)) in
  let m := mkMesh (p_position p) rotX in
  let normal := normalize (rotateX rotX (mkV3 0 0 1)) in
  mkState p m hmU (Tex.flat (simW p) (simH p)) 0 4 0 4 0 [] []
    (if Req_dec_T (sizeX p) 0 then 0 else 1 / sizeX p)
    (if Req_dec_T (sizeY p) 0 then 0 else 1 / sizeY p)
    (simW p) (simH p) (y normal).

Definition _worldToLocalXY (s : state) (worldPoint : Vector3) : Vector2 :=
  let p := worldToLocal (mesh s) worldPoint in
  mkV2 (x p) (y p).

(** Copy of wave [i] of the plane list into slot [i]. *)
Definition pw_store (i : nat) (w : planeWave) (p : HeightFS.planeSlots)
  : HeightFS.planeSlots :=
  HeightFS.mkPlaneSlots
    (Js.set_nth i (toVec2 (dir w)) (HeightFS.pw_dir p))
    (Js.set_nth i (k w) (HeightFS.pw_k p))
    (Js.set_nth i (omega w) (HeightFS.pw_omega p))
    (Js.set_nth i (amp w) (HeightFS.pw_amp p))
    (Js.set_nth i (phase w) (HeightFS.pw_phase p)).

Definition pw_zero_amp (p : HeightFS.planeSlots) (i : nat) : HeightFS.planeSlots :=
  HeightFS.mkPlaneSlots (HeightFS.pw_dir p) (HeightFS.pw_k p) (HeightFS.pw_omega p)
    (Js.set_nth i 0 (HeightFS.pw_amp p)) (HeightFS.pw_phase p).

Definition _addPWToUniforms (s : state) : state :=
  let u := uniforms s in
  let n := Nat.min (List.length (_planeWaves s)) 4 in
  let p := fold_left
             (fun p i => match nth_error (_planeWaves s) i with
                         | Some w => pw_store i w p
                         | None => p
                         end)
             (seq 0 n) (HeightFS.pw u) in
  let p := fold_left pw_zero_amp (seq n (4 - n)) p in
  set_uniforms s (u_set_pw u n p).

Definition rw_store (i : nat) (w : radialWave) (r : HeightFS.radialSlots)
  : HeightFS.radialSlots :=
  HeightFS.mkRadialSlots
    (Js.set_nth i (toVec2 (center w)) (HeightFS.rw_center r))
    (Js.set_nth i (rk w) (HeightFS.rw_k r))
    (Js.set_nth i (romega w) (HeightFS.rw_omega r))
    (Js.set_nth i (ramp w) (HeightFS.rw_amp r))
    (Js.set_nth i (rdecay w) (HeightFS.rw_decay r))
    (Js.set_nth i (rphase w) (HeightFS.rw_phase r)).

Definition rw_zero_amp (r : HeightFS.radialSlots) (i : nat) : HeightFS.radialSlots :=
  HeightFS.mkRadialSlots (HeightFS.rw_center r) (HeightFS.rw_k r)
    (HeightFS.rw_omega r) (Js.set_nth i 0 (HeightFS.rw_amp r))
    (HeightFS.rw_decay r) (HeightFS.rw_phase r).

Definition _addRWToUniforms (s : state) : state :=
  let u := uniforms s in
  let n := Nat.min (List.length (_radialWaves s)) 4 in
  let r := fold_left
             (fun r i => match nth_error (_radialWaves s) i with
                         | Some w => rw_store i w r
                         | None => r
                         end)
             (seq 0 n) (HeightFS.rw u) in
  let r := fold_left rw_zero_amp (seq n (4 - n)) r in
  set_uniforms s (u_set_rw u n r).

(** [this.gpu.width].  [gpu] is a three.js [GPUComputationRenderer], which
    keeps its size in the variables of its constructor and has no property
    [width] (the source reads it through a cast to [any]): the read gives
    [undefined]. *)
Definition gpu_width (s : state) : option R := None.

(** [_calcOmega (k, speed, omega, periodSec)].  The four returns of the
    source, the last one first: each earlier test falls through to the
    next.  The result is a number or NaN ([None]): [g_sim] is
    [undefined * 3.0]. *)
Definition _calcOmega (s : state) (k : R) (speed omega periodSec : option R)
  : option R :=
  let fallback :=
    let g_sim := Js.mulN (gpu_width s) (Some 3) in
    let om := if Rlt_dec 0 k
              then Js.sqrtN (Js.maxN (Some 0) (Js.mulN g_sim (Some k)))
              else Some 0 in
    Js.maxN om (Some MIN_OMEGA) in
  let bySpeed :=
    match speed with
    | Some v => if Req_dec_T v 0 then fallback else Some (Js.Math_abs (k * v))
    | None => fallback
    end in
  let byPeriod :=
    match periodSec with
    | Some T => if Rlt_dec 0 T then Some (2 * Js.Math_PI / T) else bySpeed
    | None => bySpeed
    end in
  match omega with
  | Some w => if Rlt_dec 0 w then Some w else byPeriod
  | None => byPeriod
  end.

(** [k] from a wavelength: [(wavelength && wavelength > 0) ? 2π/wavelength : 0]. *)
Definition waveNumber (wavelength : option R) : R :=
  match wavelength with
  | Some l => if Rlt_dec 0 l then 2 * Js.Math_PI / l else 0
  | None => 0
  end.

Definition _calcDispersion (s : state) (wavelength speed omega : option R)
  : R * option R :=
  let k := waveNumber wavelength in
  let om := _calcOmega s k speed omega None in
  (k, om).

(** Arguments of [addPlaneWave]. *)
Record planeWaveProps : Type := mkPlaneWaveProps {
  pp_dir        : Vector2;
  pp_wavelength : R;
  pp_amplitude  : R;
  pp_speed      : R;
  pp_phase      : option R;
  pp_omega      : option R
}.

(** The wave is pushed with the resolved omega.  When that omega is NaN the
    program keeps the amplitude and the passes that follow compute with
    NaN; the model, whose waves hold real numbers, has [Js.stored] there
    and says nothing about those passes. *)
Definition addPlaneWave (s : state) (a : planeWaveProps) : state :=
  if (List.length (_planeWaves s) <? _MAX_PW s)%nat then
    let d := normalize2 (pp_dir a) in
    let '(k, om) := _calcDispersion s (Some (pp_wavelength a))
                      (Some (pp_speed a)) (pp_omega a) in
    let s := set_planeWaves s
               (_planeWaves s ++
                [mkPlaneWave d k (Js.stored om) (pp_amplitude a)
                             (Js.orElse (pp_phase a) 0)]) in
    _addPWToUniforms s
  else s.

(** [IRadialWaveProps].  [amplitude] and [decay] are written to the
    uniform arrays as they are, so the model takes them as numbers. *)
Record IRadialWaveProps : Type := mkRadialWaveProps {
  rp_center     : Vector2;
  rp_wavelength : option R;
  rp_amplitude  : R;
  rp_decay      : R;
  rp_phase      : option R;
  rp_speed      : option R;
  rp_omega      : option R;
  rp_periodSec  : option R
}.

(** The amplitude [addRadialWave] stores: the gate on bad waves.  [om] is
    the resolved omega, a number or NaN. *)
Definition gatedAmplitude (k : R) (om : option R) (amplitude : R) : R :=
  if Js.eqb k 0 || negb (Js.isFiniteN om) || Js.lebN om 0
  then 0 else amplitude.

(** A slot whose omega is NaN is gated off, and the shader does not read
    the omega of a slot with amplitude 0; the slot of the model holds
    [Js.stored om]. *)

Definition addRadialWave (s : state) (p : IRadialWaveProps) : state :=
  let u := uniforms s in
  let k := waveNumber (rp_wavelength p) in
  let om := _calcOmega s k (rp_speed p) (rp_omega p) (rp_periodSec p) in
  let i := (_rwWrite s mod _MAX_RW s)%nat in
  let s := set_rwWrite s (_rwWrite s + 1) in
  let amplitude := gatedAmplitude k om (rp_amplitude p) in
  let r := HeightFS.rw u in
  let r := HeightFS.mkRadialSlots
             (Js.set_nth i (toVec2 (rp_center p)) (HeightFS.rw_center r))
             (Js.set_nth i k (HeightFS.rw_k r))
             (Js.set_nth i (Js.stored om) (HeightFS.rw_omega r))
             (Js.set_nth i amplitude (HeightFS.rw_amp r))
             (Js.set_nth i (rp_decay p) (HeightFS.rw_decay r))
             (Js.set_nth i (Js.orElse (rp_phase p) 0) (HeightFS.rw_phase r)) in
  set_uniforms s (u_set_rw u (HeightFS.numRW u) r).

Definition disableRadialWave (s : state) (i : Z) : state :=
  let u := uniforms s in
  if ((0 <=? i)%Z && (i <? Z.of_nat (_MAX_RW s))%Z)%bool
  then set_uniforms s
         (u_set_rw u (HeightFS.numRW u) (rw_zero_amp (HeightFS.rw u) (Z.to_nat i)))
  else s.

Definition clearWaves (s : state) : state :=
  let s := set_planeWaves s [] in
  let s := set_radialWaves s [] in
  let s := _addPWToUniforms s in
  _addRWToUniforms s.

Inductive coordsKind : Type := local | world.

(** [splash (x, z, size, strength, coords)]; [size] is the argument after
    its default, [None] an explicit [null]. *)
Definition splash (s : state) (x z : R) (size : option R) (strength : R)
           (coords : coordsKind) : state :=
  let u := uniforms s in
  let pos : Glsl.vec2 :=
    match coords with
    | local => (x, z)
    | world =>
        let p := mkV3 x (Three.y (position (mesh s))) z in
        toVec2 (_worldToLocalXY s p)
    end in
  let size' := match size with Some v => v | None => HeightFS.mouseSize u end in
  set_uniforms s (u_set_splash u pos size' strength).

(** [compUpdate (dt)]: the step.  The material bindings that follow
    [gpu.compute ()] only hand the textures to the renderer. *)
Definition compUpdate (s : state) (dt : R) : state :=
  let u := uniforms s in
  let s := set_simTime s (simTime s + dt) in
  let u := u_set_clock u dt (simTime s) in
  let s := set_uniforms s u in
  let s := set_target s (HeightFS.compute u (target s)) in
  let u := u_set_splash u (9999, 9999) (HeightFS.mouseSize u) 0 in
  set_uniforms s u.

(** [readRenderTargetPixels (target, x, y, w, h, buffer)]: the RGBA floats
    of the [w] by [h] rectangle at [(x, y)], row by row. *)
Definition readRenderTargetPixels (t : Tex.texture) (x0 y0 : Z) (w h : nat)
  : list R :=
  flat_map
    (fun row =>
       flat_map
         (fun col =>
            let px := nth (Z.to_nat ((y0 + Z.of_nat row) * Z.of_nat (Tex.width t)
                                     + (x0 + Z.of_nat col)))
                          (Tex.data t) Tex.zero in
            [Tex.hgt px; Tex.vel px; 0; 1])
         (seq 0 w))
    (seq 0 h).

Definition getHeightAtPoint (s : state) (point : Vector3) : R :=
  let m := mesh s in
  let width := _simWidth s in
  let height := _simHeight s in
  if ((width =? 0) || (height =? 0))%nat then Three.y (position m)
  else
    let _heightSampleLocal := worldToLocal m point in
    let lx := Three.x _heightSampleLocal in
    let ly := Three.y _heightSampleLocal in
    let u := Js.Math_min (Js.Math_max (lx * _invSizeX s + 0.5) 0) 1 in
    let v := Js.Math_min (Js.Math_max (ly * _invSizeY s + 0.5) 0) 1 in
    let fx := u * (INR width - 1) in
    let fy := v * (INR height - 1) in
    let x0 := Js.Math_floor fx in
    let y0 := Js.Math_floor fy in
    let x1 := Z.min (x0 + 1) (Z.of_nat width - 1) in
    let y1 := Z.min (y0 + 1) (Z.of_nat height - 1) in
    let readW := if (x0 <? x1)%Z then 2%nat else 1%nat in
    let readH := if (y0 <? y1)%Z then 2%nat else 1%nat in
    let buffer := readRenderTargetPixels (target s) x0 y0 readW readH in
    let stride := (readW * 4)%nat in
    let h00 := nth 0 buffer 0 in
    let h10 := nth (if (1 <? readW)%nat then 4 else 0) buffer 0 in
    let h01 := nth (if (1 <? readH)%nat then stride else 0) buffer 0 in
    let h11 := nth (if ((1 <? readW) && (1 <? readH))%nat then stride + 4
                    else if (1 <? readH)%nat then stride
                    else if (1 <? readW)%nat then 4 else 0)%nat buffer 0 in
    let tx := if (1 <? readW)%nat then fx - IZR x0 else 0 in
    let ty := if (1 <? readH)%nat then fy - IZR y0 else 0 in
    let hx0 := h00 + (h10 - h00) * tx in
    let hx1 := h01 + (h11 - h01) * tx in
    let heightValue := hx0 + (hx1 - hx0) * ty in
    let _heightBaseWorld := localToWorld m (mkV3 lx ly 0) in
    let baseY := Three.y _heightBaseWorld in
    if negb (Js.isFiniteNum heightValue) then baseY
    else
      let displacement := heightValue * displacementScale (props s) in
      baseY + displacement * _normalY s.

End CompWaterPBR.

(** ** GPGPUWaterPBR: the wave registry of the JavaScript twin

    The shader, the splash and the step of this class are the ones of
    [CompWaterPBR]; the registry differs and is modelled here. *)

Module GPGPUWaterPBR.
Import Three.

Definition MIN_OMEGA : R := 0.5.

(** [gpuWidth] is the width the compute renderer is built with; the
    renderer does not expose it, and no function of the class reads it. *)
Record state : Type := mkState {
  gpuWidth     : R;
  uniforms     : HeightFS.uniforms;
  _MAX_PW      : nat;
  _pwWrite     : nat;
  _MAX_RW      : nat;
  _rwWrite     : nat;
  _planeWaves  : list CompWaterPBR.planeWave;
  _radialWaves : list CompWaterPBR.radialWave
}.

Definition create (gpuWidth : R) (u : HeightFS.uniforms) : state :=
  mkState gpuWidth
    (CompWaterPBR.u_set_rw
       (CompWaterPBR.u_set_pw u 0
          (HeightFS.mkPlaneSlots (repeat (1, 0) 4) (repeat 0 4) (repeat 0 4)
                                 (repeat 0 4) (repeat 0 4)))
       0 (HeightFS.mkRadialSlots (repeat (0, 0) 4) (repeat 0 4) (repeat 0 4)
                                 (repeat 0 4) (repeat 0 4) (repeat 0 4)))
    4 0 4 0 [] [].

Definition _addPWToUniforms (s : state) : state :=
  let u := uniforms s in
  let n := Nat.min (List.length (_planeWaves s)) 4 in
  let p := fold_left
             (fun p i => match nth_error (_planeWaves s) i with
                         | Some w => CompWaterPBR.pw_store i w p
                         | None => p
                         end)
             (seq 0 n) (HeightFS.pw u) in
  let p := fold_left CompWaterPBR.pw_zero_amp (seq n (4 - n)) p in
  mkState (gpuWidth s) (CompWaterPBR.u_set_pw u n p) (_MAX_PW s) (_pwWrite s)
          (_MAX_RW s) (_rwWrite s) (_planeWaves s) (_radialWaves s).

(** [this.gpu.width]: [undefined], as in [CompWaterPBR]. *)
Definition gpu_width (s : state) : option R := None.

(** [_calcDispersion]: [typeof v === 'number'] is [v] being defined.  The
    omega is a number or NaN ([None]). *)
Definition _calcDispersion (s : state) (wavelength : R) (speed omega : option R)
  : R * option R :=
  let k := if Rlt_dec 0 wavelength then 2 * Js.Math_PI / wavelength else 0 in
  let g_sim := Js.mulN (gpu_width s) (Some 3) in
  let om := match omega with
            | Some w => Some w
            | None =>
              match speed with
              | Some v => Some (k * v)
              | None => Js.sqrtN (Js.maxN (Some 0) (Js.mulN g_sim (Some k)))
              end
            end in
  (k, om).

Definition _calcOmega (s : state) (k : R) (speed omega periodSec : option R)
  : option R :=
  let fallback :=
    let g_sim := Js.mulN (gpu_width s) (Some 3) in
    let om := if Rlt_dec 0 k
              then Js.sqrtN (Js.maxN (Some 0) (Js.mulN g_sim (Some k)))
              else Some 0 in
    Js.maxN om (Some MIN_OMEGA) in
  let bySpeed :=
    match speed with
    | Some v => if Req_dec_T v 0 then fallback else Some (Js.Math_abs (k * v))
    | None => fallback
    end in
  let byPeriod :=
    match periodSec with
    | Some T => if Rlt_dec 0 T then Some (2 * Js.Math_PI / T) else bySpeed
    | None => bySpeed
    end in
  match omega with
  | Some w => if Rlt_dec 0 w then Some w else byPeriod
  | None => byPeriod
  end.

(** Arguments of [addPlaneWave]; an omitted field takes its default. *)
Record planeWaveArgs : Type := mkPlaneWaveArgs {
  pa_dir        : option Vector2;
  pa_wavelength : option R;
  pa_amplitude  : option R;
  pa_phase      : option R;
  pa_speed      : option R;
  pa_omega      : option R
}.

Definition dflt {A : Type} (v : option A) (d : A) : A :=
  match v with Some a => a | None => d end.

(** Returns the new state and the identifier it hands back. *)
Definition addPlaneWave (s : state) (a : planeWaveArgs) : state * nat :=
  let dir := dflt (pa_dir a) (mkV2 1 0) in
  let wavelength := dflt (pa_wavelength a) 10 in
  let amplitude := dflt (pa_amplitude a) 0.6 in
  let phase := dflt (pa_phase a) 0 in
  let d := normalize2 dir in
  let '(k, om) := _calcDispersion s wavelength (pa_speed a) (pa_omega a) in
  let s := mkState (gpuWidth s) (uniforms s) (_MAX_PW s) (_pwWrite s) (_MAX_RW s)
             (_rwWrite s)
             (_planeWaves s ++
              [CompWaterPBR.mkPlaneWave d k (Js.stored om) amplitude phase])
             (_radialWaves s) in
  let s := _addPWToUniforms s in
  (s, (List.length (_planeWaves s) - 1)%nat).

Record radialWaveArgs : Type := mkRadialWaveArgs {
  ra_center     : option Vector2;
  ra_wavelength : option R;
  ra_amplitude  : option R;
  ra_decay      : option R;
  ra_phase      : option R;
  ra_speed      : option R;
  ra_omega      : option R;
  ra_periodSec  : option R
}.

Definition addRadialWave (s : state) (a : radialWaveArgs) : state * nat :=
  let center := dflt (ra_center a) (mkV2 0 0) in
  let wavelength := dflt (ra_wavelength a) 8 in
  let amplitude := dflt (ra_amplitude a) 0.5 in
  let decay := dflt (ra_decay a) 0.08 in
  let phase := dflt (ra_phase a) 0 in
  let u := uniforms s in
  let k := if Rlt_dec 0 wavelength then 2 * Js.Math_PI / wavelength else 0 in
  let om := _calcOmega s k (ra_speed a) (ra_omega a) (ra_periodSec a) in
  let i := (_rwWrite s mod _MAX_RW s)%nat in
  let amplitude := CompWaterPBR.gatedAmplitude k om amplitude in
  let r := HeightFS.rw u in
  let r := HeightFS.mkRadialSlots
             (Js.set_nth i (toVec2 center) (HeightFS.rw_center r))
             (Js.set_nth i k (HeightFS.rw_k r))
             (Js.set_nth i (Js.stored om) (HeightFS.rw_omega r))
             (Js.set_nth i amplitude (HeightFS.rw_amp r))
             (Js.set_nth i decay (HeightFS.rw_decay r))
             (Js.set_nth i phase (HeightFS.rw_phase r)) in
  (mkState (gpuWidth s) (CompWaterPBR.u_set_rw u (HeightFS.numRW u) r)
           (_MAX_PW s) (_pwWrite s) (_MAX_RW s) (_rwWrite s + 1)
           (_planeWaves s) (_radialWaves s),
   i).

End GPGPUWaterPBR.

(** ** CompBuoyancy *)

Module CompBuoyancy.
Import Three.

Record Quaternion : Type := mkQ { qx : R; qy : R; qz : R; qw : R }.

Definition setFromAxisAngle (axis : Vector3) (angle : R) : Quaternion :=
  let halfAngle := angle / 2 in
  let s := sin halfAngle in
  mkQ (x axis * s) (y axis * s) (z axis * s) (cos halfAngle).

Definition qmultiply (a b : Quaternion) : Quaternion :=
  mkQ (qx a * qw b + qw a * qx b + qy a * qz b - qz a * qy b)
      (qy a * qw b + qw a * qy b + qz a * qx b - qx a * qz b)
      (qz a * qw b + qw a * qz b + qx a * qy b - qy a * qx b)
      (qw a * qw b - qx a * qx b - qy a * qy b - qz a * qz b).

Definition qnormalize (q : Quaternion) : Quaternion :=
  let l := sqrt (qx q * qx q + qy q * qy q + qz q * qz q + qw q * qw q) in
  if Req_dec_T l 0 then mkQ 0 0 0 1
  else let l := 1 / l in mkQ (qx q * l) (qy q * l) (qz q * l) (qw q * l).

Definition applyQuaternion (v : Vector3) (q : Quaternion) : Vector3 :=
  let tx := 2 * (qy q * z v - qz q * y v) in
  let ty := 2 * (qz q * x v - qx q * z v) in
  let tz := 2 * (qx q * y v - qy q * x v) in
  mkV3 (x v + qw q * tx + qy q * tz - qz q * ty)
       (y v + qw q * ty + qz q * tx - qx q * tz)
       (z v + qw q * tz + qx q * ty - qy q * tx).

(** The parent's [object3D]: a child of the scene with unit scale, so
    [matrixWorld] is the rotation followed by the translation. *)
Record Object3D : Type := mkObject3D {
  position   : Vector3;
  quaternion : Quaternion
}.

Definition applyMatrixWorld (o : Object3D) (v : Vector3) : Vector3 :=
  add (applyQuaternion v (quaternion o)) (position o).

Definition getWorldPosition (o : Object3D) : Vector3 := position o.

Record ICompBuoyancyProps : Type := mkProps {
  p_water   : option CompWaterPBR.state;
  probes    : list Vector3;
  p_density : option R;
  p_volume  : option R;
  p_dragCoefficient : option R;
  p_angularDragCoefficient : option R;
  p_gravity : option Vector3
}.

(** The component holds a reference to the water component; the model
    keeps the water's state in the body's state and hands back the state
    after the splash. *)
Record state : Type := mkState {
  props           : ICompBuoyancyProps;
  object3D        : Object3D;
  water           : option CompWaterPBR.state;
  density         : R;
  volume          : R;
  dragCoefficient : R;
  angularDragCoefficient : R;
  gravity         : Vector3;
  buoyancyForce   : Vector3;
  dragForce       : Vector3;
  _velocity       : Vector3;
  _angularVelocity : Vector3
}.

Definition create (o : Object3D) (p : ICompBuoyancyProps) : state :=
  mkState p o (p_water p)
    (Js.orElse (p_density p) 0.5)
    (Js.orElse (p_volume p) 1)
    (Js.orElse (p_dragCoefficient p) 0.75)
    (Js.orElse (p_angularDragCoefficient p) 0.75)
    (GPGPUWaterPBR.dflt (p_gravity p) (mkV3 0 (-9.81) 0))
    (mkV3 0 0 0) (mkV3 0 0 0) (mkV3 0 0 0) (mkV3 0 0 0).

(** The running sums of the probe loop. *)
Record probeAcc : Type := mkAcc {
  accumulatedHeight : R;
  validCount        : nat;
  totalBuoyancy     : R;
  _torqueAccum      : Vector3
}.

Definition probeStep (st : state) (w : CompWaterPBR.state) (_objectWorld : Vector3)
           (perProbeVolume : R) (acc : probeAcc) (probe : Vector3) : probeAcc :=
  let _probeWorld := applyMatrixWorld (object3D st) probe in
  let waterHeight := CompWaterPBR.getHeightAtPoint w _probeWorld in
  if negb (Js.isFiniteNum waterHeight) then acc
  else
    let accumulatedHeight := accumulatedHeight acc + waterHeight in
    let validCount := S (validCount acc) in
    let depth := waterHeight - y _probeWorld in
    if Rle_dec depth 0
    then mkAcc accumulatedHeight validCount (totalBuoyancy acc) (_torqueAccum acc)
    else
      let clampedDepth := Js.Math_min (Js.Math_max depth 0) perProbeVolume in
      let buoyancyForceY := clampedDepth * volume st * 9.81 in
      let totalBuoyancy := totalBuoyancy acc + buoyancyForceY in
      let _forceVec := mkV3 0 buoyancyForceY 0 in
      let _leverArm := sub _probeWorld _objectWorld in
      let _torqueTemp := cross _leverArm _forceVec in
      mkAcc accumulatedHeight validCount totalBuoyancy
            (add (_torqueAccum acc) _torqueTemp).

Definition _applyForces (st : state) (avgWaterHeight buoyancyForceY : R)
           (torque : Vector3) (dt : R) : state :=
  let o := object3D st in
  let pos := position o in
  let mass := Js.Math_max (density st * volume st) 1e-3 in
  let displacement := avgWaterHeight - y pos in
  let clampedDisplacement := Js.Math_min (Js.Math_max displacement 0) (volume st) in
  let springForce := if Rlt_dec 0 buoyancyForceY then buoyancyForceY
                     else clampedDisplacement * volume st * 9.81 in
  let damping := dragCoefficient st * y (_velocity st) in
  let gravityForce := multiplyScalar (gravity st) mass in
  let dragForce := mkV3 0 (- damping) 0 in
  let netForceY := springForce - damping + y gravityForce in
  let accelerationY := netForceY / mass in
  let vy := y (_velocity st) + accelerationY * dt in
  let vy := clamp vy (-20) 20 in
  let velocity := mkV3 (x (_velocity st)) vy (z (_velocity st)) in
  let pos := mkV3 (x pos) (y pos + vy * dt) (z pos) in
  let inertia := Js.Math_max (volume st) 1e-3 in
  let av := addScaledVector (_angularVelocity st) torque (dt / inertia) in
  let angularDamping := Js.Math_max 0 (1 - angularDragCoefficient st * dt) in
  let av := multiplyScalar av angularDamping in
  let av := clampLength av 0 (Js.Math_PI * 4) in
  let angularSpeed := length av in
  let q :=
    if Rlt_dec 1e-5 angularSpeed then
      let _angularAxis := multiplyScalar av (1 / angularSpeed) in
      let angle := angularSpeed * dt in
      let _deltaQuat := setFromAxisAngle _angularAxis angle in
      qnormalize (qmultiply (quaternion o) _deltaQuat)
    else quaternion o in
  mkState (props st) (mkObject3D pos q) (water st) (density st) (volume st)
          (dragCoefficient st) (angularDragCoefficient st) (gravity st)
          (buoyancyForce st) dragForce velocity av.

Definition set_buoyancyForce (st : state) (f : Vector3) : state :=
  mkState (props st) (object3D st) (water st) (density st) (volume st)
          (dragCoefficient st) (angularDragCoefficient st) (gravity st)
          f (dragForce st) (_velocity st) (_angularVelocity st).

Definition set_water (st : state) (w : CompWaterPBR.state) : state :=
  mkState (props st) (object3D st) (Some w) (density st) (volume st)
          (dragCoefficient st) (angularDragCoefficient st) (gravity st)
          (buoyancyForce st) (dragForce st) (_velocity st) (_angularVelocity st).

(** Did the call reach [_applyForces]? *)
Inductive outcome : Type := Skipped | NoValidProbe | Applied.

Definition compUpdate (st : state) (dt : R) : state * outcome :=
  let p := props st in
  match probes p, water st with
  | [], _ => (st, Skipped)
  | _, None => (st, Skipped)
  | _ :: _, Some w =>
    let _objectWorld := getWorldPosition (object3D st) in
    let probeCount := List.length (probes p) in
    let perProbeVolume := Js.Math_max (volume st / INR probeCount) 1e-3 in
    let acc := fold_left (probeStep st w _objectWorld perProbeVolume) (probes p)
                         (mkAcc 0 0 0 (mkV3 0 0 0)) in
    if (validCount acc =? 0)%nat
    then (set_buoyancyForce st (mkV3 0 0 0), NoValidProbe)
    else
      let avgWaterHeight := accumulatedHeight acc / INR (validCount acc) in
      let st := set_buoyancyForce st (mkV3 0 (totalBuoyancy acc) 0) in
      let st := _applyForces st avgWaterHeight (totalBuoyancy acc)
                             (_torqueAccum acc) dt in
      if Rle_dec (length (_velocity st)) 0 then (st, Applied)
      else
        let splashPos := mkV3 (x _objectWorld) avgWaterHeight (z _objectWorld) in
        let w := CompWaterPBR.splash w (x splashPos) (z splashPos) (Some 2)
                   (lengthSq (_velocity st) * 10) CompWaterPBR.world in
        (set_water st w, Applied)
  end.

End CompBuoyancy.

(** ** The splash kernel as a radial profile *)

Module SplashKernel.

(** The impulse as a function of the normalised radius [r = d / mouseSize]. *)
Definition kernel (strength r : R) : R :=
  let r2 := r * r in
  let g := exp (- 100 * r2) in
  (1 - 50 * r2) * g * strength.

(** Integrand of the area integral of a radial function in polar
    coordinates, without the factor [2 * PI]. *)
Definition radialIntegrand (strength : R) (r : R) : R := kernel strength r * r.

(** A primitive of [radialIntegrand]. *)
Definition primitive (strength : R) (r : R) : R :=
  (r * r / 4 - 1 / 400) * exp (- 100 * (r * r)) * strength.

(** The area integral of the impulse over the disc [d <= rho * radius]
    around the splash point, in polar coordinates: [d = r * radius], area
    element [2 * PI * d * dd]. *)
Definition netImpulse (strength radius rho : R)
           (pr : Riemann_integrable (radialIntegrand strength) 0 rho) : R :=
  2 * PI * (radius * radius) * RiemannInt pr.

End SplashKernel.

(** ** Predicates used in the statements *)

Module Spec.

(** A flat field at rest: every texel has height 0 and velocity 0. *)
Definition atRest (t : Tex.texture) : Prop :=
  Tex.data t = repeat Tex.zero (Tex.width t * Tex.height t).

(** No active wave source: every amplitude slot is zero. *)
Definition noActiveWaves (u : HeightFS.uniforms) : Prop :=
  (forall i, nth i (HeightFS.pw_amp (HeightFS.pw u)) 0 = 0) /\
  (forall i, nth i (HeightFS.rw_amp (HeightFS.rw u)) 0 = 0).

(** No pending splash. *)
Definition noPendingSplash (u : HeightFS.uniforms) : Prop :=
  HeightFS.splashStrength u = 0.

(** The uniform block the pass of [compUpdate s dt] runs with. *)
Definition stepUniforms (s : CompWaterPBR.state) (dt : R) : HeightFS.uniforms :=
  CompWaterPBR.u_set_clock (CompWaterPBR.uniforms s) dt (CompWaterPBR.simTime s + dt).

(** The six values held by slot [i] of the radial store. *)
Definition radialSlot (u : HeightFS.uniforms) (i : nat)
  : Glsl.vec2 * R * R * R * R * R :=
  let r := HeightFS.rw u in
  (nth i (HeightFS.rw_center r) (0, 0), nth i (HeightFS.rw_k r) 0,
   nth i (HeightFS.rw_omega r) 0, nth i (HeightFS.rw_amp r) 0,
   nth i (HeightFS.rw_decay r) 0, nth i (HeightFS.rw_phase r) 0).

(** The six values [CompWaterPBR.addRadialWave s p] writes. *)
Definition radialEntry (s : CompWaterPBR.state) (p : CompWaterPBR.IRadialWaveProps)
  : Glsl.vec2 * R * R * R * R * R :=
  let k := CompWaterPBR.waveNumber (CompWaterPBR.rp_wavelength p) in
  let om := CompWaterPBR._calcOmega s k (CompWaterPBR.rp_speed p)
              (CompWaterPBR.rp_omega p) (CompWaterPBR.rp_periodSec p) in
  (Three.toVec2 (CompWaterPBR.rp_center p), k, Js.stored om,
   CompWaterPBR.gatedAmplitude k om (CompWaterPBR.rp_amplitude p),
   CompWaterPBR.rp_decay p, Js.orElse (CompWaterPBR.rp_phase p) 0).

(** The radial arrays have their four slots. *)
Definition radialShaped (u : HeightFS.uniforms) : Prop :=
  let r := HeightFS.rw u in
  List.length (HeightFS.rw_center r) = 4%nat /\ List.length (HeightFS.rw_k r) = 4%nat /\
  List.length (HeightFS.rw_omega r) = 4%nat /\ List.length (HeightFS.rw_amp r) = 4%nat /\
  List.length (HeightFS.rw_decay r) = 4%nat /\ List.length (HeightFS.rw_phase r) = 4%nat.

(** The priority order of the specification, in its words: a finite
    positive explicit omega; otherwise a finite positive period; otherwise a
    finite nonzero speed; otherwise the deep-water value floored at
    [MIN_OMEGA]. *)
Definition finitePositive (v : option R) : bool :=
  match v with Some w => Js.ltb 0 w | None => false end.

Definition finiteNonzero (v : option R) : bool :=
  match v with Some w => negb (Js.eqb w 0) | None => false end.

Definition value (v : option R) : R :=
  match v with Some w => w | None => 0 end.


(** What the code resolves.  A source is usable when it passes the test
    of its return; with no usable source [g_sim] is NaN, and the result is
    NaN ([None]) for a positive [k] and [MIN_OMEGA] otherwise. *)
Definition omegaSource (speed omega period : option R) : bool :=
  finitePositive omega || finitePositive period || finiteNonzero speed.

Definition omegaResolved (k : R) (speed omega period : option R) : option R :=
  if finitePositive omega then Some (value omega)
  else if finitePositive period then Some (2 * PI / value period)
  else if finiteNonzero speed then Some (Rabs (k * value speed))
  else if Js.ltb 0 k then None
  else Some 0.5.

(** The local and the world position of grid node [(i, j)] of the height
    query: the point whose fractional grid coordinates are [(i, j)]. *)
Definition nodeLocal (s : CompWaterPBR.state) (i j : nat) : Three.Vector3 :=
  Three.mkV3
    ((INR i / (INR (CompWaterPBR._simWidth s) - 1) - 0.5)
     * CompWaterPBR.sizeX (CompWaterPBR.props s))
    ((INR j / (INR (CompWaterPBR._simHeight s) - 1) - 0.5)
     * CompWaterPBR.sizeY (CompWaterPBR.props s))
    0.

Definition nodeWorld (s : CompWaterPBR.state) (i j : nat) : Three.Vector3 :=
  Three.localToWorld (CompWaterPBR.mesh s) (nodeLocal s i j).

(** The raw height stored at texel [(i, j)]. *)
Definition storedHeight (t : Tex.texture) (i j : nat) : R :=
  Tex.hgt (nth (j * Tex.width t + i) (Tex.data t) Tex.zero).

(** What the constructor establishes between the cached fields. *)
Definition wellFormed (s : CompWaterPBR.state) : Prop :=
  CompWaterPBR._simWidth s = Tex.width (CompWaterPBR.target s) /\
  CompWaterPBR._simHeight s = Tex.height (CompWaterPBR.target s) /\
  CompWaterPBR._invSizeX s
  = (if Req_dec_T (CompWaterPBR.sizeX (CompWaterPBR.props s)) 0
     then 0 else 1 / CompWaterPBR.sizeX (CompWaterPBR.props s)) /\
  CompWaterPBR._invSizeY s
  = (if Req_dec_T (CompWaterPBR.sizeY (CompWaterPBR.props s)) 0
     then 0 else 1 / CompWaterPBR.sizeY (CompWaterPBR.props s)).


Definition addPlaneWaves (s : CompWaterPBR.state)
           (ps : list CompWaterPBR.planeWaveProps) : CompWaterPBR.state :=
  fold_left CompWaterPBR.addPlaneWave ps s.

(** Several steps in a row. *)
Definition steps (s : CompWaterPBR.state) (dts : list R) : CompWaterPBR.state :=
  fold_left CompWaterPBR.compUpdate dts s.

End Spec.

(** ** Concrete scenes used to run the model *)

Module Scene.

(** An 8 by 8 simulation on a 20 by 20 plane at the origin, all defaults. *)
Definition pond : CompWaterPBR.ICompWaterPBRProps :=
  CompWaterPBR.mkProps (Three.mkV3 0 0 0) 20 20 8 8 None 0.35 None None 8.

Definition pond0 : CompWaterPBR.state := CompWaterPBR.create pond.

(** The local position of the centre of texel (4, 4) of [pond]. *)
Definition hit : R := 1.25.

(** [pond0] after [splash (hit, hit, 5, 1000, 'local')]. *)
Definition pondSplashed : CompWaterPBR.state :=
  CompWaterPBR.splash pond0 hit hit (Some 5) 1000 CompWaterPBR.local.

(** The splashed pond after one step of one second. *)
Definition pondStepped : CompWaterPBR.state :=
  CompWaterPBR.compUpdate pondSplashed 1.

(** Scenario C: a body at the origin with four probes one unit below the
    flat water of the fresh pond. *)
Definition raft : CompBuoyancy.state :=
  CompBuoyancy.create
    (CompBuoyancy.mkObject3D (Three.mkV3 0 0 0) (CompBuoyancy.mkQ 0 0 0 1))
    (CompBuoyancy.mkProps (Some (CompWaterPBR.create pond))
       [Three.mkV3 1 (-1) 1; Three.mkV3 (-1) (-1) 1;
        Three.mkV3 1 (-1) (-1); Three.mkV3 (-1) (-1) (-1)]
       None None None None None).

(** Five radial waves; the fifth has wavelength 5. *)
Definition ring (wavelength : R) : CompWaterPBR.IRadialWaveProps :=
  CompWaterPBR.mkRadialWaveProps (Three.mkV2 0 0) (Some wavelength) 1 0.1 None
    None None (Some 2).


(** A plane wave along X with the given wavelength and amplitude. *)
Definition planeX (wavelength amplitude : R) : CompWaterPBR.planeWaveProps :=
  CompWaterPBR.mkPlaneWaveProps (Three.mkV2 1 0) wavelength amplitude 2 None None.

(** [pond0] after four plane waves of amplitudes 1, 2, 3, 4. *)
Definition pondFull : CompWaterPBR.state :=
  Spec.addPlaneWaves pond0 [planeX 10 1; planeX 10 2; planeX 10 3; planeX 10 4].

End Scene.

(** ** NORMAL_FS: the normal and foam pass *)

Module NormalFS.
Import Glsl Tex.

Record uniforms : Type := mkUniforms {
  cell         : vec2;
  displacement : R;
  foamParams   : vec2
}.

(** The RGBA output: the encoded normal and the foam mask. *)
Record texel4 : Type := mkTexel4 { encX : R; encY : R; encZ : R; foam : R }.

Definition length3 (x y z : R) : R := sqrt (x * x + y * y + z * z).

Definition main (u : uniforms) (heightmap : texture) (x y : nat) : texel4 :=
  let uv : vec2 := ((INR x + 0.5) * fst (cell u), (INR y + 0.5) * snd (cell u)) in
  let c  := hgt (texture2D heightmap uv) in
  let cx := hgt (texture2D heightmap (fst uv + fst (cell u), snd uv)) in
  let cy := hgt (texture2D heightmap (fst uv, snd uv + snd (cell u))) in
  let dx := (cx - c) * displacement u in
  let dy := (cy - c) * displacement u in
  let l  := length3 (- dx) (- dy) 1 in
  let nx := - dx / l in
  let ny := - dy / l in
  let nz := 1 / l in
  let slope := Glsl.length (cx - c, cy - c) in
  let foam := smoothstep (fst (foamParams u)) (fst (foamParams u) + snd (foamParams u))
                         slope in
  mkTexel4 (nx * 0.5 + 0.5) (ny * 0.5 + 0.5) (nz * 0.5 + 0.5) foam.

(** The uniforms the constructor sets for a [simW] by [simH] simulation. *)
Definition uniformsFor (simW simH : nat) (displacementScale foamThreshold foamSharpness : R)
  : uniforms :=
  mkUniforms (1 / INR simW, 1 / INR simH) displacementScale (foamThreshold, foamSharpness).

Definition compute (u : uniforms) (t : texture) : list texel4 :=
  map (fun i => main u t (i mod width t) (i / width t)) (seq 0 (width t * height t)).

End NormalFS.

(** ** Further predicates *)

Module Obs.

(** Every sample of the texture has height [c]. *)
Definition level (c : R) (t : Tex.texture) : Prop :=
  forall ix iy, Tex.hgt (Tex.texelFetch t ix iy) = c.

(** A field of uniform height [c] and zero velocity. *)
Definition uniformField (c : R) (t : Tex.texture) : Prop :=
  Tex.data t = repeat (Tex.mkTexel c 0) (Tex.width t * Tex.height t).

(** The texture holds exactly its [width * height] texels. *)
Definition fullTexture (t : Tex.texture) : Prop :=
  List.length (Tex.data t) = (Tex.width t * Tex.height t)%nat.

(** The five values held by slot [i] of the plane store. *)
Definition planeSlot (u : HeightFS.uniforms) (i : nat) : Glsl.vec2 * R * R * R * R :=
  let p := HeightFS.pw u in
  (nth i (HeightFS.pw_dir p) (0, 0), nth i (HeightFS.pw_k p) 0,
   nth i (HeightFS.pw_omega p) 0, nth i (HeightFS.pw_amp p) 0,
   nth i (HeightFS.pw_phase p) 0).

Definition planeEntry (w : CompWaterPBR.planeWave) : Glsl.vec2 * R * R * R * R :=
  (Three.toVec2 (CompWaterPBR.dir w), CompWaterPBR.k w, CompWaterPBR.omega w,
   CompWaterPBR.amp w, CompWaterPBR.phase w).

(** The plane arrays have their four slots. *)
Definition planeShaped (u : HeightFS.uniforms) : Prop :=
  let p := HeightFS.pw u in
  List.length (HeightFS.pw_dir p) = 4%nat /\ List.length (HeightFS.pw_k p) = 4%nat /\
  List.length (HeightFS.pw_omega p) = 4%nat /\ List.length (HeightFS.pw_amp p) = 4%nat /\
  List.length (HeightFS.pw_phase p) = 4%nat.

(** Sum of the absolute amplitudes of the eight wave slots. *)
Definition totalAmplitude (u : HeightFS.uniforms) : R :=
  fold_left (fun acc i => acc + Rabs (nth i (HeightFS.pw_amp (HeightFS.pw u)) 0))
            (seq 0 HeightFS.MAX_PW) 0
  + fold_left (fun acc i => acc + Rabs (nth i (HeightFS.rw_amp (HeightFS.rw u)) 0))
              (seq 0 HeightFS.MAX_RW) 0.

(** The uniforms with another viscosity. *)
Definition withViscosity (u : HeightFS.uniforms) (v : R) : HeightFS.uniforms :=
  HeightFS.mkUniforms (HeightFS.mousePos u) (HeightFS.mouseSize u) v (HeightFS.delta u)
    (HeightFS.bounds u) (HeightFS.splashStrength u) (HeightFS.baselineReturn u)
    (HeightFS.simTime u) (HeightFS.numPW u) (HeightFS.pw u) (HeightFS.numRW u)
    (HeightFS.rw u).

(** The base height the query adds the displacement to. *)
Definition baseY (s : CompWaterPBR.state) (point : Three.Vector3) : R :=
  let l := Three.worldToLocal (CompWaterPBR.mesh s) point in
  Three.y (Three.localToWorld (CompWaterPBR.mesh s)
             (Three.mkV3 (Three.x l) (Three.y l) 0)).

(** Length of a quaternion. *)
Definition qlength (q : CompBuoyancy.Quaternion) : R :=
  sqrt (CompBuoyancy.qx q * CompBuoyancy.qx q + CompBuoyancy.qy q * CompBuoyancy.qy q
        + CompBuoyancy.qz q * CompBuoyancy.qz q + CompBuoyancy.qw q * CompBuoyancy.qw q).

(** Depth of a probe of the body under the water surface. *)
Definition probeDepth (st : CompBuoyancy.state) (w : CompWaterPBR.state)
           (probe : Three.Vector3) : R :=
  let pw := CompBuoyancy.applyMatrixWorld (CompBuoyancy.object3D st) probe in
  CompWaterPBR.getHeightAtPoint w pw - Three.y pw.

(** Product of the baseline-return factors of a list of steps. *)
Definition decay (b : R) (dts : list R) : R :=
  fold_left (fun acc dt => acc * (1 - b * dt)) dts 1.

End Obs.

(** ** Further scenes *)

Module Cases.

(** A strip of three texels, and the same strip with another third texel. *)
Definition strip : Tex.texture :=
  Tex.mkTexture 3 1 [Tex.mkTexel 1 0; Tex.mkTexel 2 0; Tex.mkTexel 3 0].

Definition stripFar : Tex.texture :=
  Tex.mkTexture 3 1 [Tex.mkTexel 1 0; Tex.mkTexel 2 0; Tex.mkTexel (-3) 4].

(** A field of 8 by 8 texels at the level 2. *)
Definition level2 : Tex.texture := Tex.mkTexture 8 8 (repeat (Tex.mkTexel 2 0) 64).

(** The fresh pond, and the pond with its four plane waves, over [level2]. *)
Definition raised : CompWaterPBR.state := CompWaterPBR.set_target Scene.pond0 level2.

Definition raisedFull : CompWaterPBR.state := CompWaterPBR.set_target Scene.pondFull level2.

(** A 2 by 2 simulation on a 20 by 20 plane holding the heights 1, 3, 2, 1. *)
Definition basin : CompWaterPBR.state :=
  CompWaterPBR.set_target
    (CompWaterPBR.create
       (CompWaterPBR.mkProps (Three.mkV3 0 0 0) 20 20 2 2 None 0.35 None None 2))
    (Tex.mkTexture 2 2 [Tex.mkTexel 1 0; Tex.mkTexel 3 0; Tex.mkTexel 2 0; Tex.mkTexel 1 0]).

(** The fresh pond with one radial wave of wavelength 5. *)
Definition ringed : CompWaterPBR.state :=
  CompWaterPBR.addRadialWave Scene.pond0 (Scene.ring 5).

(** A radial wave of wavelength 5 with neither omega nor period nor
    speed. *)
Definition ringNoSource : CompWaterPBR.IRadialWaveProps :=
  CompWaterPBR.mkRadialWaveProps (Three.mkV2 0 0) (Some 5) 1 0.1 None None None None.

(** Five plane waves along X. *)
Definition fivePlanes : list CompWaterPBR.planeWaveProps :=
  [Scene.planeX 10 1; Scene.planeX 10 2; Scene.planeX 10 3; Scene.planeX 10 4;
   Scene.planeX 10 5].

(** A body at the origin with one probe one unit above the flat water of
    the fresh pond. *)
Definition kite : CompBuoyancy.state :=
  CompBuoyancy.create
    (CompBuoyancy.mkObject3D (Three.mkV3 0 0 0) (CompBuoyancy.mkQ 0 0 0 1))
    (CompBuoyancy.mkProps (Some Scene.pond0) [Three.mkV3 0 1 0]
       None None None None None).

(** The normal pass of the pond: displacement 0.35, foam threshold 0.010
    and sharpness 0.040. *)
Definition normalUniforms : NormalFS.uniforms := NormalFS.uniformsFor 8 8 0.35 0.010 0.040.

End Cases.

(** * Properties *)

(** ** Arithmetic of the built-ins *)

Lemma clamp_range (x lo hi : R) : lo <= hi -> lo <= Glsl.clamp x lo hi <= hi.
Proof.
  intros H. unfold Glsl.clamp, Rmin, Rmax.
  destruct (Rle_dec x lo); destruct (Rle_dec _ hi); lra.
Qed.

Lemma clamp_id (x lo hi : R) : lo <= x <= hi -> Glsl.clamp x lo hi = x.
Proof.
  intros H. unfold Glsl.clamp, Rmin, Rmax.
  destruct (Rle_dec x lo); destruct (Rle_dec _ hi); lra.
Qed.

Lemma clamp_above (x lo hi : R) : lo <= hi -> hi <= x -> Glsl.clamp x lo hi = hi.
Proof.
  intros H H'. unfold Glsl.clamp, Rmin, Rmax.
  destruct (Rle_dec x lo); destruct (Rle_dec _ hi); lra.
Qed.

Lemma smoothstep_range (e0 e1 x : R) : 0 <= Glsl.smoothstep e0 e1 x <= 1.
Proof.
  unfold Glsl.smoothstep.
  pose proof (clamp_range ((x - e0) / (e1 - e0)) 0 1 ltac:(lra)) as H.
  set (t := Glsl.clamp _ 0 1) in *.
  assert (H1 : 0 <= t * t) by nra.
  assert (H2 : 0 <= (1 - t) * (1 - t) * (1 + 2 * t)).
  { apply Rmult_le_pos; nra. }
  split; nra.
Qed.

Lemma smoothstep_one (e0 e1 x : R) :
  1 <= (x - e0) / (e1 - e0) -> Glsl.smoothstep e0 e1 x = 1.
Proof.
  intros H. unfold Glsl.smoothstep. rewrite clamp_above by lra. lra.
Qed.

Lemma mix_range (a b t : R) : a <= b -> 0 <= t <= 1 -> a <= Glsl.mix a b t <= b.
Proof. intros Hab Ht. unfold Glsl.mix. nra. Qed.

(** ** The pass, texel by texel *)

Lemma main_velocity_bounded (u : HeightFS.uniforms) (t : Tex.texture) (x y : nat) :
  -20 <= Tex.vel (HeightFS.main u t x y) <= 20.
Proof.
  unfold HeightFS.main. cbv zeta. cbn [Tex.vel].
  match goal with
  | |- _ <= Glsl.clamp ?v _ _ * _ * Glsl.mix _ _ (Glsl.smoothstep ?a ?b ?c) <= _ =>
      pose proof (clamp_range v (-20) 20 ltac:(lra)) as Hc;
      pose proof (mix_range 0.99 1 (Glsl.smoothstep a b c) ltac:(lra)
                    (smoothstep_range a b c)) as Hm;
      set (cv := Glsl.clamp v (-20) 20) in *;
      set (m := Glsl.mix 0.99 1 (Glsl.smoothstep a b c)) in *
  end.
  nra.
Qed.

Lemma compute_width u t : Tex.width (HeightFS.compute u t) = Tex.width t.
Proof. reflexivity. Qed.

Lemma compute_height u t : Tex.height (HeightFS.compute u t) = Tex.height t.
Proof. reflexivity. Qed.

Lemma compute_length u t :
  List.length (Tex.data (HeightFS.compute u t)) = (Tex.width t * Tex.height t)%nat.
Proof. cbn. now rewrite length_map, length_seq. Qed.

(** Velocity half of the stability bound: after the pass, every stored
    velocity lies in [-20, 20], whatever the uniforms and the old texture. *)
Lemma compute_velocity_bounded (u : HeightFS.uniforms) (t : Tex.texture) :
  Forall (fun c => -20 <= Tex.vel c <= 20) (Tex.data (HeightFS.compute u t)).
Proof.
  unfold HeightFS.compute. cbn [Tex.data].
  apply Forall_forall. intros c Hc.
  apply in_map_iff in Hc. destruct Hc as [i [<- _]].
  apply main_velocity_bounded.
Qed.

(** ** One step of the component *)

Lemma compUpdate_target (s : CompWaterPBR.state) (dt : R) :
  CompWaterPBR.target (CompWaterPBR.compUpdate s dt)
  = HeightFS.compute (Spec.stepUniforms s dt) (CompWaterPBR.target s).
Proof. reflexivity. Qed.

Lemma compUpdate_simTime (s : CompWaterPBR.state) (dt : R) :
  CompWaterPBR.simTime (CompWaterPBR.compUpdate s dt) = CompWaterPBR.simTime s + dt.
Proof. reflexivity. Qed.

Lemma compUpdate_waves (s : CompWaterPBR.state) (dt : R) :
  HeightFS.pw (CompWaterPBR.uniforms (CompWaterPBR.compUpdate s dt))
  = HeightFS.pw (CompWaterPBR.uniforms s) /\
  HeightFS.rw (CompWaterPBR.uniforms (CompWaterPBR.compUpdate s dt))
  = HeightFS.rw (CompWaterPBR.uniforms s).
Proof. split; reflexivity. Qed.

Lemma compUpdate_resets_splash (s : CompWaterPBR.state) (dt : R) :
  HeightFS.mousePos (CompWaterPBR.uniforms (CompWaterPBR.compUpdate s dt)) = (9999, 9999)
  /\ HeightFS.splashStrength (CompWaterPBR.uniforms (CompWaterPBR.compUpdate s dt)) = 0.
Proof. split; reflexivity. Qed.

Lemma splashImpulse_no_strength (u : HeightFS.uniforms) (local : Glsl.vec2) :
  HeightFS.splashStrength u = 0 -> HeightFS.splashImpulse u local = 0.
Proof. intros H. unfold HeightFS.splashImpulse. cbv zeta. rewrite H. ring. Qed.

(** ** The state at rest *)

Lemma texelFetch_atRest (t : Tex.texture) (ix iy : Z) :
  Spec.atRest t -> Tex.texelFetch t ix iy = Tex.zero.
Proof.
  intros H. unfold Tex.texelFetch. cbv zeta. rewrite H. apply nth_repeat.
Qed.

Lemma texture2D_atRest (t : Tex.texture) (uv : Glsl.vec2) :
  Spec.atRest t -> Tex.texture2D t uv = Tex.zero.
Proof. intros H. unfold Tex.texture2D. now apply texelFetch_atRest. Qed.

Lemma planeTerm_inactive u local i :
  nth i (HeightFS.pw_amp (HeightFS.pw u)) 0 = 0 -> HeightFS.planeTerm u local i = 0.
Proof.
  intros H. unfold HeightFS.planeTerm. cbv zeta. rewrite H.
  destruct (Req_dec_T 0 0); [reflexivity | congruence].
Qed.

Lemma radialTerm_inactive u local i :
  nth i (HeightFS.rw_amp (HeightFS.rw u)) 0 = 0 -> HeightFS.radialTerm u local i = 0.
Proof.
  intros H. unfold HeightFS.radialTerm. cbv zeta. rewrite H.
  destruct (Req_dec_T 0 0); [reflexivity | congruence].
Qed.

Lemma fold_left_add_zero (f : nat -> R) (l : list nat) (a : R) :
  (forall i, f i = 0) -> fold_left (fun acc i => acc + f i) l a = a.
Proof.
  intros H. revert a. induction l as [|i l IH]; intros a; cbn.
  - reflexivity.
  - rewrite IH, H. ring.
Qed.

Lemma waveForcing_inactive u local :
  Spec.noActiveWaves u -> HeightFS.waveForcing u local = 0.
Proof.
  intros [Hp Hr]. unfold HeightFS.waveForcing. cbv zeta.
  rewrite (fold_left_add_zero (HeightFS.planeTerm u local)).
  - apply fold_left_add_zero. intros i. now apply radialTerm_inactive.
  - intros i. now apply planeTerm_inactive.
Qed.

Lemma main_atRest u t x y :
  Spec.atRest t -> Spec.noActiveWaves u -> Spec.noPendingSplash u ->
  HeightFS.main u t x y = Tex.zero.
Proof.
  intros Ht Hw Hs. unfold HeightFS.main. cbv zeta.
  rewrite !(texture2D_atRest t _ Ht).
  rewrite (splashImpulse_no_strength u _ Hs), (waveForcing_inactive u _ Hw).
  cbn [Tex.hgt Tex.vel Tex.zero].
  replace (0 + 0 + 0 + 0 - 4 * 0) with 0 by ring.
  replace (0 + 0 * _ * HeightFS.delta u + 0 + 0 * HeightFS.delta u) with 0 by ring.
  rewrite (clamp_id 0) by lra.
  unfold Tex.zero. f_equal; ring.
Qed.

Lemma map_const_repeat {A B : Type} (f : A -> B) (b : B) (l : list A) :
  (forall a, f a = b) -> map f l = repeat b (List.length l).
Proof.
  intros H. induction l as [|a l IH]; cbn; [reflexivity | now rewrite H, IH].
Qed.

Lemma compute_atRest u t :
  Spec.atRest t -> Spec.noActiveWaves u -> Spec.noPendingSplash u ->
  HeightFS.compute u t = t.
Proof.
  intros Ht Hw Hs. unfold HeightFS.compute.
  rewrite (map_const_repeat _ Tex.zero).
  - rewrite length_seq. destruct t as [w h d]. cbn in *. now rewrite Ht.
  - intros i. now apply main_atRest.
Qed.

Lemma nth_compute (u : HeightFS.uniforms) (t : Tex.texture) (i : nat) :
  (i < Tex.width t * Tex.height t)%nat ->
  nth i (Tex.data (HeightFS.compute u t)) Tex.zero
  = HeightFS.main u t (i mod Tex.width t) (i / Tex.width t).
Proof.
  intros Hi. unfold HeightFS.compute. cbn [Tex.data].
  rewrite (nth_indep _ Tex.zero (HeightFS.main u t (0 mod Tex.width t) (0 / Tex.width t)))
    by now rewrite length_map, length_seq.
  rewrite (map_nth (fun i => HeightFS.main u t (i mod Tex.width t) (i / Tex.width t))).
  now rewrite seq_nth.
Qed.

(** From a flat field without waves, the new texel depends on the splash
    impulse only. *)
Lemma main_from_rest u t x y :
  Spec.atRest t -> Spec.noActiveWaves u ->
  let cell : Glsl.vec2 := (1 / INR (Tex.width t), 1 / INR (Tex.height t)) in
  let uv : Glsl.vec2 := ((INR x + 0.5) * fst cell, (INR y + 0.5) * snd cell) in
  let v := Glsl.clamp (HeightFS.splashImpulse u (HeightFS.localOf u uv)) (-20) 20
           * 0.995 in
  let border := Glsl.smoothstep 0 0.04
                  (Rmin (Rmin (fst uv) (1 - fst uv)) (Rmin (snd uv) (1 - snd uv))) in
  HeightFS.main u t x y
  = Tex.mkTexel (v * HeightFS.delta u
                 - v * HeightFS.delta u * HeightFS.baselineReturn u * HeightFS.delta u)
                (v * Glsl.mix 0.99 1 border).
Proof.
  intros Ht Hw. cbv zeta. unfold HeightFS.main. cbv zeta.
  rewrite !(texture2D_atRest t _ Ht), (waveForcing_inactive u _ Hw).
  cbn [Tex.hgt Tex.vel Tex.zero].
  match goal with
  | |- context [Glsl.clamp ?a (-20) 20] =>
      match goal with
      | |- context [Glsl.clamp (HeightFS.splashImpulse ?b ?c) (-20) 20 * 0.995 * _] =>
          replace a with (HeightFS.splashImpulse b c) by ring
      end
  end.
  f_equal; ring.
Qed.

(** ** Evaluating the splashed pond *)

Lemma pond_noWaves dt : Spec.noActiveWaves (Spec.stepUniforms Scene.pondSplashed dt).
Proof. split; intros i; cbn; destruct i as [|[|[|[|[|i]]]]]; reflexivity. Qed.

Lemma length_sub_self (a b : Glsl.vec2) :
  fst a = fst b -> snd a = snd b -> Glsl.length (Glsl.sub a b) = 0.
Proof.
  intros H1 H2. unfold Glsl.length, Glsl.sub, Glsl.dot. cbn [fst snd].
  rewrite H1, H2.
  replace ((fst b - fst b) * (fst b - fst b) + (snd b - snd b) * (snd b - snd b))
    with 0 by ring.
  apply sqrt_0.
Qed.

(** At the texel under the splash the impulse is the full strength. *)
Lemma pond_impulse dt :
  HeightFS.splashImpulse (Spec.stepUniforms Scene.pondSplashed dt)
    (HeightFS.localOf (Spec.stepUniforms Scene.pondSplashed dt)
       ((INR 4 + 0.5) * (1 / INR 8), (INR 4 + 0.5) * (1 / INR 8))) = 1000.
Proof.
  unfold HeightFS.splashImpulse, HeightFS.localOf. cbv zeta.
  cbn [Spec.stepUniforms CompWaterPBR.u_set_clock CompWaterPBR.uniforms
       Scene.pondSplashed CompWaterPBR.splash CompWaterPBR.set_uniforms
       CompWaterPBR.u_set_splash HeightFS.mousePos HeightFS.mouseSize HeightFS.bounds
       HeightFS.splashStrength Scene.pond0 CompWaterPBR.create fst snd Scene.pond
       CompWaterPBR.sizeX CompWaterPBR.sizeY].
  rewrite length_sub_self.
  - replace (-100 * (0 / 5 * (0 / 5))) with 0 by lra. rewrite exp_0. lra.
  - cbn [fst]. unfold Scene.hit. simpl INR. lra.
  - cbn [snd]. unfold Scene.hit. simpl INR. lra.
Qed.

Lemma pond_step_texel (dt : R) :
  nth 36 (Tex.data (CompWaterPBR.target (CompWaterPBR.compUpdate Scene.pondSplashed dt)))
      Tex.zero
  = Tex.mkTexel (19.9 * dt - 19.9 * dt * 0.08 * dt) 19.9.
Proof.
  rewrite compUpdate_target.
  rewrite nth_compute by (cbn; lia).
  change (36 mod _)%nat with 4%nat. change (36 / _)%nat with 4%nat.
  rewrite main_from_rest; [ | reflexivity | apply pond_noWaves ].
  cbv zeta.
  change (Tex.width (CompWaterPBR.target Scene.pondSplashed)) with 8%nat.
  change (Tex.height (CompWaterPBR.target Scene.pondSplashed)) with 8%nat.
  cbn [fst snd].
  rewrite pond_impulse.
  rewrite clamp_above by lra.
  rewrite smoothstep_one.
  - unfold Glsl.mix.
    change (HeightFS.delta (Spec.stepUniforms Scene.pondSplashed dt)) with dt.
    change (HeightFS.baselineReturn (Spec.stepUniforms Scene.pondSplashed dt)) with 0.08.
    f_equal; lra.
  - simpl INR. unfold Rmin. repeat destruct (Rle_dec _ _); lra.
Qed.

(** ** C1 *)

(** Velocity half of C1: after a step of the component every stored
    velocity lies in [-20, 20], for any [dt] and any starting state. *)
Lemma compUpdate_velocity_bounded (s : CompWaterPBR.state) (dt : R) :
  Forall (fun c => -20 <= Tex.vel c <= 20)
         (Tex.data (CompWaterPBR.target (CompWaterPBR.compUpdate s dt))).
Proof. rewrite compUpdate_target. apply compute_velocity_bounded. Qed.

(** C1, height half, at a failing input.  Claim C1 says that after one step
    every stored height lies in [-5, 5].  On the freshly built 8 by 8 pond,
    after [splash (1.25, 1.25, 5, 1000, 'local')] and one step with
    [dt = 1], texel (4, 4) stores the height 18.308: the value clamped to
    [-5, 5] is overwritten by [hC + vel * delta] before it is written out. *)
Theorem C1_height_escapes_the_clamp :
  let s := CompWaterPBR.compUpdate Scene.pondSplashed 1 in
  nth 36 (Tex.data (CompWaterPBR.target s)) Tex.zero = Tex.mkTexel 18.308 19.9 /\
  ~ Forall (fun c => -5 <= Tex.hgt c <= 5) (Tex.data (CompWaterPBR.target s)).
Proof.
  cbv zeta.
  assert (E : nth 36 (Tex.data (CompWaterPBR.target
                (CompWaterPBR.compUpdate Scene.pondSplashed 1))) Tex.zero
              = Tex.mkTexel 18.308 19.9).
  { rewrite pond_step_texel. f_equal; lra. }
  split; [exact E|].
  intros HF. rewrite Forall_forall in HF.
  specialize (HF (Tex.mkTexel 18.308 19.9)).
  assert (Hin : In (Tex.mkTexel 18.308 19.9)
                   (Tex.data (CompWaterPBR.target
                      (CompWaterPBR.compUpdate Scene.pondSplashed 1)))).
  { rewrite <- E. apply nth_In. rewrite compUpdate_target, compute_length. cbn. lia. }
  specialize (HF Hin). cbn in HF. lra.
Qed.

(** ** C2 *)

(** C2, counterexample.  Claim C2 says a step with a negative [stepDelta] is
    rejected and leaves the buffers and the clock unchanged.  On the splashed
    pond, [compUpdate (-1)] moves the clock from 0 to -1 and rewrites the
    texture. *)
Lemma C2_negative_dt_is_not_rejected :
  let s := Scene.pondSplashed in
  let s' := CompWaterPBR.compUpdate s (-1) in
  CompWaterPBR.simTime s' = -1 /\
  CompWaterPBR.simTime s' <> CompWaterPBR.simTime s /\
  CompWaterPBR.target s' <> CompWaterPBR.target s.
Proof.
  cbv zeta. repeat split.
  - rewrite compUpdate_simTime. cbn. lra.
  - rewrite compUpdate_simTime. cbn. lra.
  - intros E.
    assert (H := pond_step_texel (-1)). rewrite E in H.
    cbn in H. injection H as H1 H2. lra.
Qed.

(** The fresh pond keeps its texture under a step of any [dt]; the splashed
    pond does not. *)
Lemma pond0_step_target (dt : R) :
  CompWaterPBR.target (CompWaterPBR.compUpdate Scene.pond0 dt)
  = CompWaterPBR.target Scene.pond0.
Proof.
  rewrite compUpdate_target. apply compute_atRest.
  - reflexivity.
  - split; intros i; cbn; destruct i as [|[|[|[|[|i]]]]]; reflexivity.
  - reflexivity.
Qed.

Lemma pondSplashed_step_target (dt : R) :
  CompWaterPBR.target (CompWaterPBR.compUpdate Scene.pondSplashed dt)
  <> CompWaterPBR.target Scene.pondSplashed.
Proof.
  intros E. assert (H := pond_step_texel dt). rewrite E in H.
  cbn in H. injection H as H1 H2. lra.
Qed.

(** C2, amended.  [compUpdate] does not validate [dt]: for every [dt],
    negative ones included, the clock becomes [simTime + dt], so the call
    is not a no-op when [dt] is not 0, and the pass runs on the current
    texture with [delta = dt] and that clock.  Whether the pass changes the
    buffers depends on the state and not on the sign of [dt]: the fresh
    pond keeps its texture for every [dt], the splashed pond is rewritten
    for every [dt]. *)
Theorem compUpdate_applies_every_dt (s : CompWaterPBR.state) (dt : R) :
  CompWaterPBR.simTime (CompWaterPBR.compUpdate s dt) = CompWaterPBR.simTime s + dt /\
  (dt <> 0 ->
   CompWaterPBR.simTime (CompWaterPBR.compUpdate s dt) <> CompWaterPBR.simTime s) /\
  (dt <> 0 -> CompWaterPBR.compUpdate s dt <> s) /\
  HeightFS.delta (Spec.stepUniforms s dt) = dt /\
  HeightFS.simTime (Spec.stepUniforms s dt) = CompWaterPBR.simTime s + dt /\
  CompWaterPBR.target (CompWaterPBR.compUpdate s dt)
  = HeightFS.compute (Spec.stepUniforms s dt) (CompWaterPBR.target s) /\
  CompWaterPBR.target (CompWaterPBR.compUpdate Scene.pond0 dt)
  = CompWaterPBR.target Scene.pond0 /\
  CompWaterPBR.target (CompWaterPBR.compUpdate Scene.pondSplashed dt)
  <> CompWaterPBR.target Scene.pondSplashed.
Proof.
  split; [apply compUpdate_simTime|]. split; [|split].
  - intros Hdt. rewrite compUpdate_simTime. lra.
  - intros Hdt E. apply (f_equal CompWaterPBR.simTime) in E.
    rewrite compUpdate_simTime in E. lra.
  - split; [reflexivity|]. split; [reflexivity|]. split; [reflexivity|].
    split; [apply pond0_step_target | apply pondSplashed_step_target].
Qed.

(** A step of -1 s on the splashed pond moves the clock and rewrites the
    texture. *)
Lemma compUpdate_applies_every_dt_witness :
  CompWaterPBR.simTime (CompWaterPBR.compUpdate Scene.pondSplashed (-1))
  <> CompWaterPBR.simTime Scene.pondSplashed /\
  CompWaterPBR.target (CompWaterPBR.compUpdate Scene.pondSplashed (-1))
  <> CompWaterPBR.target Scene.pondSplashed.
Proof.
  pose proof (compUpdate_applies_every_dt Scene.pondSplashed (-1)) as H.
  destruct H as (_ & H1 & _ & _ & _ & _ & _ & H2).
  split; [apply H1; lra | exact H2].
Defined.

(** ** C3 *)

(** At the splash position the impulse is the full strength. *)
Lemma splashImpulse_centre (u : HeightFS.uniforms) :
  HeightFS.splashImpulse u (HeightFS.mousePos u) = HeightFS.splashStrength u.
Proof.
  unfold HeightFS.splashImpulse. cbv zeta.
  rewrite length_sub_self by reflexivity.
  replace (0 / HeightFS.mouseSize u * (0 / HeightFS.mouseSize u)) with 0
    by (unfold Rdiv; ring).
  replace (-100 * 0) with 0 by ring. rewrite exp_0. ring.
Qed.



(** ** C9 *)

Lemma compUpdate_keeps_rest (s : CompWaterPBR.state) (dt : R) :
  Spec.atRest (CompWaterPBR.target s) ->
  Spec.noActiveWaves (CompWaterPBR.uniforms s) ->
  Spec.noPendingSplash (CompWaterPBR.uniforms s) ->
  CompWaterPBR.target (CompWaterPBR.compUpdate s dt) = CompWaterPBR.target s /\
  Spec.noActiveWaves (CompWaterPBR.uniforms (CompWaterPBR.compUpdate s dt)) /\
  Spec.noPendingSplash (CompWaterPBR.uniforms (CompWaterPBR.compUpdate s dt)).
Proof.
  intros Ht Hw Hs. split; [|split].
  - rewrite compUpdate_target. apply compute_atRest; assumption.
  - exact Hw.
  - reflexivity.
Qed.

(** C9.  The all-zero state is a fixed point of the step: with a flat field
    at rest, no active wave source, no pending splash and a brush size
    other than 0, one step leaves the texture as it is, and so does any
    number of steps with any time deltas. *)
Theorem zero_state_is_a_fixed_point (s : CompWaterPBR.state) :
  Spec.atRest (CompWaterPBR.target s) ->
  Spec.noActiveWaves (CompWaterPBR.uniforms s) ->
  Spec.noPendingSplash (CompWaterPBR.uniforms s) ->
  HeightFS.mouseSize (CompWaterPBR.uniforms s) <> 0 ->
  (forall dt, CompWaterPBR.target (CompWaterPBR.compUpdate s dt) = CompWaterPBR.target s)
  /\ (forall dts, CompWaterPBR.target (Spec.steps s dts) = CompWaterPBR.target s)
  /\ (forall dts, Spec.atRest (CompWaterPBR.target (Spec.steps s dts))).
Proof.
  intros Ht Hw Hs _.
  assert (A : forall dts, CompWaterPBR.target (Spec.steps s dts) = CompWaterPBR.target s).
  { intros dts. revert s Ht Hw Hs. induction dts as [|dt dts IH]; intros s Ht Hw Hs.
    - reflexivity.
    - destruct (compUpdate_keeps_rest s dt Ht Hw Hs) as [E [Hw' Hs']].
      cbn. unfold Spec.steps in IH. rewrite IH; [exact E | now rewrite E | exact Hw' | exact Hs']. }
  split; [|split].
  - intros dt. now apply compUpdate_keeps_rest.
  - exact A.
  - intros dts. now rewrite A.
Qed.

(** Scenario A: the 8 by 8 pond, sixty steps of 1/60 s, stays flat. *)
Lemma zero_state_witness :
  CompWaterPBR.target (Spec.steps Scene.pond0 (repeat (1 / 60) 60)) = Tex.flat 8 8.
Proof.
  refine (proj1 (proj2 (zero_state_is_a_fixed_point Scene.pond0 _ _ _ _)) _).
  - reflexivity.
  - split; intros i; cbn; destruct i as [|[|[|[|[|i]]]]]; reflexivity.
  - reflexivity.
  - cbn. lra.
Defined.

(** ** The wave stores *)

Lemma length_set_nth {A} (i : nat) (v : A) (l : list A) :
  List.length (Js.set_nth i v l) = List.length l.
Proof.
  revert i. induction l as [|a l IH]; intros [|i]; cbn; try reflexivity.
  now rewrite IH.
Qed.

Lemma nth_set_nth_same {A} (i : nat) (v d : A) (l : list A) :
  (i < List.length l)%nat -> nth i (Js.set_nth i v l) d = v.
Proof.
  revert i. induction l as [|a l IH]; intros [|i] H; cbn in *; try lia.
  - reflexivity.
  - apply IH. lia.
Qed.

Lemma nth_set_nth_other {A} (i j : nat) (v d : A) (l : list A) :
  i <> j -> nth j (Js.set_nth i v l) d = nth j l d.
Proof.
  revert i j. induction l as [|a l IH]; intros [|i] [|j] H; cbn; try reflexivity.
  - congruence.
  - apply IH. congruence.
Qed.


Lemma addRadialWave_slot (s : CompWaterPBR.state) (p : CompWaterPBR.IRadialWaveProps) :
  Spec.radialShaped (CompWaterPBR.uniforms s) -> CompWaterPBR._MAX_RW s = 4%nat ->
  let s' := CompWaterPBR.addRadialWave s p in
  let i := (CompWaterPBR._rwWrite s mod 4)%nat in
  Spec.radialSlot (CompWaterPBR.uniforms s') i = Spec.radialEntry s p /\
  (forall j, j <> i ->
     Spec.radialSlot (CompWaterPBR.uniforms s') j
     = Spec.radialSlot (CompWaterPBR.uniforms s) j) /\
  CompWaterPBR._rwWrite s' = (CompWaterPBR._rwWrite s + 1)%nat /\
  Spec.radialShaped (CompWaterPBR.uniforms s') /\
  CompWaterPBR._MAX_RW s' = 4%nat /\
  CompWaterPBR.props s' = CompWaterPBR.props s.
Proof.
  intros (H1 & H2 & H3 & H4 & H5 & H6) HM. cbv zeta.
  assert (Hi : (CompWaterPBR._rwWrite s mod 4 < 4)%nat) by (apply Nat.mod_upper_bound; lia).
  unfold CompWaterPBR.addRadialWave. cbv zeta.
  cbn [CompWaterPBR.set_rwWrite CompWaterPBR._rwWrite CompWaterPBR._MAX_RW
       CompWaterPBR.uniforms CompWaterPBR.set_uniforms CompWaterPBR.props].
  rewrite HM.
  split; [|split; [|split; [|split; [|split]]]].
  - unfold Spec.radialSlot, Spec.radialEntry. cbv zeta.
    cbn [HeightFS.rw CompWaterPBR.u_set_rw HeightFS.rw_center HeightFS.rw_k
         HeightFS.rw_omega HeightFS.rw_amp HeightFS.rw_decay HeightFS.rw_phase].
    rewrite !nth_set_nth_same by lia. reflexivity.
  - intros j Hj. unfold Spec.radialSlot. cbv zeta.
    cbn [HeightFS.rw CompWaterPBR.u_set_rw HeightFS.rw_center HeightFS.rw_k
         HeightFS.rw_omega HeightFS.rw_amp HeightFS.rw_decay HeightFS.rw_phase].
    rewrite !nth_set_nth_other by congruence. reflexivity.
  - reflexivity.
  - unfold Spec.radialShaped. cbv zeta.
    cbn [HeightFS.rw CompWaterPBR.u_set_rw HeightFS.rw_center HeightFS.rw_k
         HeightFS.rw_omega HeightFS.rw_amp HeightFS.rw_decay HeightFS.rw_phase].
    rewrite !length_set_nth. repeat split; assumption.
  - reflexivity.
  - reflexivity.
Qed.








Lemma pond0_radialShaped : Spec.radialShaped (CompWaterPBR.uniforms Scene.pond0).
Proof. repeat split. Qed.



(** ** C4 *)




(** ** C5 *)

(** The radial path gates a degenerate wave: with [k = 0], or with a
    resolved omega that is NaN or not positive, the stored amplitude is 0
    and the slot adds no forcing. *)
Lemma gatedAmplitude_bad (k : R) (om : option R) (a : R) :
  k = 0 \/ om = None \/ (exists v, om = Some v /\ v <= 0) ->
  CompWaterPBR.gatedAmplitude k om a = 0.
Proof.
  intros H. unfold CompWaterPBR.gatedAmplitude, Js.eqb, Js.lebN, Js.leb, Js.isFiniteN,
              Js.isFiniteNum.
  destruct (Req_dec_T k 0); [reflexivity|].
  destruct om as [v|]; [|reflexivity].
  destruct (Rle_dec v 0); [reflexivity|].
  destruct H as [H | [H | (w & E & H)]]; [contradiction | discriminate |].
  injection E as <-. contradiction.
Qed.

Lemma gatedAmplitude_good (k v a : R) :
  k <> 0 -> 0 < v -> CompWaterPBR.gatedAmplitude k (Some v) a = a.
Proof.
  intros Hk Hv. unfold CompWaterPBR.gatedAmplitude, Js.eqb, Js.lebN, Js.leb, Js.isFiniteN,
                  Js.isFiniteNum.
  destruct (Req_dec_T k 0); [contradiction|].
  destruct (Rle_dec v 0); [lra|]. reflexivity.
Qed.

Lemma addRadialWave_gates_degenerate (s : CompWaterPBR.state)
      (p : CompWaterPBR.IRadialWaveProps) (local : Glsl.vec2) :
  Spec.radialShaped (CompWaterPBR.uniforms s) -> CompWaterPBR._MAX_RW s = 4%nat ->
  CompWaterPBR.waveNumber (CompWaterPBR.rp_wavelength p) = 0 ->
  let s' := CompWaterPBR.addRadialWave s p in
  let i := (CompWaterPBR._rwWrite s mod 4)%nat in
  nth i (HeightFS.rw_amp (HeightFS.rw (CompWaterPBR.uniforms s'))) 0 = 0 /\
  HeightFS.radialTerm (CompWaterPBR.uniforms s') local i = 0.
Proof.
  intros Hs HM Hk. cbv zeta.
  destruct (addRadialWave_slot s p Hs HM) as (E & _).
  assert (Ea := f_equal (fun t => snd (fst (fst t))) E).
  unfold Spec.radialSlot, Spec.radialEntry in Ea. cbv zeta in Ea.
  cbn [fst snd] in Ea.
  rewrite gatedAmplitude_bad in Ea by (left; exact Hk).
  split; [exact Ea|]. now apply radialTerm_inactive.
Qed.

Lemma waveNumber_nonneg (l : option R) : 0 <= CompWaterPBR.waveNumber l.
Proof.
  unfold CompWaterPBR.waveNumber, Js.Math_PI. destruct l as [l|]; [|lra].
  destruct (Rlt_dec 0 l); [|lra].
  apply Rlt_le, Rdiv_lt_0_compat; [|assumption]. pose proof PI_RGT_0. lra.
Qed.

(** C5, at a failing input.  Claim C5 says a wave whose [k] is 0 is stored
    with amplitude 0, plane variant included.  [addPlaneWave] with
    wavelength 0, amplitude 1 and phase PI/2 stores [k = 0] with amplitude 1,
    and the slot forces every texel by 1. *)
Theorem C5_plane_wave_with_k_zero_stays_active :
  let a := CompWaterPBR.mkPlaneWaveProps (Three.mkV2 1 0) 0 1 2 (Some (PI / 2)) None in
  let s := CompWaterPBR.addPlaneWave Scene.pond0 a in
  nth 0 (HeightFS.pw_k (HeightFS.pw (CompWaterPBR.uniforms s))) 0 = 0 /\
  nth 0 (HeightFS.pw_amp (HeightFS.pw (CompWaterPBR.uniforms s))) 0 = 1 /\
  forall (dt : R) (local : Glsl.vec2),
    HeightFS.planeTerm (Spec.stepUniforms s dt) local 0 = 1.
Proof.
  cbv zeta.
  set (s := CompWaterPBR.addPlaneWave Scene.pond0 _).
  assert (Ek : nth 0 (HeightFS.pw_k (HeightFS.pw (CompWaterPBR.uniforms s))) 0 = 0).
  { cbn. destruct (Rlt_dec 0 0); [lra | reflexivity]. }
  assert (Ea : nth 0 (HeightFS.pw_amp (HeightFS.pw (CompWaterPBR.uniforms s))) 0 = 1)
    by reflexivity.
  assert (Eo : nth 0 (HeightFS.pw_omega (HeightFS.pw (CompWaterPBR.uniforms s))) 0 = 0).
  { cbn. destruct (Rlt_dec 0 0); [lra|]. destruct (Req_dec_T 2 0); [lra|].
    unfold Js.Math_abs. rewrite Rmult_0_l. apply Rabs_R0. }
  assert (Ep : nth 0 (HeightFS.pw_phase (HeightFS.pw (CompWaterPBR.uniforms s))) 0 = PI / 2).
  { cbn. destruct (Req_dec_T (PI / 2) 0) as [E|]; [|reflexivity].
    pose proof PI_RGT_0. lra. }
  split; [exact Ek|]. split; [exact Ea|].
  intros dt local. unfold HeightFS.planeTerm. cbv zeta.
  change (HeightFS.pw (Spec.stepUniforms s dt)) with (HeightFS.pw (CompWaterPBR.uniforms s)).
  rewrite Ek, Ea, Eo, Ep.
  destruct (Req_dec_T 1 0); [lra|].
  replace (0 * _ - 0 * _ + PI / 2) with (PI / 2) by ring.
  rewrite sin_PI2. ring.
Qed.

(** ** C6 *)

(** The last return of [_calcOmega]: NaN for a positive [k], [MIN_OMEGA]
    otherwise. *)
Lemma calcOmega_fallback (g : option R) (k : R) :
  Js.maxN (if Rlt_dec 0 k
           then Js.sqrtN (Js.maxN (Some 0) (Js.mulN (Js.mulN None g) (Some k)))
           else Some 0) (Some 0.5)
  = if Js.ltb 0 k then None else Some 0.5.
Proof.
  unfold Js.ltb. destruct (Rlt_dec 0 k); cbn [Js.mulN Js.maxN Js.sqrtN].
  - reflexivity.
  - unfold Js.Math_max. rewrite Rmax_right by lra. reflexivity.
Qed.

Lemma calcOmega_resolved (s : CompWaterPBR.state) (k : R)
      (speed omega periodSec : option R) :
  CompWaterPBR._calcOmega s k speed omega periodSec
  = Spec.omegaResolved k speed omega periodSec.
Proof.
  unfold CompWaterPBR._calcOmega, CompWaterPBR.gpu_width, CompWaterPBR.MIN_OMEGA.
  cbv zeta. rewrite calcOmega_fallback.
  unfold Spec.omegaResolved, Spec.finitePositive, Spec.finiteNonzero, Spec.value,
    Js.ltb, Js.eqb, Js.Math_PI, Js.Math_abs.
  destruct omega as [w|]; [destruct (Rlt_dec 0 w); [reflexivity|]|];
  (destruct periodSec as [T|]; [destruct (Rlt_dec 0 T); [reflexivity|]|]);
  (destruct speed as [v|]; [destruct (Req_dec_T v 0); reflexivity|]); reflexivity.
Qed.










(** ** C7 *)

Lemma rotateX_inverse (a : R) (v : Three.Vector3) :
  Three.rotateX (- a) (Three.rotateX a v) = v.
Proof.
  destruct v as [vx vy vz]. unfold Three.rotateX. cbn [Three.x Three.y Three.z].
  rewrite cos_neg, sin_neg.
  pose proof (sin2_cos2 a) as H. unfold Rsqr in H.
  f_equal.
  - replace (cos a * (cos a * vy - sin a * vz) - - sin a * (sin a * vy + cos a * vz))
      with (vy * (sin a * sin a + cos a * cos a)) by ring.
    rewrite H. ring.
  - replace (- sin a * (cos a * vy - sin a * vz) + cos a * (sin a * vy + cos a * vz))
      with (vz * (sin a * sin a + cos a * cos a)) by ring.
    rewrite H. ring.
Qed.

Lemma worldToLocal_localToWorld (m : Three.Mesh) (v : Three.Vector3) :
  Three.worldToLocal m (Three.localToWorld m v) = v.
Proof.
  unfold Three.worldToLocal, Three.localToWorld.
  rewrite <- (rotateX_inverse (Three.rotationX m) v) at 2. f_equal.
  destruct (Three.rotateX (Three.rotationX m) v) as [a b c].
  destruct (Three.position m) as [p q r].
  unfold Three.sub, Three.add. cbn [Three.x Three.y Three.z]. f_equal; ring.
Qed.

Lemma Zfloor_INR (n : nat) : Zfloor (INR n) = Z.of_nat n.
Proof. rewrite INR_IZR_INZ. apply ZfloorZ. Qed.

(** The clamped, scaled coordinate of a node is its index. *)
Lemma node_coordinate (i n : nat) (size inv : R) :
  size <> 0 -> inv = (if Req_dec_T size 0 then 0 else 1 / size) ->
  (2 <= n)%nat -> (i < n)%nat ->
  Js.Math_min (Js.Math_max ((INR i / (INR n - 1) - 0.5) * size * inv + 0.5) 0) 1
  * (INR n - 1) = INR i.
Proof.
  intros Hs Hinv Hn Hi.
  destruct (Req_dec_T size 0) as [|_]; [contradiction|]. subst inv.
  assert (Hn' : 1 <= INR n - 1).
  { apply le_INR in Hn. simpl INR in Hn. lra. }
  assert (Hi' : 0 <= INR i <= INR n - 1).
  { split; [apply pos_INR|].
    assert (Hi2 : (S i <= n)%nat) by lia.
    apply le_INR in Hi2. rewrite S_INR in Hi2. lra. }
  replace ((INR i / (INR n - 1) - 0.5) * size * (1 / size) + 0.5)
    with (INR i / (INR n - 1)) by (field; lra).
  assert (Hq : 0 <= INR i / (INR n - 1) <= 1).
  { assert (Hinv : 0 < / (INR n - 1)) by (apply Rinv_0_lt_compat; lra).
    assert (Hone : (INR n - 1) * / (INR n - 1) = 1) by (apply Rinv_r; lra).
    unfold Rdiv. split; nra. }
  unfold Js.Math_min, Js.Math_max.
  rewrite Rmax_left by lra. rewrite Rmin_left by lra. field. lra.
Qed.

Lemma read_first (t : Tex.texture) (x0 y0 : Z) (w h : nat) :
  (1 <= w)%nat -> (1 <= h)%nat ->
  nth 0 (CompWaterPBR.readRenderTargetPixels t x0 y0 w h) 0
  = Tex.hgt (nth (Z.to_nat (y0 * Z.of_nat (Tex.width t) + x0)) (Tex.data t) Tex.zero).
Proof.
  intros Hw Hh. destruct w as [|w]; [lia|]. destruct h as [|h]; [lia|].
  unfold CompWaterPBR.readRenderTargetPixels. cbn [seq flat_map app nth].
  now rewrite !Z.add_0_r.
Qed.

Lemma getHeightAtPoint_at_node (s : CompWaterPBR.state) (i j : nat) :
  Spec.wellFormed s ->
  CompWaterPBR.sizeX (CompWaterPBR.props s) <> 0 ->
  CompWaterPBR.sizeY (CompWaterPBR.props s) <> 0 ->
  (2 <= CompWaterPBR._simWidth s)%nat -> (2 <= CompWaterPBR._simHeight s)%nat ->
  (i < CompWaterPBR._simWidth s)%nat -> (j < CompWaterPBR._simHeight s)%nat ->
  CompWaterPBR.getHeightAtPoint s (Spec.nodeWorld s i j)
  = Three.y (Spec.nodeWorld s i j)
    + Spec.storedHeight (CompWaterPBR.target s) i j
      * CompWaterPBR.displacementScale (CompWaterPBR.props s)
      * CompWaterPBR._normalY s.
Proof.
  intros (HW & HH & HiX & HiY) HsX HsY H2W H2H Hi Hj.
  assert (EL : Three.worldToLocal (CompWaterPBR.mesh s) (Spec.nodeWorld s i j)
               = Spec.nodeLocal s i j) by apply worldToLocal_localToWorld.
  assert (EB : Three.mkV3 (Three.x (Spec.nodeLocal s i j))
                          (Three.y (Spec.nodeLocal s i j)) 0
               = Spec.nodeLocal s i j) by reflexivity.
  assert (EX := node_coordinate i _ _ _ HsX HiX H2W Hi).
  assert (EY := node_coordinate j _ _ _ HsY HiY H2H Hj).
  set (P := Spec.nodeWorld s i j) in *.
  unfold CompWaterPBR.getHeightAtPoint. cbv zeta.
  destruct (Nat.eqb_spec (CompWaterPBR._simWidth s) 0); [lia|].
  destruct (Nat.eqb_spec (CompWaterPBR._simHeight s) 0); [lia|].
  cbn [orb].
  rewrite !EL, !EB. fold P.
  change (Three.x (Spec.nodeLocal s i j))
    with ((INR i / (INR (CompWaterPBR._simWidth s) - 1) - 0.5)
          * CompWaterPBR.sizeX (CompWaterPBR.props s)).
  change (Three.y (Spec.nodeLocal s i j))
    with ((INR j / (INR (CompWaterPBR._simHeight s) - 1) - 0.5)
          * CompWaterPBR.sizeY (CompWaterPBR.props s)).
  rewrite !EX, !EY.
  unfold Js.Math_floor. rewrite !Zfloor_INR.
  set (rw := if (Z.of_nat i <? _)%Z then 2%nat else 1%nat).
  set (rh := if (Z.of_nat j <? _)%Z then 2%nat else 1%nat).
  assert (Hb : forall b : bool, (1 <= (if b then 2 else 1))%nat) by (intros []; lia).
  assert (Hrw : (1 <= rw)%nat) by apply Hb.
  assert (Hrh : (1 <= rh)%nat) by apply Hb.
  assert (Tx : (if (1 <? rw)%nat then INR i - IZR (Z.of_nat i) else 0) = 0).
  { destruct (1 <? rw)%nat; [rewrite INR_IZR_INZ; ring | reflexivity]. }
  assert (Ty : (if (1 <? rh)%nat then INR j - IZR (Z.of_nat j) else 0) = 0).
  { destruct (1 <? rh)%nat; [rewrite INR_IZR_INZ; ring | reflexivity]. }
  rewrite Tx, Ty, (read_first _ _ _ _ _ Hrw Hrh).
  unfold Js.isFiniteNum. cbn [negb].
  unfold Spec.storedHeight.
  rewrite <- Nat2Z.inj_mul, <- Nat2Z.inj_add, Nat2Z.id.
  subst P. unfold Spec.nodeWorld. ring.
Qed.

Lemma wellFormed_create p : Spec.wellFormed (CompWaterPBR.create p).
Proof. repeat split. Qed.

Lemma wellFormed_compUpdate s dt :
  Spec.wellFormed s -> Spec.wellFormed (CompWaterPBR.compUpdate s dt).
Proof. intros H. exact H. Qed.

Lemma wellFormed_splash s x z size strength coords :
  Spec.wellFormed s -> Spec.wellFormed (CompWaterPBR.splash s x z size strength coords).
Proof. intros H. exact H. Qed.

Lemma cos_neg_PI2 : cos (- PI / 2) = 0.
Proof. replace (- PI / 2) with (- (PI / 2)) by lra. rewrite cos_neg. apply cos_PI2. Qed.

Lemma sin_neg_PI2 : sin (- PI / 2) = -1.
Proof. replace (- PI / 2) with (- (PI / 2)) by lra. rewrite sin_neg, sin_PI2. reflexivity. Qed.

Lemma default_normalY p :
  CompWaterPBR.p_rotationX p = None -> CompWaterPBR._normalY (CompWaterPBR.create p) = 1.
Proof.
  intros H. unfold CompWaterPBR.create. cbv zeta. rewrite H.
  cbn [CompWaterPBR._normalY].
  unfold Three.normalize, Three.divideScalar, Three.multiplyScalar, Three.rotateX,
    Three.length, Js.orElse.
  cbn [Three.x Three.y Three.z].
  rewrite cos_neg_PI2, sin_neg_PI2.
  replace (0 * 0 + (0 * 0 - -1 * 1) * (0 * 0 - -1 * 1) + (-1 * 0 + 0 * 1) * (-1 * 0 + 0 * 1))
    with 1 by ring.
  rewrite sqrt_1. destruct (Req_dec_T 1 0); lra.
Qed.

Lemma default_baseY p v :
  CompWaterPBR.p_rotationX p = None -> Three.z v = 0 ->
  Three.y (Three.localToWorld (CompWaterPBR.mesh (CompWaterPBR.create p)) v)
  = Three.y (CompWaterPBR.p_position p).
Proof.
  intros H Hz. unfold CompWaterPBR.create. cbv zeta. rewrite H.
  cbn [CompWaterPBR.mesh]. unfold Three.localToWorld, Three.rotateX, Three.add.
  cbn [Three.x Three.y Three.z Three.position Three.rotationX].
  rewrite cos_neg_PI2, sin_neg_PI2, Hz. ring.
Qed.

Lemma pondStepped_query :
  Spec.storedHeight (CompWaterPBR.target Scene.pondStepped) 4 4 = 18.308 /\
  CompWaterPBR.getHeightAtPoint Scene.pondStepped (Spec.nodeWorld Scene.pondStepped 4 4)
  = 6.4078.
Proof.
  assert (E : Spec.storedHeight (CompWaterPBR.target Scene.pondStepped) 4 4 = 18.308).
  { unfold Spec.storedHeight.
    change (4 * Tex.width (CompWaterPBR.target Scene.pondStepped) + 4)%nat with 36%nat.
    unfold Scene.pondStepped. rewrite pond_step_texel. cbn [Tex.hgt]. lra. }
  split; [exact E|].
  rewrite getHeightAtPoint_at_node.
  - rewrite E.
    change (CompWaterPBR._normalY Scene.pondStepped)
      with (CompWaterPBR._normalY (CompWaterPBR.create Scene.pond)).
    rewrite default_normalY by reflexivity.
    unfold Spec.nodeWorld.
    change (CompWaterPBR.mesh Scene.pondStepped)
      with (CompWaterPBR.mesh (CompWaterPBR.create Scene.pond)).
    rewrite default_baseY by reflexivity.
    cbn. lra.
  - apply wellFormed_compUpdate, wellFormed_splash, wellFormed_create.
  - cbn. lra.
  - cbn. lra.
  - cbn. lia.
  - cbn. lia.
  - cbn. lia.
  - cbn. lia.
Qed.

(** C7, counterexample.  Claim C7 says the query at a node's world position
    returns that node's raw stored height.  On the stepped pond, node (4, 4)
    stores 18.308 and the query at its world position returns 6.4078, the
    stored height times the displacement scale 0.35. *)
Lemma C7_query_at_node_is_not_the_raw_height :
  Spec.storedHeight (CompWaterPBR.target Scene.pondStepped) 4 4 = 18.308 /\
  CompWaterPBR.getHeightAtPoint Scene.pondStepped (Spec.nodeWorld Scene.pondStepped 4 4)
  = 6.4078 /\
  CompWaterPBR.getHeightAtPoint Scene.pondStepped (Spec.nodeWorld Scene.pondStepped 4 4)
  <> Spec.storedHeight (CompWaterPBR.target Scene.pondStepped) 4 4.
Proof.
  destruct pondStepped_query as [E1 E2].
  split; [exact E1|]. split; [exact E2|]. rewrite E1, E2. lra.
Qed.

(** C7, amended.  At the world position of a grid node the bilinear
    interpolation is exact: the query returns the node's world-space resting
    height plus the node's raw stored height times the displacement scale
    times the Y component of the plane's normal. *)
Theorem node_query_exact (s : CompWaterPBR.state) (i j : nat) :
  Spec.wellFormed s ->
  CompWaterPBR.sizeX (CompWaterPBR.props s) <> 0 ->
  CompWaterPBR.sizeY (CompWaterPBR.props s) <> 0 ->
  (2 <= CompWaterPBR._simWidth s)%nat -> (2 <= CompWaterPBR._simHeight s)%nat ->
  (i < CompWaterPBR._simWidth s)%nat -> (j < CompWaterPBR._simHeight s)%nat ->
  CompWaterPBR.getHeightAtPoint s (Spec.nodeWorld s i j)
  = Three.y (Spec.nodeWorld s i j)
    + Spec.storedHeight (CompWaterPBR.target s) i j
      * CompWaterPBR.displacementScale (CompWaterPBR.props s)
      * CompWaterPBR._normalY s.
Proof. exact (getHeightAtPoint_at_node s i j). Qed.

Lemma node_query_exact_witness :
  CompWaterPBR.getHeightAtPoint Scene.pondStepped (Spec.nodeWorld Scene.pondStepped 4 4)
  = Three.y (Spec.nodeWorld Scene.pondStepped 4 4)
    + Spec.storedHeight (CompWaterPBR.target Scene.pondStepped) 4 4
      * CompWaterPBR.displacementScale (CompWaterPBR.props Scene.pondStepped)
      * CompWaterPBR._normalY Scene.pondStepped.
Proof.
  apply (node_query_exact Scene.pondStepped 4 4).
  - apply wellFormed_compUpdate, wellFormed_splash, wellFormed_create.
  - cbn. lra.
  - cbn. lra.
  - cbn. lia.
  - cbn. lia.
  - cbn. lia.
  - cbn. lia.
Defined.

(** ** C8 *)

(** The impulse of the shader is the kernel at the normalised radius. *)
Lemma splashImpulse_kernel (u : HeightFS.uniforms) (local : Glsl.vec2) :
  HeightFS.splashImpulse u local
  = SplashKernel.kernel (HeightFS.splashStrength u)
      (Glsl.length (Glsl.sub local (HeightFS.mousePos u)) / HeightFS.mouseSize u).
Proof. reflexivity. Qed.

Lemma primitive_derivative (S x : R) :
  derivable_pt_lim (SplashKernel.primitive S) x (SplashKernel.radialIntegrand S x).
Proof.
  unfold SplashKernel.primitive, SplashKernel.radialIntegrand, SplashKernel.kernel.
  cbv zeta.
  assert (D1 : derivable_pt_lim (fun r => r * r / 4 - 1 / 400) x (x / 2)).
  { apply (derivable_pt_lim_ext ((id * id) * fct_cte (/ 4) - fct_cte (1 / 400))%F).
    - intros z. unfold mult_fct, minus_fct, fct_cte, id. field.
    - replace (x / 2) with ((1 * id x + id x * 1) * fct_cte (/ 4) x + (id * id)%F x * 0 - 0)
        by (unfold mult_fct, fct_cte, id; field).
      apply derivable_pt_lim_minus; [|apply derivable_pt_lim_const].
      apply derivable_pt_lim_mult; [|apply derivable_pt_lim_const].
      apply derivable_pt_lim_mult; apply derivable_pt_lim_id. }
  assert (D2 : derivable_pt_lim (fun r => - 100 * (r * r)) x (- 200 * x)).
  { apply (derivable_pt_lim_ext (fct_cte (- 100) * (id * id))%F).
    - intros z. unfold mult_fct, fct_cte, id. ring.
    - replace (- 200 * x) with (0 * (id * id)%F x + fct_cte (- 100) x * (1 * id x + id x * 1))
        by (unfold mult_fct, fct_cte, id; ring).
      apply derivable_pt_lim_mult; [apply derivable_pt_lim_const|].
      apply derivable_pt_lim_mult; apply derivable_pt_lim_id. }
  assert (D3 : derivable_pt_lim (fun r => exp (- 100 * (r * r))) x
                 (exp (- 100 * (x * x)) * (- 200 * x))).
  { apply (derivable_pt_lim_comp (fun r => - 100 * (r * r)) exp); [exact D2|].
    apply derivable_pt_lim_exp. }
  set (A := fun r : R => r * r / 4 - 1 / 400) in *.
  set (B := fun r : R => exp (- 100 * (r * r))) in *.
  apply (derivable_pt_lim_ext ((A * B) * fct_cte S)%F).
  - intros z. reflexivity.
  - replace ((1 - 50 * (x * x)) * exp (-100 * (x * x)) * S * x)
      with ((x / 2 * B x + A x * (exp (- 100 * (x * x)) * (- 200 * x))) * fct_cte S x
            + (A * B)%F x * 0)
      by (unfold mult_fct, fct_cte, A, B; field).
    apply derivable_pt_lim_mult; [|apply derivable_pt_lim_const].
    apply derivable_pt_lim_mult; assumption.
Qed.

Lemma primitive_derivable (S : R) : derivable (SplashKernel.primitive S).
Proof.
  intros x. exists (SplashKernel.radialIntegrand S x). apply primitive_derivative.
Qed.

Lemma primitive_derive (S x : R) :
  derive (SplashKernel.primitive S) (primitive_derivable S) x
  = SplashKernel.radialIntegrand S x.
Proof. unfold derive. apply derive_pt_eq_0, primitive_derivative. Qed.

Lemma radialIntegrand_continuous (S : R) : continuity (SplashKernel.radialIntegrand S).
Proof.
  unfold SplashKernel.radialIntegrand, SplashKernel.kernel. cbv zeta. reg.
Qed.

Lemma primitive_derive_continuous (S : R) :
  continuity (derive (SplashKernel.primitive S) (primitive_derivable S)).
Proof.
  intros x.
  apply (continuity_pt_locally_ext (SplashKernel.radialIntegrand S) _ 1 x); [lra| |].
  - intros y _. symmetry. apply primitive_derive.
  - apply radialIntegrand_continuous.
Qed.

(** The radial integral of the kernel, by the fundamental theorem. *)
Lemma radial_integral (S a b : R)
      (pr : Riemann_integrable (SplashKernel.radialIntegrand S) a b) :
  a <= b ->
  RiemannInt pr = SplashKernel.primitive S b - SplashKernel.primitive S a.
Proof.
  intros Hab.
  set (F := mkC1 (primitive_derive_continuous S)).
  rewrite (RiemannInt_P18 pr (RiemannInt_P32 F a b) Hab).
  - apply (FTC_Riemann F).
  - intros x _. symmetry. apply primitive_derive.
Qed.

Lemma exp_m2_quarter : exp (- 2) < 1 / 4.
Proof.
  assert (H1 : 2 < exp 1) by (pose proof (exp_ineq1 1 ltac:(lra)); lra).
  assert (H2 : exp 2 = exp 1 * exp 1) by (rewrite <- exp_plus; f_equal; lra).
  assert (H4 : 4 < exp 2) by nra.
  replace (-2) with (- (2)) by lra.
  rewrite exp_Ropp. unfold Rdiv. rewrite Rmult_1_l.
  apply Rinv_lt_contravar; lra.
Qed.

Lemma PI_gt_3 : 3 < PI.
Proof. pose proof PI2_3_2. lra. Qed.

(** The positive core [0, sqrt (1/50)] and the negative ring
    [sqrt (1/50), 1] of the kernel: the ring cancels less than a quarter of
    the core. *)
Lemma kernel_core_and_ring (S : R)
      (core : Riemann_integrable (SplashKernel.radialIntegrand S) 0 (sqrt (1 / 50)))
      (ring : Riemann_integrable (SplashKernel.radialIntegrand S) (sqrt (1 / 50)) 1) :
  0 < S ->
  RiemannInt core = S / 400 * (1 + exp (- 2)) /\
  RiemannInt ring = - (S / 400) * (exp (- 2) - 99 * exp (- 100)) /\
  - RiemannInt ring < RiemannInt core / 4.
Proof.
  intros HS.
  assert (Hr : sqrt (1 / 50) * sqrt (1 / 50) = 1 / 50) by (apply sqrt_sqrt; lra).
  assert (H0 : 0 <= sqrt (1 / 50)) by apply sqrt_pos.
  assert (H1 : sqrt (1 / 50) <= 1).
  { apply Rle_trans with (sqrt 1); [apply sqrt_le_1_alt; lra | rewrite sqrt_1; lra]. }
  assert (Ec : RiemannInt core = S / 400 * (1 + exp (- 2))).
  { rewrite radial_integral by exact H0. unfold SplashKernel.primitive.
    rewrite Hr. replace (- 100 * (1 / 50)) with (- 2) by lra.
    replace (- 100 * (0 * 0)) with 0 by lra. rewrite exp_0. field. }
  assert (Er : RiemannInt ring = - (S / 400) * (exp (- 2) - 99 * exp (- 100))).
  { rewrite radial_integral by exact H1. unfold SplashKernel.primitive.
    rewrite Hr. replace (- 100 * (1 / 50)) with (- 2) by lra.
    replace (- 100 * (1 * 1)) with (- 100) by lra. field. }
  split; [exact Ec|]. split; [exact Er|].
  rewrite Ec, Er.
  pose proof exp_m2_quarter. pose proof (exp_pos (- 2)). pose proof (exp_pos (- 100)).
  nra.
Qed.

(** Over every disc whose radius is at least a tenth of the splash radius
    the net impulse is at least [PI / 200 * strength * radius ^ 2]. *)
Lemma net_impulse_lower_bound (strength radius rho : R)
      (pr : Riemann_integrable (SplashKernel.radialIntegrand strength) 0 rho) :
  0 <= strength -> 1 / 10 <= rho ->
  PI / 200 * strength * (radius * radius)
  <= SplashKernel.netImpulse strength radius rho pr.
Proof.
  intros HS Hrho. unfold SplashKernel.netImpulse.
  rewrite radial_integral by lra. unfold SplashKernel.primitive.
  replace (- 100 * (0 * 0)) with 0 by lra. rewrite exp_0.
  pose proof PI_RGT_0 as Hpi. pose proof (exp_pos (- 100 * (rho * rho))) as He.
  assert (Hq : 0 <= rho * rho / 4 - 1 / 400) by nra.
  assert (Hr : 0 <= radius * radius) by nra.
  assert (H1 : 0 <= (rho * rho / 4 - 1 / 400) * exp (- 100 * (rho * rho)) * strength).
  { apply Rmult_le_pos; [apply Rmult_le_pos|]; lra. }
  assert (H2 : 0 <= 2 * PI * (radius * radius)).
  { apply Rmult_le_pos; lra. }
  replace (PI / 200 * strength * (radius * radius))
    with (2 * PI * (radius * radius) * (strength / 400)) by field.
  apply Rmult_le_compat_l; [exact H2 | lra].
Qed.

(** C8, at a failing input.  Claim C8 says the spatial integral of the
    splash impulse over the affected region is approximately zero.  For the
    splash of Scenario D (radius 5, strength 100) the integral of the kernel
    over the disc of that radius is 12.5 * PI * (1 + 99 * exp (-100)), more
    than 37.5: with the factor 50 the negative ring does not balance the
    positive core. *)
Theorem C8_splash_kernel_is_not_zero_mean
        (pr : Riemann_integrable (SplashKernel.radialIntegrand 100) 0 1) :
  SplashKernel.netImpulse 100 5 1 pr = 25 / 2 * PI * (1 + 99 * exp (- 100)) /\
  37.5 < SplashKernel.netImpulse 100 5 1 pr.
Proof.
  assert (E : SplashKernel.netImpulse 100 5 1 pr = 25 / 2 * PI * (1 + 99 * exp (- 100))).
  { unfold SplashKernel.netImpulse. rewrite radial_integral by lra.
    unfold SplashKernel.primitive.
    replace (- 100 * (1 * 1)) with (- 100) by lra.
    replace (- 100 * (0 * 0)) with 0 by lra. rewrite exp_0. field. }
  split; [exact E|]. rewrite E.
  pose proof PI_gt_3. pose proof (exp_pos (- 100)). nra.
Qed.

(** ** C10 *)

Lemma Three_clamp_range (v lo hi : R) : lo <= hi -> lo <= Three.clamp v lo hi <= hi.
Proof.
  intros H. unfold Three.clamp, Rmax, Rmin.
  destruct (Rle_dec hi v); destruct (Rle_dec lo _); lra.
Qed.

Lemma length_nonneg (v : Three.Vector3) : 0 <= Three.length v.
Proof. apply sqrt_pos. Qed.

Lemma length_multiplyScalar (v : Three.Vector3) (c : R) :
  0 <= c -> Three.length (Three.multiplyScalar v c) = Three.length v * c.
Proof.
  intros Hc. unfold Three.length, Three.multiplyScalar. cbn [Three.x Three.y Three.z].
  replace (Three.x v * c * (Three.x v * c) + Three.y v * c * (Three.y v * c)
           + Three.z v * c * (Three.z v * c))
    with ((Three.x v * Three.x v + Three.y v * Three.y v + Three.z v * Three.z v) * (c * c))
    by ring.
  rewrite sqrt_mult_alt by nra.
  now rewrite sqrt_square.
Qed.

(** [clampLength (0, hi)] leaves a vector no longer than [hi]. *)
Lemma clampLength_bound (v : Three.Vector3) (hi : R) :
  0 <= hi -> Three.length (Three.clampLength v 0 hi) <= hi.
Proof.
  intros Hhi. unfold Three.clampLength, Three.divideScalar. cbv zeta.
  pose proof (length_nonneg v) as Hl.
  pose proof (Three_clamp_range (Three.length v) 0 hi Hhi) as Hc.
  set (l := Three.length v) in *. set (c := Three.clamp l 0 hi) in *.
  unfold Js.orElse.
  destruct (Req_dec_T l 0) as [E|N].
  - assert (c = 0).
    { unfold c, Three.clamp. rewrite E. rewrite Rmin_right by lra. apply Rmax_left. lra. }
    rewrite length_multiplyScalar by lra. nra.
  - rewrite !length_multiplyScalar; try lra.
    + fold l. replace (l * (1 / l) * c) with c by (field; lra). lra.
    + apply Rlt_le. unfold Rdiv. rewrite Rmult_1_l. apply Rinv_0_lt_compat. lra.
Qed.

Lemma applyForces_bounds (st : CompBuoyancy.state) (h f : R) (torque : Three.Vector3)
      (dt : R) :
  let st' := CompBuoyancy._applyForces st h f torque dt in
  -20 <= Three.y (CompBuoyancy._velocity st') <= 20 /\
  Three.length (CompBuoyancy._angularVelocity st') <= 4 * PI.
Proof.
  cbv zeta. unfold CompBuoyancy._applyForces. cbv zeta.
  cbn [CompBuoyancy._velocity CompBuoyancy._angularVelocity Three.y].
  split.
  - apply Three_clamp_range. lra.
  - unfold Js.Math_PI. rewrite (Rmult_comm 4 PI). apply clampLength_bound.
    pose proof PI_RGT_0. lra.
Qed.

Lemma probeStep_validCount st w o ppv acc probe :
  CompBuoyancy.validCount (CompBuoyancy.probeStep st w o ppv acc probe)
  = S (CompBuoyancy.validCount acc).
Proof.
  unfold CompBuoyancy.probeStep, Js.isFiniteNum. cbv zeta. cbn [negb].
  destruct (Rle_dec _ 0); reflexivity.
Qed.

Lemma probes_validCount st w o ppv probes acc :
  CompBuoyancy.validCount (fold_left (CompBuoyancy.probeStep st w o ppv) probes acc)
  = (CompBuoyancy.validCount acc + List.length probes)%nat.
Proof.
  revert acc. induction probes as [|p ps IH]; intros acc; cbn [fold_left List.length].
  - lia.
  - rewrite IH, probeStep_validCount. lia.
Qed.

Lemma compUpdate_applies (st : CompBuoyancy.state) (dt : R) :
  CompBuoyancy.probes (CompBuoyancy.props st) <> [] ->
  CompBuoyancy.water st <> None ->
  snd (CompBuoyancy.compUpdate st dt) = CompBuoyancy.Applied.
Proof.
  intros Hp Hw. unfold CompBuoyancy.compUpdate. cbv zeta.
  destruct (CompBuoyancy.probes (CompBuoyancy.props st)) as [|p ps] eqn:E; [congruence|].
  destruct (CompBuoyancy.water st) as [w|]; [|congruence].
  rewrite probes_validCount. cbn [CompBuoyancy.validCount List.length Nat.add Nat.eqb].
  destruct (Rle_dec _ 0); reflexivity.
Qed.

Lemma compUpdate_bounds (st : CompBuoyancy.state) (dt : R) :
  snd (CompBuoyancy.compUpdate st dt) = CompBuoyancy.Applied ->
  let st' := fst (CompBuoyancy.compUpdate st dt) in
  -20 <= Three.y (CompBuoyancy._velocity st') <= 20 /\
  Three.length (CompBuoyancy._angularVelocity st') <= 4 * PI.
Proof.
  unfold CompBuoyancy.compUpdate. cbv zeta.
  destruct (CompBuoyancy.probes (CompBuoyancy.props st)) as [|p ps] eqn:E;
    [cbn; discriminate|].
  destruct (CompBuoyancy.water st) as [w|]; [|cbn; discriminate].
  destruct (Nat.eqb _ 0); [cbn; discriminate|].
  destruct (Rle_dec _ 0); intros _; cbn [fst CompBuoyancy.set_water
    CompBuoyancy._velocity CompBuoyancy._angularVelocity];
    apply applyForces_bounds.
Qed.

(** C10.  After every [CompBuoyancy.compUpdate] call that applies forces,
    the vertical velocity of the body lies in [-20, 20] and the length of
    its angular velocity is at most 4 * PI. *)
Theorem buoyancy_velocities_bounded (st : CompBuoyancy.state) (dt : R) :
  snd (CompBuoyancy.compUpdate st dt) = CompBuoyancy.Applied ->
  let st' := fst (CompBuoyancy.compUpdate st dt) in
  -20 <= Three.y (CompBuoyancy._velocity st') <= 20 /\
  Three.length (CompBuoyancy._angularVelocity st') <= 4 * PI.
Proof. exact (compUpdate_bounds st dt). Qed.

(** Scenario C: the raft with four submerged probes, one frame. *)
Lemma buoyancy_velocities_bounded_witness :
  snd (CompBuoyancy.compUpdate Scene.raft (1 / 60)) = CompBuoyancy.Applied /\
  -20 <= Three.y (CompBuoyancy._velocity (fst (CompBuoyancy.compUpdate Scene.raft (1 / 60))))
      <= 20 /\
  Three.length (CompBuoyancy._angularVelocity
                  (fst (CompBuoyancy.compUpdate Scene.raft (1 / 60)))) <= 4 * PI.
Proof.
  assert (A : snd (CompBuoyancy.compUpdate Scene.raft (1 / 60)) = CompBuoyancy.Applied).
  { apply compUpdate_applies; cbn; discriminate. }
  split; [exact A|].
  exact (buoyancy_velocities_bounded Scene.raft (1 / 60) A).
Defined.

(** * Further properties of the code *)

(** ** Lemmas *)

(** ** Sampling at pixel centres *)

Lemma INR_pos_of_lt (x n : nat) : (x < n)%nat -> 0 < INR n.
Proof. intros H. apply lt_0_INR. lia. Qed.

Lemma Zfloor_half (z : Z) : Zfloor (IZR z + 0.5) = z.
Proof. apply Zfloor_eq. lra. Qed.

Lemma Zfloor_INR_half (x : nat) : Zfloor (INR x + 0.5) = Z.of_nat x.
Proof. rewrite INR_IZR_INZ. apply Zfloor_half. Qed.

Lemma Zfloor_INR_half_left (x : nat) : Zfloor (INR x - 0.5) = (Z.of_nat x - 1)%Z.
Proof. rewrite INR_IZR_INZ. apply Zfloor_eq. rewrite minus_IZR. lra. Qed.

Lemma Zfloor_INR_half_right (x : nat) : Zfloor (INR x + 1.5) = (Z.of_nat x + 1)%Z.
Proof. rewrite INR_IZR_INZ. apply Zfloor_eq. rewrite plus_IZR. lra. Qed.

Lemma centre_coord (x n : nat) :
  (x < n)%nat -> (INR x + 0.5) * (1 / INR n) * INR n = INR x + 0.5.
Proof.
  intros H. pose proof (INR_pos_of_lt x n H) as Hn.
  unfold Rdiv. rewrite Rmult_1_l, Rmult_assoc, Rinv_l by lra. lra.
Qed.

Lemma left_coord (x n : nat) :
  (x < n)%nat -> ((INR x + 0.5) * (1 / INR n) - 1 / INR n) * INR n = INR x - 0.5.
Proof.
  intros H. pose proof (INR_pos_of_lt x n H) as Hn.
  rewrite Rmult_minus_distr_r, (centre_coord x n H).
  unfold Rdiv. rewrite Rmult_1_l, Rinv_l by lra. lra.
Qed.

Lemma right_coord (x n : nat) :
  (x < n)%nat -> ((INR x + 0.5) * (1 / INR n) + 1 / INR n) * INR n = INR x + 1.5.
Proof.
  intros H. pose proof (INR_pos_of_lt x n H) as Hn.
  rewrite Rmult_plus_distr_r, (centre_coord x n H).
  unfold Rdiv. rewrite Rmult_1_l, Rinv_l by lra. lra.
Qed.

(** The five samples of the height pass at pixel [(x, y)]: the texel itself
    and its four neighbours, fetched with clamp-to-edge. *)
Lemma height_samples (t : Tex.texture) (x y : nat) :
  (x < Tex.width t)%nat -> (y < Tex.height t)%nat ->
  let cell : Glsl.vec2 := (1 / INR (Tex.width t), 1 / INR (Tex.height t)) in
  let uv : Glsl.vec2 := ((INR x + 0.5) * fst cell, (INR y + 0.5) * snd cell) in
  Tex.texture2D t uv = Tex.texelFetch t (Z.of_nat x) (Z.of_nat y) /\
  Tex.texture2D t (fst uv - fst cell, snd uv)
  = Tex.texelFetch t (Z.of_nat x - 1) (Z.of_nat y) /\
  Tex.texture2D t (fst uv + fst cell, snd uv)
  = Tex.texelFetch t (Z.of_nat x + 1) (Z.of_nat y) /\
  Tex.texture2D t (fst uv, snd uv - snd cell)
  = Tex.texelFetch t (Z.of_nat x) (Z.of_nat y - 1) /\
  Tex.texture2D t (fst uv, snd uv + snd cell)
  = Tex.texelFetch t (Z.of_nat x) (Z.of_nat y + 1).
Proof.
  intros Hx Hy. cbv zeta. unfold Tex.texture2D. cbn [fst snd].
  rewrite !(centre_coord x _ Hx), !(centre_coord y _ Hy),
    (left_coord x _ Hx), (right_coord x _ Hx), (left_coord y _ Hy), (right_coord y _ Hy).
  rewrite !Zfloor_INR_half, !Zfloor_INR_half_left, !Zfloor_INR_half_right.
  repeat split.
Qed.

Lemma main_locality (u : HeightFS.uniforms) (t t' : Tex.texture) (x y : nat) :
  Tex.width t' = Tex.width t -> Tex.height t' = Tex.height t ->
  (x < Tex.width t)%nat -> (y < Tex.height t)%nat ->
  Tex.texelFetch t' (Z.of_nat x) (Z.of_nat y) = Tex.texelFetch t (Z.of_nat x) (Z.of_nat y) ->
  Tex.hgt (Tex.texelFetch t' (Z.of_nat x - 1) (Z.of_nat y))
  = Tex.hgt (Tex.texelFetch t (Z.of_nat x - 1) (Z.of_nat y)) ->
  Tex.hgt (Tex.texelFetch t' (Z.of_nat x + 1) (Z.of_nat y))
  = Tex.hgt (Tex.texelFetch t (Z.of_nat x + 1) (Z.of_nat y)) ->
  Tex.hgt (Tex.texelFetch t' (Z.of_nat x) (Z.of_nat y - 1))
  = Tex.hgt (Tex.texelFetch t (Z.of_nat x) (Z.of_nat y - 1)) ->
  Tex.hgt (Tex.texelFetch t' (Z.of_nat x) (Z.of_nat y + 1))
  = Tex.hgt (Tex.texelFetch t (Z.of_nat x) (Z.of_nat y + 1)) ->
  HeightFS.main u t' x y = HeightFS.main u t x y.
Proof.
  intros HW HH Hx Hy Ec El Er Ed Eu.
  assert (Hx' : (x < Tex.width t')%nat) by lia.
  assert (Hy' : (y < Tex.height t')%nat) by lia.
  destruct (height_samples t x y Hx Hy) as (A1 & A2 & A3 & A4 & A5).
  destruct (height_samples t' x y Hx' Hy') as (B1 & B2 & B3 & B4 & B5).
  cbv zeta in *. cbn [fst snd] in *.
  unfold HeightFS.main. cbv zeta. cbn [fst snd].
  rewrite A1, A2, A3, A4, A5, B1, B2, B3, B4, B5.
  rewrite Ec, El, Er, Ed, Eu, HW, HH. reflexivity.
Qed.

(** ** Bounds kept by the height pass *)

Lemma main_velocity_tight (u : HeightFS.uniforms) (t : Tex.texture) (x y : nat) :
  -19.9 <= Tex.vel (HeightFS.main u t x y) <= 19.9.
Proof.
  unfold HeightFS.main. cbv zeta. cbn [Tex.vel].
  match goal with
  | |- _ <= Glsl.clamp ?v _ _ * _ * Glsl.mix _ _ (Glsl.smoothstep ?a ?b ?c) <= _ =>
      pose proof (clamp_range v (-20) 20 ltac:(lra)) as Hc;
      pose proof (mix_range 0.99 1 (Glsl.smoothstep a b c) ltac:(lra)
                    (smoothstep_range a b c)) as Hm;
      set (cv := Glsl.clamp v (-20) 20) in *;
      set (m := Glsl.mix 0.99 1 (Glsl.smoothstep a b c)) in *
  end.
  nra.
Qed.

Lemma texelFetch_bounded (t : Tex.texture) (M : R) (ix iy : Z) :
  0 <= M -> Forall (fun c => - M <= Tex.hgt c <= M) (Tex.data t) ->
  - M <= Tex.hgt (Tex.texelFetch t ix iy) <= M.
Proof.
  intros HM HF. unfold Tex.texelFetch. cbv zeta.
  destruct (nth_in_or_default
              (Z.to_nat (Tex.clampIndex (Tex.height t) iy * Z.of_nat (Tex.width t)
                         + Tex.clampIndex (Tex.width t) ix))
              (Tex.data t) Tex.zero) as [Hin | ->].
  - rewrite Forall_forall in HF. now apply HF.
  - cbn. lra.
Qed.

Lemma main_height_growth (u : HeightFS.uniforms) (t : Tex.texture) (M : R) (x y : nat) :
  0 <= M -> Forall (fun c => - M <= Tex.hgt c <= M) (Tex.data t) ->
  0 <= HeightFS.delta u ->
  0 <= HeightFS.baselineReturn u * HeightFS.delta u <= 1 ->
  - (M + 19.9 * HeightFS.delta u) <= Tex.hgt (HeightFS.main u t x y)
  <= M + 19.9 * HeightFS.delta u.
Proof.
  intros HM HF Hd Hb. unfold HeightFS.main. cbv zeta. cbn [Tex.hgt].
  match goal with
  | |- _ <= Tex.hgt (Tex.texture2D t ?p) + Glsl.clamp ?v _ _ * _ * _ - _ <= _ =>
      pose proof (texelFetch_bounded t M _ _ HM HF : - M <= Tex.hgt (Tex.texture2D t p) <= M)
        as Hh;
      pose proof (clamp_range v (-20) 20 ltac:(lra)) as Hc;
      set (cv := Glsl.clamp v (-20) 20) in *;
      set (hC := Tex.hgt (Tex.texture2D t p)) in *
  end.
  set (d := HeightFS.delta u) in *. set (b := HeightFS.baselineReturn u) in *.
  assert (Hv1 : 0 <= (20 - cv) * d) by (apply Rmult_le_pos; lra).
  assert (Hv2 : 0 <= (cv + 20) * d) by (apply Rmult_le_pos; lra).
  assert (Hv : -19.9 * d <= cv * 0.995 * d <= 19.9 * d) by (split; nra).
  set (H := hC + cv * 0.995 * d) in *.
  assert (HH : - (M + 19.9 * d) <= H <= M + 19.9 * d) by (unfold H; lra).
  replace (H - H * b * d) with (H * (1 - b * d)) by ring.
  set (q := b * d) in *.
  assert (Hq1 : 0 <= (M + 19.9 * d - H) * (1 - q)) by (apply Rmult_le_pos; lra).
  assert (Hq2 : 0 <= (H + (M + 19.9 * d)) * (1 - q)) by (apply Rmult_le_pos; lra).
  assert (Hq3 : 0 <= (M + 19.9 * d) * q) by (apply Rmult_le_pos; lra).
  split; nra.
Qed.

(** ** The viscosity uniform *)

Lemma main_ignores_viscosity (u : HeightFS.uniforms) (v : R) (t : Tex.texture) (x y : nat) :
  HeightFS.main (Obs.withViscosity u v) t x y = HeightFS.main u t x y.
Proof. reflexivity. Qed.

Lemma compute_ignores_viscosity (u : HeightFS.uniforms) (v : R) (t : Tex.texture) :
  HeightFS.compute (Obs.withViscosity u v) t = HeightFS.compute u t.
Proof.
  unfold HeightFS.compute. f_equal.
Qed.

(** ** Bounded forcing *)

Lemma hat_bound (x : R) : 0 <= x -> Rabs ((1 - 2 * x) * exp (- x)) <= 1.
Proof.
  intros Hx.
  assert (He : 0 < exp (- x) <= 1).
  { split; [apply exp_pos|]. rewrite <- exp_0. 
    destruct (Req_dec x 0) as [->|N].
    - rewrite Ropp_0. lra.
    - apply Rlt_le, exp_increasing. lra. }
  assert (Hsq : 2 * x - 1 <= exp x).
  { assert (H2 : exp x = exp (x / 2) * exp (x / 2)).
    { rewrite <- exp_plus. f_equal. lra. }
    pose proof (exp_ineq1_le (x / 2)) as H1. 
    assert (0 <= 1 + x / 2) by lra.
    assert ((1 + x / 2) * (1 + x / 2) <= exp (x / 2) * exp (x / 2)).
    { apply Rmult_le_compat; lra. }
    nra. }
  assert (Hinv : exp x * exp (- x) = 1).
  { rewrite <- exp_plus. replace (x + - x) with 0 by ring. apply exp_0. }
  apply Rabs_le. split.
  - assert ((2 * x - 1) * exp (- x) <= exp x * exp (- x)).
    { apply Rmult_le_compat_r; lra. }
    lra.
  - assert ((1 - 2 * x) * exp (- x) <= 1 * exp (- x)).
    { apply Rmult_le_compat_r; lra. }
    lra.
Qed.

Lemma planeTerm_bound u local i :
  Rabs (HeightFS.planeTerm u local i) <= Rabs (nth i (HeightFS.pw_amp (HeightFS.pw u)) 0).
Proof.
  unfold HeightFS.planeTerm. cbv zeta.
  destruct (Req_dec_T _ 0) as [E|N].
  - rewrite Rabs_R0. apply Rabs_pos.
  - rewrite Rabs_mult.
    match goal with |- _ * Rabs (sin ?th) <= _ =>
      pose proof (SIN_bound th) as Hs; pose proof (Rabs_le (sin th) 1 Hs) as Hs' end.
    pose proof (Rabs_pos (nth i (HeightFS.pw_amp (HeightFS.pw u)) 0)). nra.
Qed.

Lemma radialTerm_bound u local i :
  Rabs (HeightFS.radialTerm u local i) <= Rabs (nth i (HeightFS.rw_amp (HeightFS.rw u)) 0).
Proof.
  unfold HeightFS.radialTerm. cbv zeta.
  destruct (Req_dec_T _ 0) as [E|N].
  - rewrite Rabs_R0. apply Rabs_pos.
  - rewrite !Rabs_mult.
    match goal with |- _ * (Rabs (1 - 2 * ?q * ?q) * Rabs (exp (- (?q * ?q)))) * Rabs (sin ?th) <= _ =>
      pose proof (SIN_bound th) as Hs; pose proof (Rabs_le (sin th) 1 Hs) as Hs';
      pose proof (hat_bound (q * q) ltac:(nra)) as Hh;
      replace (1 - 2 * (q * q)) with (1 - 2 * q * q) in Hh by ring;
      rewrite Rabs_mult in Hh;
      set (A := Rabs (1 - 2 * q * q) * Rabs (exp (- (q * q)))) in *;
      set (S := Rabs (sin th)) in *
    end.
    pose proof (Rabs_pos (nth i (HeightFS.rw_amp (HeightFS.rw u)) 0)).
    assert (0 <= A) by (unfold A; apply Rmult_le_pos; apply Rabs_pos).
    assert (0 <= S) by apply Rabs_pos.
    assert (A * S <= 1) by nra.
    set (a := Rabs (nth i (HeightFS.rw_amp (HeightFS.rw u)) 0)) in *.
    replace (a * A * S) with (a * (A * S)) by ring. nra.
Qed.

Lemma fold_add_shift (g : nat -> R) (l : list nat) (b : R) :
  fold_left (fun acc i => acc + g i) l b = b + fold_left (fun acc i => acc + g i) l 0.
Proof.
  revert b. induction l as [|i l IH]; intros b; cbn.
  - ring.
  - rewrite (IH (b + g i)), (IH (0 + g i)). ring.
Qed.

Lemma fold_add_bound (f g : nat -> R) (l : list nat) (a b : R) :
  Rabs a <= b -> (forall i, Rabs (f i) <= g i) ->
  Rabs (fold_left (fun acc i => acc + f i) l a) <= fold_left (fun acc i => acc + g i) l b.
Proof.
  intros Hab Hfg. revert a b Hab. induction l as [|i l IH]; intros a b Hab; cbn.
  - exact Hab.
  - apply IH. pose proof (Rabs_triang a (f i)). pose proof (Hfg i). lra.
Qed.

Lemma waveForcing_bound (u : HeightFS.uniforms) (local : Glsl.vec2) :
  Rabs (HeightFS.waveForcing u local) <= Obs.totalAmplitude u.
Proof.
  unfold HeightFS.waveForcing, Obs.totalAmplitude. cbv zeta.
  rewrite <- (fold_add_shift (fun i => Rabs (nth i (HeightFS.rw_amp (HeightFS.rw u)) 0))).
  apply fold_add_bound; [|intros i; apply radialTerm_bound].
  apply fold_add_bound; [|intros i; apply planeTerm_bound].
  rewrite Rabs_R0. lra.
Qed.

(** ** A uniform field *)

Lemma nth_repeat_in {A : Type} (a d : A) (n i : nat) :
  (i < n)%nat -> nth i (repeat a n) d = a.
Proof.
  revert i. induction n as [|n IH]; intros [|i] H; cbn; try lia; try reflexivity.
  apply IH. lia.
Qed.

Lemma clampIndex_range (n : nat) (i : Z) :
  (1 <= n)%nat -> (0 <= Tex.clampIndex n i <= Z.of_nat n - 1)%Z.
Proof. intros H. unfold Tex.clampIndex. lia. Qed.

Lemma fetch_index_in_range (t : Tex.texture) (ix iy : Z) :
  (1 <= Tex.width t)%nat -> (1 <= Tex.height t)%nat ->
  (Z.to_nat (Tex.clampIndex (Tex.height t) iy * Z.of_nat (Tex.width t)
             + Tex.clampIndex (Tex.width t) ix) < Tex.width t * Tex.height t)%nat.
Proof.
  intros HW HH.
  pose proof (clampIndex_range _ ix HW). pose proof (clampIndex_range _ iy HH).
  nia.
Qed.

Lemma texelFetch_uniform (c : R) (t : Tex.texture) (ix iy : Z) :
  Obs.uniformField c t -> (1 <= Tex.width t)%nat -> (1 <= Tex.height t)%nat ->
  Tex.texelFetch t ix iy = Tex.mkTexel c 0.
Proof.
  intros Hu HW HH. unfold Tex.texelFetch. cbv zeta. rewrite Hu.
  apply nth_repeat_in, fetch_index_in_range; assumption.
Qed.

Lemma main_uniform (u : HeightFS.uniforms) (c : R) (t : Tex.texture) (x y : nat) :
  Obs.uniformField c t -> (1 <= Tex.width t)%nat -> (1 <= Tex.height t)%nat ->
  Spec.noActiveWaves u -> Spec.noPendingSplash u ->
  HeightFS.main u t x y
  = Tex.mkTexel (c * (1 - HeightFS.baselineReturn u * HeightFS.delta u)) 0.
Proof.
  intros Hu HW HH Hw Hs. unfold HeightFS.main. cbv zeta.
  unfold Tex.texture2D. rewrite !(texelFetch_uniform c t _ _ Hu HW HH).
  rewrite (splashImpulse_no_strength u _ Hs), (waveForcing_inactive u _ Hw).
  cbn [Tex.hgt Tex.vel].
  replace (0 + (c + c + c + c - 4 * c) * _ * HeightFS.delta u + 0 + 0 * HeightFS.delta u)
    with 0 by ring.
  rewrite (clamp_id 0) by lra. f_equal; ring.
Qed.

Lemma compute_uniform (u : HeightFS.uniforms) (c : R) (t : Tex.texture) :
  Obs.uniformField c t -> Spec.noActiveWaves u -> Spec.noPendingSplash u ->
  Obs.uniformField (c * (1 - HeightFS.baselineReturn u * HeightFS.delta u))
                   (HeightFS.compute u t).
Proof.
  intros Hu Hw Hs. unfold Obs.uniformField, HeightFS.compute.
  cbn [Tex.data Tex.width Tex.height].
  destruct (Nat.eq_dec (Tex.width t * Tex.height t) 0) as [E|N].
  - rewrite E. reflexivity.
  - rewrite (map_const_repeat _
               (Tex.mkTexel (c * (1 - HeightFS.baselineReturn u * HeightFS.delta u)) 0)).
    + now rewrite length_seq.
    + intros i. apply main_uniform; try assumption; lia.
Qed.

Lemma decay_shift (b : R) (dts : list R) (a : R) :
  fold_left (fun acc dt => acc * (1 - b * dt)) dts a = a * Obs.decay b dts.
Proof.
  unfold Obs.decay. revert a. induction dts as [|dt dts IH]; intros a; cbn.
  - ring.
  - rewrite (IH (a * (1 - b * dt))), (IH (1 * (1 - b * dt))). ring.
Qed.

Lemma steps_uniform (s : CompWaterPBR.state) (c : R) (dts : list R) :
  Obs.uniformField c (CompWaterPBR.target s) ->
  Spec.noActiveWaves (CompWaterPBR.uniforms s) ->
  Spec.noPendingSplash (CompWaterPBR.uniforms s) ->
  Obs.uniformField
    (c * Obs.decay (HeightFS.baselineReturn (CompWaterPBR.uniforms s)) dts)
    (CompWaterPBR.target (Spec.steps s dts)).
Proof.
  revert s c. induction dts as [|dt dts IH]; intros s c Hu Hw Hs.
  - unfold Obs.decay. cbn. now rewrite Rmult_1_r.
  - unfold Spec.steps in *. cbn [fold_left].
    assert (Hu' := compute_uniform (Spec.stepUniforms s dt) c _ Hu Hw Hs).
    specialize (IH (CompWaterPBR.compUpdate s dt) _ Hu' Hw eq_refl).
    unfold Obs.decay in *. cbn [fold_left].
    rewrite decay_shift. rewrite Rmult_1_l.
    change (HeightFS.baselineReturn (CompWaterPBR.uniforms (CompWaterPBR.compUpdate s dt)))
      with (HeightFS.baselineReturn (CompWaterPBR.uniforms s)) in IH.
    change (HeightFS.baselineReturn (Spec.stepUniforms s dt))
      with (HeightFS.baselineReturn (CompWaterPBR.uniforms s)) in IH.
    change (HeightFS.delta (Spec.stepUniforms s dt)) with dt in IH.
    unfold Obs.decay.
    replace (c * ((1 - HeightFS.baselineReturn (CompWaterPBR.uniforms s) * dt)
                  * fold_left (fun acc dt0 => acc * (1 - HeightFS.baselineReturn (CompWaterPBR.uniforms s) * dt0)) dts 1))
      with (c * (1 - HeightFS.baselineReturn (CompWaterPBR.uniforms s) * dt)
            * fold_left (fun acc dt0 => acc * (1 - HeightFS.baselineReturn (CompWaterPBR.uniforms s) * dt0)) dts 1)
      by ring.
    exact IH.
Qed.


(** ** The normal and foam pass *)

Lemma length3_ge_1 (a b : R) : 1 <= NormalFS.length3 a b 1.
Proof.
  unfold NormalFS.length3. rewrite <- sqrt_1 at 1. apply sqrt_le_1_alt. nra.
Qed.

Lemma length3_sq (a b : R) :
  NormalFS.length3 a b 1 * NormalFS.length3 a b 1 = a * a + b * b + 1.
Proof. unfold NormalFS.length3. rewrite Rmult_1_r. apply sqrt_sqrt. nra. Qed.

Lemma unit_component (a l : R) : 1 <= l -> a * a <= l * l -> -1 <= a / l <= 1.
Proof.
  intros Hl Ha.
  assert (Hi : 0 < / l) by (apply Rinv_0_lt_compat; lra).
  assert (Hone : l * / l = 1) by (apply Rinv_r; lra).
  assert (Hal : - l <= a <= l) by (split; nra).
  unfold Rdiv. split; nra.
Qed.

Lemma length3_dominates (a b : R) :
  let l := NormalFS.length3 a b 1 in
  a * a <= l * l /\ b * b <= l * l /\ 1 * 1 <= l * l.
Proof.
  cbv zeta. rewrite length3_sq.
  pose proof (Rle_0_sqr a) as Ha. pose proof (Rle_0_sqr b) as Hb. unfold Rsqr in *.
  repeat split; lra.
Qed.

Lemma normal_main_ranges (u : NormalFS.uniforms) (t : Tex.texture) (x y : nat) :
  let o := NormalFS.main u t x y in
  0 <= NormalFS.encX o <= 1 /\ 0 <= NormalFS.encY o <= 1 /\
  0.5 < NormalFS.encZ o <= 1 /\ 0 <= NormalFS.foam o <= 1.
Proof.
  cbv zeta. unfold NormalFS.main. cbv zeta.
  cbn [NormalFS.encX NormalFS.encY NormalFS.encZ NormalFS.foam].
  match goal with
  | |- context [NormalFS.length3 ?a ?b 1] =>
      pose proof (length3_ge_1 a b) as Hl;
      destruct (length3_dominates a b) as (Da & Db & D1);
      pose proof (unit_component a _ Hl Da) as Hx;
      pose proof (unit_component b _ Hl Db) as Hy;
      pose proof (unit_component 1 _ Hl D1) as Hz;
      assert (Hzp : 0 < 1 / NormalFS.length3 a b 1)
        by (unfold Rdiv; rewrite Rmult_1_l; apply Rinv_0_lt_compat; lra)
  end.
  repeat split; try lra; apply smoothstep_range.
Qed.

Lemma level_atRest (t : Tex.texture) : Spec.atRest t -> Obs.level 0 t.
Proof. intros H ix iy. now rewrite texelFetch_atRest. Qed.

Lemma normal_main_level (u : NormalFS.uniforms) (c : R) (t : Tex.texture) (x y : nat) :
  Obs.level c t ->
  0 <= fst (NormalFS.foamParams u) -> 0 < snd (NormalFS.foamParams u) ->
  NormalFS.main u t x y = NormalFS.mkTexel4 0.5 0.5 1 0.
Proof.
  intros Hl Hth Hsh. unfold NormalFS.main. cbv zeta.
  unfold Tex.texture2D. rewrite !Hl.
  replace (c - c) with 0 by ring. rewrite !Rmult_0_l.
  assert (L : NormalFS.length3 (- 0) (- 0) 1 = 1).
  { unfold NormalFS.length3. replace (- 0 * - 0 + - 0 * - 0 + 1 * 1) with 1 by ring.
    apply sqrt_1. }
  rewrite L.
  assert (S0 : Glsl.length (0, 0) = 0).
  { unfold Glsl.length, Glsl.dot. cbn [fst snd].
    replace (0 * 0 + 0 * 0) with 0 by ring. apply sqrt_0. }
  rewrite S0.
  assert (F : Glsl.smoothstep (fst (NormalFS.foamParams u))
                (fst (NormalFS.foamParams u) + snd (NormalFS.foamParams u)) 0 = 0).
  { unfold Glsl.smoothstep.
    set (th := fst (NormalFS.foamParams u)) in *.
    set (sh := snd (NormalFS.foamParams u)) in *.
    assert (Hq : (0 - th) / (th + sh - th) <= 0).
    { replace (th + sh - th) with sh by ring.
      assert (0 < / sh) by (apply Rinv_0_lt_compat; lra).
      unfold Rdiv. nra. }
    assert (E : Glsl.clamp ((0 - th) / (th + sh - th)) 0 1 = 0).
    { unfold Glsl.clamp. rewrite Rmax_right by lra. apply Rmin_left. lra. }
    rewrite E. ring. }
  rewrite F. f_equal; lra.
Qed.


(** ** Clearing and disabling waves *)

Lemma zero_four (l : list R) (i : nat) :
  List.length l = 4%nat ->
  nth i (fold_left (fun acc j => Js.set_nth j 0 acc) (seq 0 4) l) 0 = 0.
Proof.
  intros H. destruct l as [|a [|b [|c [|d [|e l]]]]]; try discriminate.
  cbn. destruct i as [|[|[|[|[|i]]]]]; reflexivity.
Qed.

Lemma fold_pw_zero_amp (p : HeightFS.planeSlots) (l : list nat) :
  HeightFS.pw_amp (fold_left CompWaterPBR.pw_zero_amp l p)
  = fold_left (fun acc j => Js.set_nth j 0 acc) l (HeightFS.pw_amp p).
Proof. revert p. induction l as [|j l IH]; intros p; cbn; [reflexivity | now rewrite IH]. Qed.

Lemma fold_rw_zero_amp (r : HeightFS.radialSlots) (l : list nat) :
  HeightFS.rw_amp (fold_left CompWaterPBR.rw_zero_amp l r)
  = fold_left (fun acc j => Js.set_nth j 0 acc) l (HeightFS.rw_amp r).
Proof. revert r. induction l as [|j l IH]; intros r; cbn; [reflexivity | now rewrite IH]. Qed.

Lemma clearWaves_silences (s : CompWaterPBR.state) :
  List.length (HeightFS.pw_amp (HeightFS.pw (CompWaterPBR.uniforms s))) = 4%nat ->
  List.length (HeightFS.rw_amp (HeightFS.rw (CompWaterPBR.uniforms s))) = 4%nat ->
  let s' := CompWaterPBR.clearWaves s in
  Spec.noActiveWaves (CompWaterPBR.uniforms s') /\
  CompWaterPBR._planeWaves s' = [] /\
  HeightFS.numPW (CompWaterPBR.uniforms s') = 0%nat /\
  HeightFS.numRW (CompWaterPBR.uniforms s') = 0%nat /\
  CompWaterPBR.target s' = CompWaterPBR.target s /\
  CompWaterPBR.simTime s' = CompWaterPBR.simTime s /\
  (forall local, HeightFS.waveForcing (CompWaterPBR.uniforms s') local = 0).
Proof.
  intros Hp Hr. cbv zeta.
  assert (N : Spec.noActiveWaves (CompWaterPBR.uniforms (CompWaterPBR.clearWaves s))).
  { unfold CompWaterPBR.clearWaves, CompWaterPBR._addRWToUniforms,
      CompWaterPBR._addPWToUniforms. cbv zeta.
    cbn [CompWaterPBR.set_planeWaves CompWaterPBR.set_radialWaves CompWaterPBR._planeWaves
         CompWaterPBR._radialWaves CompWaterPBR.uniforms CompWaterPBR.set_uniforms
         List.length Nat.min Nat.sub seq fold_left CompWaterPBR.u_set_pw
         CompWaterPBR.u_set_rw HeightFS.pw HeightFS.rw].
    split; intros i.
    - change (nth i (HeightFS.pw_amp (fold_left CompWaterPBR.pw_zero_amp (seq 0 4)
                (HeightFS.pw (CompWaterPBR.uniforms s)))) 0 = 0).
      rewrite fold_pw_zero_amp. now apply zero_four.
    - change (nth i (HeightFS.rw_amp (fold_left CompWaterPBR.rw_zero_amp (seq 0 4)
                (HeightFS.rw (CompWaterPBR.uniforms s)))) 0 = 0).
      rewrite fold_rw_zero_amp. now apply zero_four. }
  split; [exact N|]. repeat split.
  intros local. now apply waveForcing_inactive.
Qed.

Lemma disableRadialWave_in_range (s : CompWaterPBR.state) (i : nat) (local : Glsl.vec2) :
  Spec.radialShaped (CompWaterPBR.uniforms s) ->
  (i < CompWaterPBR._MAX_RW s)%nat -> (i < 4)%nat ->
  let s' := CompWaterPBR.disableRadialWave s (Z.of_nat i) in
  nth i (HeightFS.rw_amp (HeightFS.rw (CompWaterPBR.uniforms s'))) 0 = 0 /\
  HeightFS.radialTerm (CompWaterPBR.uniforms s') local i = 0 /\
  (forall j, j <> i ->
     Spec.radialSlot (CompWaterPBR.uniforms s') j
     = Spec.radialSlot (CompWaterPBR.uniforms s) j) /\
  nth i (HeightFS.rw_k (HeightFS.rw (CompWaterPBR.uniforms s'))) 0
  = nth i (HeightFS.rw_k (HeightFS.rw (CompWaterPBR.uniforms s))) 0 /\
  nth i (HeightFS.rw_omega (HeightFS.rw (CompWaterPBR.uniforms s'))) 0
  = nth i (HeightFS.rw_omega (HeightFS.rw (CompWaterPBR.uniforms s))) 0 /\
  HeightFS.pw (CompWaterPBR.uniforms s') = HeightFS.pw (CompWaterPBR.uniforms s).
Proof.
  intros (H1 & H2 & H3 & H4 & H5 & H6) HM Hi. cbv zeta.
  unfold CompWaterPBR.disableRadialWave. cbv zeta.
  destruct (Z.leb_spec 0 (Z.of_nat i)); [|lia].
  destruct (Z.ltb_spec (Z.of_nat i) (Z.of_nat (CompWaterPBR._MAX_RW s))); [|lia].
  cbn [andb]. rewrite Nat2Z.id.
  assert (E : nth i (HeightFS.rw_amp (HeightFS.rw (CompWaterPBR.uniforms
                (CompWaterPBR.set_uniforms s
                   (CompWaterPBR.u_set_rw (CompWaterPBR.uniforms s)
                      (HeightFS.numRW (CompWaterPBR.uniforms s))
                      (CompWaterPBR.rw_zero_amp (HeightFS.rw (CompWaterPBR.uniforms s)) i)))))) 0
              = 0).
  { cbn. apply nth_set_nth_same. lia. }
  split; [exact E|]. split; [now apply radialTerm_inactive|].
  split; [|repeat split].
  intros j Hj. unfold Spec.radialSlot. cbv zeta. cbn.
  rewrite nth_set_nth_other by congruence. reflexivity.
Qed.

Lemma disableRadialWave_out_of_range (s : CompWaterPBR.state) (i : Z) :
  (i < 0 \/ Z.of_nat (CompWaterPBR._MAX_RW s) <= i)%Z ->
  CompWaterPBR.disableRadialWave s i = s.
Proof.
  intros H. unfold CompWaterPBR.disableRadialWave. cbv zeta.
  destruct (Z.leb_spec 0 i); destruct (Z.ltb_spec i (Z.of_nat (CompWaterPBR._MAX_RW s)));
    cbn [andb]; try reflexivity; lia.
Qed.

(** ** The plane store over a sequence of adds *)

Lemma addPlaneWave_list (s : CompWaterPBR.state) (a : CompWaterPBR.planeWaveProps) :
  CompWaterPBR._MAX_PW (CompWaterPBR.addPlaneWave s a) = CompWaterPBR._MAX_PW s /\
  ((List.length (CompWaterPBR._planeWaves s) < CompWaterPBR._MAX_PW s)%nat ->
   exists w, CompWaterPBR._planeWaves (CompWaterPBR.addPlaneWave s a)
             = CompWaterPBR._planeWaves s ++ [w]
             /\ CompWaterPBR.amp w = CompWaterPBR.pp_amplitude a) /\
  ((CompWaterPBR._MAX_PW s <= List.length (CompWaterPBR._planeWaves s))%nat ->
   CompWaterPBR._planeWaves (CompWaterPBR.addPlaneWave s a) = CompWaterPBR._planeWaves s).
Proof.
  unfold CompWaterPBR.addPlaneWave.
  destruct (Nat.ltb_spec (List.length (CompWaterPBR._planeWaves s)) (CompWaterPBR._MAX_PW s)).
  - unfold CompWaterPBR._calcDispersion. cbv zeta.
    split; [reflexivity|]. split; [|lia].
    intros _. eexists. split; reflexivity.
  - split; [reflexivity|]. split; [lia | reflexivity].
Qed.

Lemma addPlaneWaves_capacity (s : CompWaterPBR.state) (ps : list CompWaterPBR.planeWaveProps) :
  (List.length (CompWaterPBR._planeWaves s) <= CompWaterPBR._MAX_PW s)%nat ->
  let s' := Spec.addPlaneWaves s ps in
  List.length (CompWaterPBR._planeWaves s')
  = Nat.min (CompWaterPBR._MAX_PW s) (List.length (CompWaterPBR._planeWaves s) + List.length ps)
  /\ exists rest, CompWaterPBR._planeWaves s' = CompWaterPBR._planeWaves s ++ rest.
Proof.
  revert s. induction ps as [|a ps IH]; intros s Hs; cbv zeta.
  - cbn. split; [lia|]. exists []. now rewrite app_nil_r.
  - unfold Spec.addPlaneWaves in *. cbn [fold_left List.length].
    destruct (addPlaneWave_list s a) as (HM & Hadd & Hfull).
    destruct (Nat.lt_ge_cases (List.length (CompWaterPBR._planeWaves s)) (CompWaterPBR._MAX_PW s))
      as [Hlt|Hge].
    + destruct (Hadd Hlt) as (w & Ew & _).
      destruct (IH (CompWaterPBR.addPlaneWave s a)) as (L & rest & R).
      { rewrite HM, Ew, length_app. cbn. lia. }
      cbv zeta in L, R. rewrite HM, Ew, length_app in L. cbn [List.length] in L.
      split; [rewrite L; lia|].
      exists (w :: rest). rewrite R, Ew, <- app_assoc. reflexivity.
    + specialize (Hfull Hge).
      destruct (IH (CompWaterPBR.addPlaneWave s a)) as (L & rest & R).
      { rewrite HM, Hfull. lia. }
      cbv zeta in L, R. rewrite HM, Hfull in L.
      split; [rewrite L; lia|].
      exists rest. now rewrite R, Hfull.
Qed.

(** ** Omega of a wave with a positive wave number *)

Lemma omegaResolved_positive (k : R) (speed omega periodSec : option R) :
  0 < k ->
  (Spec.omegaSource speed omega periodSec = true ->
   exists om, Spec.omegaResolved k speed omega periodSec = Some om /\ 0 < om) /\
  (Spec.omegaSource speed omega periodSec = false ->
   Spec.omegaResolved k speed omega periodSec = None).
Proof.
  intros Hk.
  unfold Spec.omegaSource, Spec.omegaResolved, Spec.finitePositive, Spec.finiteNonzero,
    Spec.value, Js.ltb, Js.eqb.
  assert (V : forall v, v <> 0 -> 0 < Rabs (k * v)).
  { intros v Hv. apply Rabs_pos_lt. nra. }
  assert (P : forall T, 0 < T -> 0 < 2 * PI / T).
  { intros T HT. apply Rdiv_lt_0_compat; [|exact HT]. pose proof PI_RGT_0. lra. }
  destruct (Rlt_dec 0 k); [|contradiction].
  destruct omega as [w|]; [destruct (Rlt_dec 0 w)|];
  (destruct periodSec as [T|]; [destruct (Rlt_dec 0 T)|]);
  (destruct speed as [v|]; [destruct (Req_dec_T v 0)|]);
  cbn; split; intros H;
  first [discriminate H | reflexivity | (eexists; split; [reflexivity | auto])].
Qed.

Lemma calcOmega_positive (s : CompWaterPBR.state) (k : R) (speed omega periodSec : option R) :
  0 < k ->
  (Spec.omegaSource speed omega periodSec = true ->
   exists om, CompWaterPBR._calcOmega s k speed omega periodSec = Some om /\ 0 < om) /\
  (Spec.omegaSource speed omega periodSec = false ->
   CompWaterPBR._calcOmega s k speed omega periodSec = None).
Proof.
  intros Hk. rewrite calcOmega_resolved. now apply omegaResolved_positive.
Qed.

Lemma waveNumber_positive (l : R) : 0 < l -> 0 < CompWaterPBR.waveNumber (Some l).
Proof.
  intros H. unfold CompWaterPBR.waveNumber, Js.Math_PI.
  destruct (Rlt_dec 0 l); [|contradiction].
  apply Rdiv_lt_0_compat; [|exact H]. pose proof PI_RGT_0. lra.
Qed.

Lemma waveNumber_relation (l : R) : 0 < l -> CompWaterPBR.waveNumber (Some l) * l = 2 * PI.
Proof.
  intros H. unfold CompWaterPBR.waveNumber, Js.Math_PI.
  destruct (Rlt_dec 0 l); [|contradiction]. field. lra.
Qed.

Lemma addRadialWave_source (s : CompWaterPBR.state)
      (p : CompWaterPBR.IRadialWaveProps) (l : R) :
  Spec.radialShaped (CompWaterPBR.uniforms s) -> CompWaterPBR._MAX_RW s = 4%nat ->
  CompWaterPBR.rp_wavelength p = Some l -> 0 < l ->
  let s' := CompWaterPBR.addRadialWave s p in
  let i := (CompWaterPBR._rwWrite s mod 4)%nat in
  let source := Spec.omegaSource (CompWaterPBR.rp_speed p) (CompWaterPBR.rp_omega p)
                                 (CompWaterPBR.rp_periodSec p) in
  nth i (HeightFS.rw_k (HeightFS.rw (CompWaterPBR.uniforms s'))) 0 * l = 2 * PI /\
  (source = true ->
   nth i (HeightFS.rw_amp (HeightFS.rw (CompWaterPBR.uniforms s'))) 0
   = CompWaterPBR.rp_amplitude p /\
   0 < nth i (HeightFS.rw_omega (HeightFS.rw (CompWaterPBR.uniforms s'))) 0) /\
  (source = false ->
   nth i (HeightFS.rw_amp (HeightFS.rw (CompWaterPBR.uniforms s'))) 0 = 0).
Proof.
  intros Hs HM Hl Hpos. cbv zeta.
  destruct (addRadialWave_slot s p Hs HM) as (E & _).
  assert (Ea := f_equal (fun t => snd (fst (fst t))) E).
  assert (Ek := f_equal (fun t => snd (fst (fst (fst (fst t))))) E).
  assert (Eo := f_equal (fun t => snd (fst (fst (fst t)))) E).
  unfold Spec.radialSlot, Spec.radialEntry in Ea, Ek, Eo.
  cbv zeta in Ea, Ek, Eo. cbn [fst snd] in Ea, Ek, Eo.
  rewrite Ea, Ek, Eo, Hl.
  pose proof (waveNumber_positive l Hpos) as Hk.
  destruct (calcOmega_positive s _ (CompWaterPBR.rp_speed p) (CompWaterPBR.rp_omega p)
              (CompWaterPBR.rp_periodSec p) Hk) as (Hyes & Hno).
  split; [now apply waveNumber_relation|]. split.
  - intros Hsrc. destruct (Hyes Hsrc) as (om & -> & Hom).
    split; [apply gatedAmplitude_good; lra | exact Hom].
  - intros Hsrc. rewrite (Hno Hsrc). apply gatedAmplitude_bad. right. left. reflexivity.
Qed.


(** ** The splash *)

Lemma splash_world_horizontal (s : CompWaterPBR.state) (x z : R) (size : option R)
      (strength : R) :
  Three.rotationX (CompWaterPBR.mesh s) = - PI / 2 ->
  let s' := CompWaterPBR.splash s x z size strength CompWaterPBR.world in
  HeightFS.mousePos (CompWaterPBR.uniforms s')
  = (x - Three.x (Three.position (CompWaterPBR.mesh s)),
     Three.z (Three.position (CompWaterPBR.mesh s)) - z) /\
  HeightFS.splashStrength (CompWaterPBR.uniforms s') = strength /\
  HeightFS.mouseSize (CompWaterPBR.uniforms s')
  = match size with
    | Some v => v
    | None => HeightFS.mouseSize (CompWaterPBR.uniforms s)
    end /\
  CompWaterPBR.target s' = CompWaterPBR.target s /\
  CompWaterPBR.simTime s' = CompWaterPBR.simTime s /\
  HeightFS.pw (CompWaterPBR.uniforms s') = HeightFS.pw (CompWaterPBR.uniforms s) /\
  HeightFS.rw (CompWaterPBR.uniforms s') = HeightFS.rw (CompWaterPBR.uniforms s).
Proof.
  intros Hr. cbv zeta. split; [|repeat split].
  unfold CompWaterPBR.splash. cbv zeta.
  cbn [CompWaterPBR.uniforms CompWaterPBR.set_uniforms CompWaterPBR.u_set_splash
       HeightFS.mousePos].
  unfold CompWaterPBR._worldToLocalXY, Three.worldToLocal, Three.rotateX, Three.sub,
    Three.toVec2.
  cbn [Three.x Three.y Three.z Three.x2 Three.y2].
  rewrite Hr, cos_neg, sin_neg, cos_neg_PI2, sin_neg_PI2.
  f_equal; ring.
Qed.

Lemma kernel_factor_bound (x : R) : 0 <= x -> Rabs ((1 - 50 * x) * exp (- 100 * x)) <= 1.
Proof.
  intros Hx. set (y := 100 * x).
  assert (Hy : 0 <= y) by (unfold y; lra).
  replace (- 100 * x) with (- y) by (unfold y; ring).
  replace (1 - 50 * x) with (1 - y / 2) by (unfold y; field).
  pose proof (exp_ineq1_le y) as H1.
  assert (Hinv : exp y * exp (- y) = 1).
  { rewrite <- exp_plus. replace (y + - y) with 0 by ring. apply exp_0. }
  pose proof (exp_pos (- y)) as Hp.
  apply Rabs_le. split.
  - assert ((y / 2 - 1) * exp (- y) <= exp y * exp (- y)).
    { apply Rmult_le_compat_r; lra. }
    lra.
  - assert ((1 - y / 2) * exp (- y) <= exp y * exp (- y)).
    { apply Rmult_le_compat_r; lra. }
    lra.
Qed.

Lemma splashImpulse_bound (u : HeightFS.uniforms) (local : Glsl.vec2) :
  Rabs (HeightFS.splashImpulse u local) <= Rabs (HeightFS.splashStrength u).
Proof.
  unfold HeightFS.splashImpulse. cbv zeta.
  set (r := Glsl.length (Glsl.sub local (HeightFS.mousePos u)) / HeightFS.mouseSize u).
  rewrite Rabs_mult.
  pose proof (kernel_factor_bound (r * r) ltac:(nra)) as H.
  pose proof (Rabs_pos (HeightFS.splashStrength u)). 
  set (A := Rabs ((1 - 50 * (r * r)) * exp (-100 * (r * r)))) in *.
  assert (0 <= A) by apply Rabs_pos. nra.
Qed.

(** ** Steps after clearing the waves *)

Lemma uniformField_zero (t : Tex.texture) : Spec.atRest t <-> Obs.uniformField 0 t.
Proof. split; intros H; exact H. Qed.


(** ** The height query never extrapolates *)

Lemma lerp_range (lo hi a b t : R) :
  lo <= a <= hi -> lo <= b <= hi -> 0 <= t <= 1 -> lo <= a + (b - a) * t <= hi.
Proof.
  intros Ha Hb Ht.
  replace (a + (b - a) * t) with (a * (1 - t) + b * t) by ring.
  split; nra.
Qed.

(** The height of the pixel [(x0 + col, y0 + row)] of the texture. *)
Lemma read_entry (t : Tex.texture) (x0 y0 : Z) (w h row col : nat) :
  (1 <= w <= 2)%nat -> (1 <= h <= 2)%nat -> (col < w)%nat -> (row < h)%nat ->
  nth (4 * (row * w + col)) (CompWaterPBR.readRenderTargetPixels t x0 y0 w h) 0
  = Tex.hgt (nth (Z.to_nat ((y0 + Z.of_nat row) * Z.of_nat (Tex.width t)
                            + (x0 + Z.of_nat col)))
                 (Tex.data t) Tex.zero).
Proof.
  intros Hw Hh Hc Hr.
  assert (W : w = 1%nat \/ w = 2%nat) by lia.
  assert (H : h = 1%nat \/ h = 2%nat) by lia.
  destruct W as [-> | ->]; destruct H as [-> | ->];
    destruct col as [|[|col]]; try lia; destruct row as [|[|row]]; try lia;
    reflexivity.
Qed.

Lemma sample_in_range (t : Tex.texture) (lo hi : R) (x y : Z) :
  Obs.fullTexture t ->
  Forall (fun c => lo <= Tex.hgt c <= hi) (Tex.data t) ->
  (0 <= x <= Z.of_nat (Tex.width t) - 1)%Z ->
  (0 <= y <= Z.of_nat (Tex.height t) - 1)%Z ->
  lo <= Tex.hgt (nth (Z.to_nat (y * Z.of_nat (Tex.width t) + x)) (Tex.data t) Tex.zero)
  <= hi.
Proof.
  intros Hf HF Hx Hy. rewrite Forall_forall in HF. apply HF, nth_In.
  rewrite Hf. nia.
Qed.

Lemma unit_clamp (v : R) : 0 <= Js.Math_min (Js.Math_max v 0) 1 <= 1.
Proof.
  unfold Js.Math_min, Js.Math_max, Rmin, Rmax.
  destruct (Rle_dec v 0); destruct (Rle_dec _ 1); lra.
Qed.

(** Floor and fraction of a grid coordinate in [0, n - 1]. *)
Lemma grid_floor (f : R) (n : nat) :
  (1 <= n)%nat -> 0 <= f <= INR n - 1 ->
  (0 <= Zfloor f <= Z.of_nat n - 1)%Z /\ 0 <= f - IZR (Zfloor f) <= 1.
Proof.
  intros Hn Hf. pose proof (Zfloor_bound f) as Hb.
  split; [split|lra].
  - apply Zfloor_lub. cbn. lra.
  - apply le_IZR. rewrite minus_IZR, <- INR_IZR_INZ. lra.
Qed.

Lemma getHeightAtPoint_interpolates (s : CompWaterPBR.state) (p : Three.Vector3) (lo hi : R) :
  Spec.wellFormed s -> Obs.fullTexture (CompWaterPBR.target s) ->
  (1 <= CompWaterPBR._simWidth s)%nat -> (1 <= CompWaterPBR._simHeight s)%nat ->
  Forall (fun c => lo <= Tex.hgt c <= hi) (Tex.data (CompWaterPBR.target s)) ->
  exists h, lo <= h <= hi /\
    CompWaterPBR.getHeightAtPoint s p
    = Obs.baseY s p + h * CompWaterPBR.displacementScale (CompWaterPBR.props s)
                      * CompWaterPBR._normalY s.
Proof.
  intros (HW & HH & _ & _) Hfull H1W H1H HF.
  unfold CompWaterPBR.getHeightAtPoint. cbv zeta.
  destruct (Nat.eqb_spec (CompWaterPBR._simWidth s) 0); [lia|].
  destruct (Nat.eqb_spec (CompWaterPBR._simHeight s) 0); [lia|].
  cbn [orb]. unfold Js.isFiniteNum. cbn [negb].
  eexists. split; [|unfold Obs.baseY; cbv zeta; reflexivity].
  set (l := Three.worldToLocal (CompWaterPBR.mesh s) p).
  set (fx := Js.Math_min (Js.Math_max (Three.x l * CompWaterPBR._invSizeX s + 0.5) 0) 1
             * (INR (CompWaterPBR._simWidth s) - 1)).
  set (fy := Js.Math_min (Js.Math_max (Three.y l * CompWaterPBR._invSizeY s + 0.5) 0) 1
             * (INR (CompWaterPBR._simHeight s) - 1)).
  assert (Hfx : 0 <= fx <= INR (CompWaterPBR._simWidth s) - 1).
  { pose proof (unit_clamp (Three.x l * CompWaterPBR._invSizeX s + 0.5)) as Hu.
    assert (0 <= INR (CompWaterPBR._simWidth s) - 1).
    { apply le_INR in H1W. simpl INR in H1W. lra. }
    unfold fx. split; nra. }
  assert (Hfy : 0 <= fy <= INR (CompWaterPBR._simHeight s) - 1).
  { pose proof (unit_clamp (Three.y l * CompWaterPBR._invSizeY s + 0.5)) as Hu.
    assert (0 <= INR (CompWaterPBR._simHeight s) - 1).
    { apply le_INR in H1H. simpl INR in H1H. lra. }
    unfold fy. split; nra. }
  destruct (grid_floor fx _ H1W Hfx) as (Hx0 & Htx).
  destruct (grid_floor fy _ H1H Hfy) as (Hy0 & Hty).
  unfold Js.Math_floor.
  set (x0 := Zfloor fx) in *. set (y0 := Zfloor fy) in *.
  set (t := CompWaterPBR.target s) in *.
  rewrite HW in Hx0. rewrite HH in Hy0. rewrite HW, HH.
  assert (S : forall row col : nat,
             (x0 + Z.of_nat col <= Z.of_nat (Tex.width t) - 1)%Z ->
             (y0 + Z.of_nat row <= Z.of_nat (Tex.height t) - 1)%Z ->
             lo <= Tex.hgt (nth (Z.to_nat ((y0 + Z.of_nat row) * Z.of_nat (Tex.width t)
                                          + (x0 + Z.of_nat col)))
                                (Tex.data t) Tex.zero) <= hi).
  { intros row col Hc Hr. apply sample_in_range; auto; lia. }
  assert (E := read_entry t x0 y0).
  destruct (Z.ltb_spec x0 (Z.min (x0 + 1) (Z.of_nat (Tex.width t) - 1))) as [Lx|Lx];
  destruct (Z.ltb_spec y0 (Z.min (y0 + 1) (Z.of_nat (Tex.height t) - 1))) as [Ly|Ly];
  cbn [Nat.ltb Nat.leb Nat.mul Nat.add andb].
  - pose proof (E 2 2 0 0 ltac:(lia) ltac:(lia) ltac:(lia) ltac:(lia))%nat as E00.
    pose proof (E 2 2 0 1 ltac:(lia) ltac:(lia) ltac:(lia) ltac:(lia))%nat as E01.
    pose proof (E 2 2 1 0 ltac:(lia) ltac:(lia) ltac:(lia) ltac:(lia))%nat as E10.
    pose proof (E 2 2 1 1 ltac:(lia) ltac:(lia) ltac:(lia) ltac:(lia))%nat as E11.
    cbn [Nat.mul Nat.add] in E00, E01, E10, E11.
    rewrite E00, E01, E10, E11.
    pose proof (S 0 0 ltac:(lia) ltac:(lia))%nat.
    pose proof (S 0 1 ltac:(lia) ltac:(lia))%nat.
    pose proof (S 1 0 ltac:(lia) ltac:(lia))%nat.
    pose proof (S 1 1 ltac:(lia) ltac:(lia))%nat.
    repeat apply lerp_range; auto; lra.
  - pose proof (E 2 1 0 0 ltac:(lia) ltac:(lia) ltac:(lia) ltac:(lia))%nat as E00.
    pose proof (E 2 1 0 1 ltac:(lia) ltac:(lia) ltac:(lia) ltac:(lia))%nat as E01.
    cbn [Nat.mul Nat.add] in E00, E01.
    rewrite E00, E01.
    pose proof (S 0 0 ltac:(lia) ltac:(lia))%nat.
    pose proof (S 0 1 ltac:(lia) ltac:(lia))%nat.
    repeat apply lerp_range; auto; lra.
  - pose proof (E 1 2 0 0 ltac:(lia) ltac:(lia) ltac:(lia) ltac:(lia))%nat as E00.
    pose proof (E 1 2 1 0 ltac:(lia) ltac:(lia) ltac:(lia) ltac:(lia))%nat as E10.
    cbn [Nat.mul Nat.add] in E00, E10.
    rewrite E00, E10.
    pose proof (S 0 0 ltac:(lia) ltac:(lia))%nat.
    pose proof (S 1 0 ltac:(lia) ltac:(lia))%nat.
    repeat apply lerp_range; auto; lra.
  - pose proof (E 1 1 0 0 ltac:(lia) ltac:(lia) ltac:(lia) ltac:(lia))%nat as E00.
    cbn [Nat.mul Nat.add] in E00.
    rewrite E00.
    pose proof (S 0 0 ltac:(lia) ltac:(lia))%nat.
    repeat apply lerp_range; auto; lra.
Qed.


(** ** The probe loop *)

Lemma perProbeVolume_pos (v : R) (n : nat) : 0 < Js.Math_max (v / INR n) 1e-3.
Proof.
  unfold Js.Math_max. eapply Rlt_le_trans; [|apply Rmax_r]. lra.
Qed.

Lemma clampedDepth_range (d ppv : R) :
  0 <= ppv -> 0 <= Js.Math_min (Js.Math_max d 0) ppv <= ppv.
Proof.
  intros H. unfold Js.Math_min, Js.Math_max, Rmin, Rmax.
  destruct (Rle_dec d 0); destruct (Rle_dec _ ppv); lra.
Qed.

Lemma probeStep_buoyancy st w o ppv acc probe :
  0 <= CompBuoyancy.volume st -> 0 <= ppv ->
  CompBuoyancy.totalBuoyancy acc
  <= CompBuoyancy.totalBuoyancy (CompBuoyancy.probeStep st w o ppv acc probe)
  <= CompBuoyancy.totalBuoyancy acc + ppv * CompBuoyancy.volume st * 9.81.
Proof.
  intros Hv Hp. unfold CompBuoyancy.probeStep, Js.isFiniteNum. cbv zeta. cbn [negb].
  assert (0 <= ppv * CompBuoyancy.volume st) by (apply Rmult_le_pos; lra).
  destruct (Rle_dec _ 0); cbn [CompBuoyancy.totalBuoyancy]; [lra|].
  match goal with |- context [Js.Math_min (Js.Math_max ?d 0) ppv] =>
    pose proof (clampedDepth_range d ppv Hp) as Hc;
    set (c := Js.Math_min (Js.Math_max d 0) ppv) in * end.
  assert (0 <= c * CompBuoyancy.volume st) by (apply Rmult_le_pos; lra).
  assert (c * CompBuoyancy.volume st <= ppv * CompBuoyancy.volume st)
    by (apply Rmult_le_compat_r; lra).
  lra.
Qed.

Lemma probes_buoyancy st w o ppv probes acc :
  0 <= CompBuoyancy.volume st -> 0 <= ppv ->
  CompBuoyancy.totalBuoyancy acc
  <= CompBuoyancy.totalBuoyancy (fold_left (CompBuoyancy.probeStep st w o ppv) probes acc)
  <= CompBuoyancy.totalBuoyancy acc
     + INR (List.length probes) * (ppv * CompBuoyancy.volume st * 9.81).
Proof.
  intros Hv Hp. revert acc.
  induction probes as [|p ps IH]; intros acc.
  - cbn [fold_left List.length INR]. lra.
  - cbn [fold_left]. specialize (IH (CompBuoyancy.probeStep st w o ppv acc p)).
    pose proof (probeStep_buoyancy st w o ppv acc p Hv Hp).
    change (List.length (p :: ps)) with (S (List.length ps)). rewrite S_INR. lra.
Qed.

(** The state fields [_applyForces] and the splash leave alone. *)
Lemma compUpdate_buoyancyForce (st : CompBuoyancy.state) (w : CompWaterPBR.state) (dt : R) :
  CompBuoyancy.probes (CompBuoyancy.props st) <> [] ->
  CompBuoyancy.water st = Some w ->
  CompBuoyancy.buoyancyForce (fst (CompBuoyancy.compUpdate st dt))
  = Three.mkV3 0
      (CompBuoyancy.totalBuoyancy
         (fold_left
            (CompBuoyancy.probeStep st w (CompBuoyancy.getWorldPosition (CompBuoyancy.object3D st))
               (Js.Math_max (CompBuoyancy.volume st
                             / INR (List.length (CompBuoyancy.probes (CompBuoyancy.props st))))
                            1e-3))
            (CompBuoyancy.probes (CompBuoyancy.props st))
            (CompBuoyancy.mkAcc 0 0 0 (Three.mkV3 0 0 0)))) 0.
Proof.
  intros Hp Hw. unfold CompBuoyancy.compUpdate. cbv zeta. rewrite Hw.
  destruct (CompBuoyancy.probes (CompBuoyancy.props st)) as [|p ps] eqn:E; [congruence|].
  rewrite probes_validCount. cbn [CompBuoyancy.validCount List.length Nat.add Nat.eqb].
  destruct (Rle_dec _ 0); reflexivity.
Qed.

Lemma compUpdate_buoyancy_bounds (st : CompBuoyancy.state) (w : CompWaterPBR.state) (dt : R) :
  CompBuoyancy.probes (CompBuoyancy.props st) <> [] ->
  CompBuoyancy.water st = Some w ->
  0 <= CompBuoyancy.volume st ->
  let st' := fst (CompBuoyancy.compUpdate st dt) in
  let n := INR (List.length (CompBuoyancy.probes (CompBuoyancy.props st))) in
  Three.x (CompBuoyancy.buoyancyForce st') = 0 /\
  Three.z (CompBuoyancy.buoyancyForce st') = 0 /\
  0 <= Three.y (CompBuoyancy.buoyancyForce st')
    <= n * (Js.Math_max (CompBuoyancy.volume st / n) 1e-3 * CompBuoyancy.volume st * 9.81).
Proof.
  intros Hp Hw Hv. cbv zeta. rewrite (compUpdate_buoyancyForce st w dt Hp Hw).
  cbn [Three.x Three.y Three.z]. split; [reflexivity|split; [reflexivity|]].
  match goal with |- context [fold_left (CompBuoyancy.probeStep st w ?o ?ppv) ?ps ?acc] =>
    pose proof (probes_buoyancy st w o ppv ps acc Hv
                  (Rlt_le _ _ (perProbeVolume_pos _ _))) as H end.
  cbn [CompBuoyancy.totalBuoyancy] in H. lra.
Qed.

(** No probe under the surface: nothing is accumulated. *)
Lemma probes_dry st w o ppv probes acc :
  Forall (fun probe => Obs.probeDepth st w probe <= 0) probes ->
  CompBuoyancy.totalBuoyancy (fold_left (CompBuoyancy.probeStep st w o ppv) probes acc)
  = CompBuoyancy.totalBuoyancy acc /\
  CompBuoyancy._torqueAccum (fold_left (CompBuoyancy.probeStep st w o ppv) probes acc)
  = CompBuoyancy._torqueAccum acc.
Proof.
  intros HF. revert acc. induction HF as [|p ps Hp HF IH]; intros acc.
  - split; reflexivity.
  - cbn [fold_left]. destruct (IH (CompBuoyancy.probeStep st w o ppv acc p)) as [-> ->].
    unfold CompBuoyancy.probeStep, Js.isFiniteNum. cbv zeta. cbn [negb].
    unfold Obs.probeDepth in Hp. cbv zeta in Hp.
    destruct (Rle_dec _ 0); [split; reflexivity|lra].
Qed.

(** The length after [clampLength (0, hi)]. *)
Lemma clampLength_length (v : Three.Vector3) (hi : R) :
  0 <= hi -> Three.length (Three.clampLength v 0 hi) = Three.clamp (Three.length v) 0 hi.
Proof.
  intros Hhi. unfold Three.clampLength, Three.divideScalar. cbv zeta.
  pose proof (length_nonneg v) as Hl.
  pose proof (Three_clamp_range (Three.length v) 0 hi Hhi) as Hc.
  set (l := Three.length v) in *. set (c := Three.clamp l 0 hi) in *.
  unfold Js.orElse.
  destruct (Req_dec_T l 0) as [E|N].
  - assert (c = 0).
    { unfold c, Three.clamp. rewrite E. rewrite Rmin_right by lra. apply Rmax_left. lra. }
    rewrite length_multiplyScalar by lra. nra.
  - rewrite !length_multiplyScalar; try lra.
    + fold l. field. lra.
    + apply Rlt_le. unfold Rdiv. rewrite Rmult_1_l. apply Rinv_0_lt_compat. lra.
Qed.

Lemma clamp_le_value (l hi : R) : 0 <= l -> 0 <= hi -> Three.clamp l 0 hi <= l.
Proof.
  intros Hl Hhi. unfold Three.clamp, Rmax, Rmin.
  destruct (Rle_dec hi l); destruct (Rle_dec 0 _); lra.
Qed.

Lemma zero_torque_spin (st : CompBuoyancy.state) (h f dt : R) :
  0 <= CompBuoyancy.angularDragCoefficient st * dt ->
  Three.length (CompBuoyancy._angularVelocity
                  (CompBuoyancy._applyForces st h f (Three.mkV3 0 0 0) dt))
  <= Three.length (CompBuoyancy._angularVelocity st).
Proof.
  intros Hd. unfold CompBuoyancy._applyForces. cbv zeta.
  cbn [CompBuoyancy._angularVelocity].
  unfold Js.Math_PI.
  assert (HP : 0 <= PI * 4) by (pose proof PI_RGT_0; lra).
  rewrite clampLength_length by exact HP.
  set (d := Js.Math_max 0 (1 - CompBuoyancy.angularDragCoefficient st * dt)).
  assert (Hd01 : 0 <= d <= 1).
  { unfold d, Js.Math_max, Rmax. destruct (Rle_dec 0 _); lra. }
  etransitivity; [apply clamp_le_value; [apply length_nonneg|exact HP]|].
  rewrite length_multiplyScalar by lra.
  replace (Three.addScaledVector (CompBuoyancy._angularVelocity st) (Three.mkV3 0 0 0)
             (dt / Js.Math_max (CompBuoyancy.volume st) 1e-3))
    with (CompBuoyancy._angularVelocity st).
  - pose proof (length_nonneg (CompBuoyancy._angularVelocity st)). nra.
  - unfold Three.addScaledVector. cbn [Three.x Three.y Three.z].
    destruct (CompBuoyancy._angularVelocity st) as [a b c]. cbn [Three.x Three.y Three.z].
    f_equal; ring.
Qed.

Lemma compUpdate_dry (st : CompBuoyancy.state) (w : CompWaterPBR.state) (dt : R) :
  CompBuoyancy.probes (CompBuoyancy.props st) <> [] ->
  CompBuoyancy.water st = Some w ->
  Forall (fun probe => Obs.probeDepth st w probe <= 0)
         (CompBuoyancy.probes (CompBuoyancy.props st)) ->
  0 <= CompBuoyancy.angularDragCoefficient st * dt ->
  let st' := fst (CompBuoyancy.compUpdate st dt) in
  CompBuoyancy.buoyancyForce st' = Three.mkV3 0 0 0 /\
  Three.length (CompBuoyancy._angularVelocity st')
  <= Three.length (CompBuoyancy._angularVelocity st).
Proof.
  intros Hp Hw HF Hd. cbv zeta. split.
  - rewrite (compUpdate_buoyancyForce st w dt Hp Hw).
    match goal with |- context [fold_left (CompBuoyancy.probeStep st w ?o ?ppv) ?ps ?acc] =>
      destruct (probes_dry st w o ppv ps acc HF) as [-> _] end.
    reflexivity.
  - unfold CompBuoyancy.compUpdate. cbv zeta. rewrite Hw.
    destruct (CompBuoyancy.probes (CompBuoyancy.props st)) as [|p ps] eqn:E; [congruence|].
    rewrite probes_validCount. cbn [CompBuoyancy.validCount List.length Nat.add Nat.eqb].
    match goal with |- context [fold_left (CompBuoyancy.probeStep st w ?o ?ppv) ?ps ?acc] =>
      destruct (probes_dry st w o ppv ps acc HF) as [_ ->] end.
    cbn [CompBuoyancy._torqueAccum].
    destruct (Rle_dec _ 0); cbn [fst CompBuoyancy.set_water CompBuoyancy._angularVelocity];
      apply (zero_torque_spin (CompBuoyancy.set_buoyancyForce st _)); exact Hd.
Qed.


(** ** What the buoyancy step leaves alone *)





Lemma compUpdate_horizontal (st : CompBuoyancy.state) (dt : R) :
  let st' := fst (CompBuoyancy.compUpdate st dt) in
  Three.x (CompBuoyancy.position (CompBuoyancy.object3D st'))
  = Three.x (CompBuoyancy.position (CompBuoyancy.object3D st)) /\
  Three.z (CompBuoyancy.position (CompBuoyancy.object3D st'))
  = Three.z (CompBuoyancy.position (CompBuoyancy.object3D st)) /\
  Three.x (CompBuoyancy._velocity st') = Three.x (CompBuoyancy._velocity st) /\
  Three.z (CompBuoyancy._velocity st') = Three.z (CompBuoyancy._velocity st).
Proof.
  cbv zeta. unfold CompBuoyancy.compUpdate. cbv zeta.
  destruct (CompBuoyancy.probes (CompBuoyancy.props st)) as [|p ps] eqn:E; [tauto|].
  destruct (CompBuoyancy.water st) as [w|]; [|tauto].
  destruct (Nat.eqb _ 0); [cbn; tauto|].
  destruct (Rle_dec _ 0); cbn; tauto.
Qed.

(** The body moves vertically by at most 20 |dt| in one call. *)
Lemma compUpdate_vertical_move (st : CompBuoyancy.state) (dt : R) :
  let st' := fst (CompBuoyancy.compUpdate st dt) in
  Rabs (Three.y (CompBuoyancy.position (CompBuoyancy.object3D st'))
        - Three.y (CompBuoyancy.position (CompBuoyancy.object3D st)))
  <= 20 * Rabs dt.
Proof.
  cbv zeta.
  assert (Z0 : forall a, Rabs (a - a) <= 20 * Rabs dt).
  { intros a. replace (a - a) with 0 by ring. rewrite Rabs_R0.
    pose proof (Rabs_pos dt). lra. }
  unfold CompBuoyancy.compUpdate. cbv zeta.
  destruct (CompBuoyancy.probes (CompBuoyancy.props st)) as [|p ps] eqn:E; [apply Z0|].
  destruct (CompBuoyancy.water st) as [w|]; [|apply Z0].
  destruct (Nat.eqb _ 0); [apply Z0|].
  assert (M : forall st0 h f t,
             Rabs (Three.y (CompBuoyancy.position
                              (CompBuoyancy.object3D (CompBuoyancy._applyForces st0 h f t dt)))
                   - Three.y (CompBuoyancy.position (CompBuoyancy.object3D st0)))
             <= 20 * Rabs dt).
  { intros st0 h f t. unfold CompBuoyancy._applyForces. cbv zeta.
    cbn [CompBuoyancy.object3D CompBuoyancy.position Three.y].
    match goal with |- context [Three.clamp ?v (-20) 20] =>
      pose proof (Three_clamp_range v (-20) 20 ltac:(lra)) as Hc;
      set (c := Three.clamp v (-20) 20) in * end.
    match goal with |- Rabs ?e <= _ => replace e with (c * dt) by ring end.
    rewrite Rabs_mult. apply Rmult_le_compat_r; [apply Rabs_pos|].
    apply Rabs_le. lra. }
  destruct (Rle_dec _ 0); cbn [fst CompBuoyancy.set_water CompBuoyancy.object3D];
    apply (M (CompBuoyancy.set_buoyancyForce st _)).
Qed.

(** ** The orientation stays a unit quaternion *)

Lemma qnormalize_unit (q : CompBuoyancy.Quaternion) :
  Obs.qlength (CompBuoyancy.qnormalize q) = 1.
Proof.
  unfold CompBuoyancy.qnormalize, Obs.qlength. cbv zeta.
  destruct q as [a b c d]. cbn [CompBuoyancy.qx CompBuoyancy.qy CompBuoyancy.qz CompBuoyancy.qw].
  set (n := a * a + b * b + c * c + d * d).
  assert (Hn : 0 <= n) by (unfold n; nra).
  destruct (Req_dec_T (sqrt n) 0) as [E|N];
    cbn [CompBuoyancy.qx CompBuoyancy.qy CompBuoyancy.qz CompBuoyancy.qw].
  - replace (0 * 0 + 0 * 0 + 0 * 0 + 1 * 1) with 1 by ring. apply sqrt_1.
  - pose proof (sqrt_pos n) as Hp.
    assert (Hs : sqrt n * sqrt n = n) by (apply sqrt_sqrt; exact Hn).
    replace (a * (1 / sqrt n) * (a * (1 / sqrt n)) + b * (1 / sqrt n) * (b * (1 / sqrt n))
             + c * (1 / sqrt n) * (c * (1 / sqrt n)) + d * (1 / sqrt n) * (d * (1 / sqrt n)))
      with (n / (sqrt n * sqrt n)) by (unfold n; field; exact N).
    rewrite Hs. replace (n / n) with 1; [apply sqrt_1|].
    field. intros Z. rewrite Z, sqrt_0 in N. lra.
Qed.

Lemma compUpdate_unit_quaternion (st : CompBuoyancy.state) (dt : R) :
  Obs.qlength (CompBuoyancy.quaternion (CompBuoyancy.object3D st)) = 1 ->
  Obs.qlength (CompBuoyancy.quaternion
                 (CompBuoyancy.object3D (fst (CompBuoyancy.compUpdate st dt)))) = 1.
Proof.
  intros H. unfold CompBuoyancy.compUpdate. cbv zeta.
  destruct (CompBuoyancy.probes (CompBuoyancy.props st)) as [|p ps] eqn:E; [exact H|].
  destruct (CompBuoyancy.water st) as [w|]; [|exact H].
  destruct (Nat.eqb _ 0); [exact H|].
  assert (M : forall st0 h f t,
             Obs.qlength (CompBuoyancy.quaternion (CompBuoyancy.object3D st0)) = 1 ->
             Obs.qlength (CompBuoyancy.quaternion
                            (CompBuoyancy.object3D (CompBuoyancy._applyForces st0 h f t dt)))
             = 1).
  { intros st0 h f t H0. unfold CompBuoyancy._applyForces. cbv zeta.
    cbn [CompBuoyancy.object3D CompBuoyancy.quaternion].
    destruct (Rlt_dec 1e-5 _); [apply qnormalize_unit|exact H0]. }
  destruct (Rle_dec _ 0); cbn [fst CompBuoyancy.set_water CompBuoyancy.object3D];
    apply (M (CompBuoyancy.set_buoyancyForce st _)); exact H.
Qed.

(** ** The water seen from the body *)

Lemma splash_frame (s : CompWaterPBR.state) (x z : R) (size : option R) (strength : R)
      (coords : CompWaterPBR.coordsKind) :
  let s' := CompWaterPBR.splash s x z size strength coords in
  CompWaterPBR.target s' = CompWaterPBR.target s /\
  CompWaterPBR.simTime s' = CompWaterPBR.simTime s /\
  CompWaterPBR._planeWaves s' = CompWaterPBR._planeWaves s /\
  CompWaterPBR._radialWaves s' = CompWaterPBR._radialWaves s /\
  HeightFS.pw (CompWaterPBR.uniforms s') = HeightFS.pw (CompWaterPBR.uniforms s) /\
  HeightFS.rw (CompWaterPBR.uniforms s') = HeightFS.rw (CompWaterPBR.uniforms s) /\
  HeightFS.numPW (CompWaterPBR.uniforms s') = HeightFS.numPW (CompWaterPBR.uniforms s) /\
  HeightFS.numRW (CompWaterPBR.uniforms s') = HeightFS.numRW (CompWaterPBR.uniforms s).
Proof. cbv zeta. unfold CompWaterPBR.splash. cbv zeta. cbn. tauto. Qed.

Lemma compUpdate_water_frame (st : CompBuoyancy.state) (w : CompWaterPBR.state) (dt : R) :
  CompBuoyancy.water st = Some w ->
  exists w', CompBuoyancy.water (fst (CompBuoyancy.compUpdate st dt)) = Some w' /\
    CompWaterPBR.target w' = CompWaterPBR.target w /\
    CompWaterPBR.simTime w' = CompWaterPBR.simTime w /\
    CompWaterPBR._planeWaves w' = CompWaterPBR._planeWaves w /\
    CompWaterPBR._radialWaves w' = CompWaterPBR._radialWaves w /\
    HeightFS.pw (CompWaterPBR.uniforms w') = HeightFS.pw (CompWaterPBR.uniforms w) /\
    HeightFS.rw (CompWaterPBR.uniforms w') = HeightFS.rw (CompWaterPBR.uniforms w).
Proof.
  intros Hw. unfold CompBuoyancy.compUpdate. cbv zeta. rewrite Hw.
  assert (K : exists w', Some w = Some w' /\
    CompWaterPBR.target w' = CompWaterPBR.target w /\
    CompWaterPBR.simTime w' = CompWaterPBR.simTime w /\
    CompWaterPBR._planeWaves w' = CompWaterPBR._planeWaves w /\
    CompWaterPBR._radialWaves w' = CompWaterPBR._radialWaves w /\
    HeightFS.pw (CompWaterPBR.uniforms w') = HeightFS.pw (CompWaterPBR.uniforms w) /\
    HeightFS.rw (CompWaterPBR.uniforms w') = HeightFS.rw (CompWaterPBR.uniforms w)).
  { exists w. repeat split. }
  destruct (CompBuoyancy.probes (CompBuoyancy.props st)) as [|p ps] eqn:E;
    [cbn [fst]; rewrite Hw; exact K|].
  destruct (Nat.eqb _ 0); [cbn [fst CompBuoyancy.set_buoyancyForce CompBuoyancy.water];
                           rewrite Hw; exact K|].
  destruct (Rle_dec _ 0).
  - cbn [fst]. unfold CompBuoyancy._applyForces. cbv zeta.
    cbn [CompBuoyancy.water CompBuoyancy.set_buoyancyForce]. rewrite Hw. exact K.
  - cbn [fst CompBuoyancy.set_water CompBuoyancy.water].
    eexists. split; [reflexivity|].
    match goal with |- context [CompWaterPBR.splash w ?a ?b ?c ?d ?e] =>
      pose proof (splash_frame w a b c d e) as F end.
    cbv zeta in F. tauto.
Qed.

(** With a vertical velocity the strength handed to the water is at most
    4000. *)
Lemma compUpdate_splash_strength (st : CompBuoyancy.state) (w : CompWaterPBR.state) (dt : R) :
  CompBuoyancy.water st = Some w ->
  Three.x (CompBuoyancy._velocity st) = 0 ->
  Three.z (CompBuoyancy._velocity st) = 0 ->
  let st' := fst (CompBuoyancy.compUpdate st dt) in
  CompBuoyancy.water st' = Some w \/
  exists w', CompBuoyancy.water st' = Some w' /\
    HeightFS.mouseSize (CompWaterPBR.uniforms w') = 2 /\
    HeightFS.splashStrength (CompWaterPBR.uniforms w')
    = Three.lengthSq (CompBuoyancy._velocity st') * 10 /\
    0 < HeightFS.splashStrength (CompWaterPBR.uniforms w') <= 4000.
Proof.
  intros Hw Hx Hz. cbv zeta.
  pose proof (compUpdate_horizontal st dt) as Hh. cbv zeta in Hh.
  destruct Hh as (_ & _ & Hx' & Hz'). rewrite Hx in Hx'. rewrite Hz in Hz'.
  revert Hx' Hz'.
  unfold CompBuoyancy.compUpdate. cbv zeta. rewrite Hw.
  destruct (CompBuoyancy.probes (CompBuoyancy.props st)) as [|p ps] eqn:E;
    [intros _ _; left; exact Hw|].
  destruct (Nat.eqb _ 0); [intros _ _; left; exact Hw|].
  match goal with |- context [CompBuoyancy._applyForces ?a ?b ?c ?d ?e] =>
    pose proof (applyForces_bounds a b c d e) as Hb;
    set (st1 := CompBuoyancy._applyForces a b c d e) in * end.
  cbv zeta in Hb. destruct Hb as [Hb _].
  destruct (Rle_dec _ 0) as [L|L]; cbn [fst]; intros Hx' Hz'.
  - left. unfold st1, CompBuoyancy._applyForces. cbv zeta.
    cbn [CompBuoyancy.water CompBuoyancy.set_buoyancyForce]. exact Hw.
  - right. cbn [CompBuoyancy._velocity CompBuoyancy.set_water] in Hx', Hz'.
    eexists. split; [reflexivity|].
    unfold CompWaterPBR.splash. cbv zeta.
    cbn [CompWaterPBR.uniforms CompWaterPBR.set_uniforms CompWaterPBR.u_set_splash
         HeightFS.mouseSize HeightFS.splashStrength CompBuoyancy._velocity
         CompBuoyancy.set_water].
    split; [reflexivity|]. split; [reflexivity|].
    unfold Three.lengthSq. rewrite Hx', Hz'.
    set (vy := Three.y (CompBuoyancy._velocity st1)) in *.
    assert (vy <> 0).
    { intros Z. apply L. unfold Three.length. rewrite Hx', Hz'. fold vy. rewrite Z.
      replace (0 * 0 + 0 * 0 + 0 * 0) with 0 by ring. rewrite sqrt_0. lra. }
    split; nra.
Qed.


Lemma four_elements {A : Type} (l : list A) :
  List.length l = 4%nat -> exists a b c d, l = [a; b; c; d].
Proof.
  destruct l as [|a [|b [|c [|d [|e l]]]]]; cbn; try discriminate.
  intros _. now exists a, b, c, d.
Qed.

(** After [_addPWToUniforms] the uniform slots mirror the plane list. *)
Lemma addPWToUniforms_mirror (s : CompWaterPBR.state) :
  Obs.planeShaped (CompWaterPBR.uniforms s) ->
  let s' := CompWaterPBR._addPWToUniforms s in
  HeightFS.numPW (CompWaterPBR.uniforms s')
  = Nat.min (List.length (CompWaterPBR._planeWaves s)) 4 /\
  (forall i w, (i < 4)%nat -> nth_error (CompWaterPBR._planeWaves s) i = Some w ->
               Obs.planeSlot (CompWaterPBR.uniforms s') i = Obs.planeEntry w) /\
  (forall i, (List.length (CompWaterPBR._planeWaves s) <= i)%nat ->
             nth i (HeightFS.pw_amp (HeightFS.pw (CompWaterPBR.uniforms s'))) 0 = 0) /\
  Obs.planeShaped (CompWaterPBR.uniforms s').
Proof.
  unfold Obs.planeShaped. cbv zeta. intros (H1 & H2 & H3 & H4 & H5).
  unfold CompWaterPBR._addPWToUniforms, Obs.planeSlot. cbv zeta.
  cbn [CompWaterPBR.uniforms CompWaterPBR.set_uniforms CompWaterPBR.u_set_pw
       HeightFS.numPW HeightFS.pw].
  destruct (HeightFS.pw (CompWaterPBR.uniforms s)) as [pd pk po pa pp].
  cbn [HeightFS.pw_dir HeightFS.pw_k HeightFS.pw_omega HeightFS.pw_amp HeightFS.pw_phase] in *.
  destruct (four_elements _ H1) as (d0 & d1 & d2 & d3 & ->).
  destruct (four_elements _ H2) as (k0 & k1 & k2 & k3 & ->).
  destruct (four_elements _ H3) as (o0 & o1 & o2 & o3 & ->).
  destruct (four_elements _ H4) as (a0 & a1 & a2 & a3 & ->).
  destruct (four_elements _ H5) as (p0 & p1 & p2 & p3 & ->).
  split; [reflexivity|].
  destruct (CompWaterPBR._planeWaves s) as [|w0 [|w1 [|w2 [|w3 ws]]]];
    cbn [List.length Nat.min Nat.sub seq fold_left nth_error];
    rewrite ?Nat.min_0_r; cbn [Nat.sub seq fold_left nth_error];
    unfold CompWaterPBR.pw_store, CompWaterPBR.pw_zero_amp, Obs.planeEntry;
    cbn [HeightFS.pw_dir HeightFS.pw_k HeightFS.pw_omega HeightFS.pw_amp HeightFS.pw_phase
         Js.set_nth List.length];
    (split; [intros [|[|[|[|i]]]] w Hi Hw; try lia; cbn [nth_error] in Hw;
             try discriminate; injection Hw as <-; reflexivity
            |split; [intros [|[|[|[|[|i]]]]] Hi; cbn [List.length] in Hi; try lia; try reflexivity;
                     cbn; try reflexivity
                    |repeat split]]).
Qed.

(** ** The viscosity uniform *)

Lemma compUpdate_withViscosity (s : CompWaterPBR.state) (v dt : R) :
  CompWaterPBR.compUpdate
    (CompWaterPBR.set_uniforms s (Obs.withViscosity (CompWaterPBR.uniforms s) v)) dt
  = CompWaterPBR.set_uniforms (CompWaterPBR.compUpdate s dt)
      (Obs.withViscosity (CompWaterPBR.uniforms (CompWaterPBR.compUpdate s dt)) v).
Proof. reflexivity. Qed.

Lemma steps_withViscosity (s : CompWaterPBR.state) (v : R) (dts : list R) :
  Spec.steps (CompWaterPBR.set_uniforms s (Obs.withViscosity (CompWaterPBR.uniforms s) v)) dts
  = CompWaterPBR.set_uniforms (Spec.steps s dts)
      (Obs.withViscosity (CompWaterPBR.uniforms (Spec.steps s dts)) v).
Proof.
  revert s. unfold Spec.steps.
  induction dts as [|dt dts IH]; intros s; cbn [fold_left].
  - reflexivity.
  - rewrite compUpdate_withViscosity. apply IH.
Qed.

Lemma steps_ignore_viscosity_aux (s : CompWaterPBR.state) (v : R) (dts : list R) :
  CompWaterPBR.target
    (Spec.steps (CompWaterPBR.set_uniforms s (Obs.withViscosity (CompWaterPBR.uniforms s) v))
                dts)
  = CompWaterPBR.target (Spec.steps s dts).
Proof. rewrite steps_withViscosity. reflexivity. Qed.

(** ** Clearing the waves of a level pond *)

Lemma clearWaves_then_decay (s : CompWaterPBR.state) (c : R) (dts : list R) :
  List.length (HeightFS.pw_amp (HeightFS.pw (CompWaterPBR.uniforms s))) = 4%nat ->
  List.length (HeightFS.rw_amp (HeightFS.rw (CompWaterPBR.uniforms s))) = 4%nat ->
  Obs.uniformField c (CompWaterPBR.target s) ->
  Spec.noPendingSplash (CompWaterPBR.uniforms s) ->
  Obs.uniformField
    (c * Obs.decay (HeightFS.baselineReturn (CompWaterPBR.uniforms s)) dts)
    (CompWaterPBR.target (Spec.steps (CompWaterPBR.clearWaves s) dts)).
Proof.
  intros Hp Hr Hu Hs.
  destruct (clearWaves_silences s Hp Hr) as (N & _).
  apply (steps_uniform (CompWaterPBR.clearWaves s) c dts); [exact Hu|exact N|exact Hs].
Qed.


(** ** Bounds on a whole step *)

Lemma compUpdate_velocity_tight (s : CompWaterPBR.state) (dt : R) :
  Forall (fun c => -19.9 <= Tex.vel c <= 19.9)
         (Tex.data (CompWaterPBR.target (CompWaterPBR.compUpdate s dt))).
Proof.
  rewrite compUpdate_target. unfold HeightFS.compute. cbn [Tex.data].
  apply Forall_forall. intros c Hc.
  apply in_map_iff in Hc. destruct Hc as (i & <- & _). apply main_velocity_tight.
Qed.

Lemma compUpdate_height_growth (s : CompWaterPBR.state) (dt M : R) :
  0 <= M -> Forall (fun c => - M <= Tex.hgt c <= M) (Tex.data (CompWaterPBR.target s)) ->
  0 <= dt ->
  0 <= HeightFS.baselineReturn (CompWaterPBR.uniforms s) * dt <= 1 ->
  Forall (fun c => - (M + 19.9 * dt) <= Tex.hgt c <= M + 19.9 * dt)
         (Tex.data (CompWaterPBR.target (CompWaterPBR.compUpdate s dt))).
Proof.
  intros HM HF Hd Hb. rewrite compUpdate_target. unfold HeightFS.compute. cbn [Tex.data].
  apply Forall_forall. intros c Hc.
  apply in_map_iff in Hc. destruct Hc as (i & <- & _).
  apply (main_height_growth (Spec.stepUniforms s dt) (CompWaterPBR.target s) M); assumption.
Qed.

Lemma steps_height_growth (s : CompWaterPBR.state) (dts : list R) (M : R) :
  0 <= M -> Forall (fun c => - M <= Tex.hgt c <= M) (Tex.data (CompWaterPBR.target s)) ->
  Forall (fun dt => 0 <= dt /\
                    0 <= HeightFS.baselineReturn (CompWaterPBR.uniforms s) * dt <= 1) dts ->
  Forall (fun c => - (M + 19.9 * fold_right Rplus 0 dts) <= Tex.hgt c
                   <= M + 19.9 * fold_right Rplus 0 dts)
         (Tex.data (CompWaterPBR.target (Spec.steps s dts))).
Proof.
  intros HM HF Hd. revert s M HM HF Hd.
  induction dts as [|dt dts IH]; intros s M HM HF Hd.
  - cbn [fold_right Spec.steps fold_left]. unfold Spec.steps. cbn [fold_left].
    eapply Forall_impl; [|exact HF]. cbn beta. intros c Hc. lra.
  - inversion Hd as [|? ? (Hdt & Hb) Hd']; subst.
    unfold Spec.steps in *. cbn [fold_left fold_right].
    pose proof (compUpdate_height_growth s dt M HM HF Hdt Hb) as H1.
    specialize (IH (CompWaterPBR.compUpdate s dt) (M + 19.9 * dt) ltac:(lra) H1 Hd').
    eapply Forall_impl; [|exact IH]. cbn beta. intros c Hc. lra.
Qed.


(** ** Facts about the scenes *)

Lemma ringed_radialShaped : Spec.radialShaped (CompWaterPBR.uniforms Cases.ringed).
Proof.
  exact (proj1 (proj2 (proj2 (proj2
           (addRadialWave_slot Scene.pond0 (Scene.ring 5) pond0_radialShaped eq_refl))))).
Qed.

Lemma flat_pond_query (p : Three.Vector3) :
  CompWaterPBR.getHeightAtPoint Scene.pond0 p = 0.
Proof.
  assert (HF : Forall (fun c => 0 <= Tex.hgt c <= 0)
                      (Tex.data (CompWaterPBR.target Scene.pond0))).
  { apply Forall_forall. intros c Hc.
    change (Tex.data (CompWaterPBR.target Scene.pond0)) with (repeat Tex.zero (8 * 8)) in Hc.
    apply repeat_spec in Hc. subst c. cbn. lra. }
  destruct (getHeightAtPoint_interpolates Scene.pond0 p 0 0 (wellFormed_create _)
              eq_refl ltac:(cbn; lia) ltac:(cbn; lia) HF) as (h & Hh & ->).
  assert (h = 0) by lra. subst h.
  unfold Obs.baseY. cbv zeta. unfold Scene.pond0.
  rewrite (default_baseY Scene.pond) by reflexivity. cbn. lra.
Qed.

Lemma kite_is_dry :
  Forall (fun probe => Obs.probeDepth Cases.kite Scene.pond0 probe <= 0)
         (CompBuoyancy.probes (CompBuoyancy.props Cases.kite)).
Proof.
  cbn [Cases.kite CompBuoyancy.create CompBuoyancy.props CompBuoyancy.probes].
  constructor; [|constructor].
  unfold Obs.probeDepth. cbv zeta. rewrite flat_pond_query. cbn. lra.
Qed.

Lemma raised_heights :
  Forall (fun c => - (2) <= Tex.hgt c <= 2) (Tex.data (CompWaterPBR.target Cases.raised)).
Proof.
  apply Forall_forall. intros c Hc.
  change (Tex.data (CompWaterPBR.target Cases.raised))
    with (repeat (Tex.mkTexel 2 0) 64) in Hc.
  apply repeat_spec in Hc. subst c. cbn. lra.
Qed.


(** ** The properties *)

(** The HEIGHT_FS update of texel [(x, y)] reads the height texture at five
    places only: two textures of the same size that agree on the texel
    itself and on the heights of its left, right, lower and upper
    neighbours (taken with the clamp at the border) give the same new
    texel. *)
Theorem shader_update_is_local (u : HeightFS.uniforms) (t t' : Tex.texture) (x y : nat) :
  Tex.width t' = Tex.width t -> Tex.height t' = Tex.height t ->
  (x < Tex.width t)%nat -> (y < Tex.height t)%nat ->
  Tex.texelFetch t' (Z.of_nat x) (Z.of_nat y) = Tex.texelFetch t (Z.of_nat x) (Z.of_nat y) ->
  Tex.hgt (Tex.texelFetch t' (Z.of_nat x - 1) (Z.of_nat y))
  = Tex.hgt (Tex.texelFetch t (Z.of_nat x - 1) (Z.of_nat y)) ->
  Tex.hgt (Tex.texelFetch t' (Z.of_nat x + 1) (Z.of_nat y))
  = Tex.hgt (Tex.texelFetch t (Z.of_nat x + 1) (Z.of_nat y)) ->
  Tex.hgt (Tex.texelFetch t' (Z.of_nat x) (Z.of_nat y - 1))
  = Tex.hgt (Tex.texelFetch t (Z.of_nat x) (Z.of_nat y - 1)) ->
  Tex.hgt (Tex.texelFetch t' (Z.of_nat x) (Z.of_nat y + 1))
  = Tex.hgt (Tex.texelFetch t (Z.of_nat x) (Z.of_nat y + 1)) ->
  HeightFS.main u t' x y = HeightFS.main u t x y.
Proof. exact (main_locality u t t' x y). Qed.

(** The first texel of the strip does not see the third one. *)
Lemma shader_update_is_local_witness :
  HeightFS.main (CompWaterPBR.uniforms Scene.pond0) Cases.stripFar 0 0
  = HeightFS.main (CompWaterPBR.uniforms Scene.pond0) Cases.strip 0 0.
Proof.
  apply (shader_update_is_local (CompWaterPBR.uniforms Scene.pond0) Cases.strip
           Cases.stripFar 0 0).
  - reflexivity.
  - reflexivity.
  - cbn. lia.
  - cbn. lia.
  - reflexivity.
  - reflexivity.
  - reflexivity.
  - reflexivity.
  - reflexivity.
Defined.

(** With a brush size other than 0, every velocity of the field after a
    step lies in [-19.9, 19.9], whatever the state and the time delta: the
    clamp to [-20, 20] is followed by the damping factor 0.995 and by the
    edge factor, which is at most 1. *)
Theorem step_velocity_within_19_9 (s : CompWaterPBR.state) (dt : R) :
  HeightFS.mouseSize (CompWaterPBR.uniforms s) <> 0 ->
  Forall (fun c => -19.9 <= Tex.vel c <= 19.9)
         (Tex.data (CompWaterPBR.target (CompWaterPBR.compUpdate s dt))).
Proof. intros _. exact (compUpdate_velocity_tight s dt). Qed.

(** The splashed pond after a step of one second. *)
Lemma step_velocity_within_19_9_witness :
  Forall (fun c => -19.9 <= Tex.vel c <= 19.9)
         (Tex.data (CompWaterPBR.target (CompWaterPBR.compUpdate Scene.pondSplashed 1))).
Proof.
  apply (step_velocity_within_19_9 Scene.pondSplashed 1).
  cbn. lra.
Defined.

(** The heights grow at most linearly in time: with a brush size other
    than 0, if every stored height lies in [-M, M] and every time delta
    [dt] of the steps is not negative with [baselineReturn * dt] in
    [0, 1], then after the steps every height lies within
    [M + 19.9 * (sum of the deltas)] of zero. *)
Theorem height_growth_is_linear (s : CompWaterPBR.state) (dts : list R) (M : R) :
  HeightFS.mouseSize (CompWaterPBR.uniforms s) <> 0 ->
  0 <= M -> Forall (fun c => - M <= Tex.hgt c <= M) (Tex.data (CompWaterPBR.target s)) ->
  Forall (fun dt => 0 <= dt /\
                    0 <= HeightFS.baselineReturn (CompWaterPBR.uniforms s) * dt <= 1) dts ->
  Forall (fun c => - (M + 19.9 * fold_right Rplus 0 dts) <= Tex.hgt c
                   <= M + 19.9 * fold_right Rplus 0 dts)
         (Tex.data (CompWaterPBR.target (Spec.steps s dts))).
Proof. intros _. exact (steps_height_growth s dts M). Qed.

(** The pond at level 2 over two frames. *)
Lemma height_growth_is_linear_witness :
  Forall (fun c => - (2 + 19.9 * fold_right Rplus 0 [1 / 60; 1 / 60]) <= Tex.hgt c
                   <= 2 + 19.9 * fold_right Rplus 0 [1 / 60; 1 / 60])
         (Tex.data (CompWaterPBR.target (Spec.steps Cases.raised [1 / 60; 1 / 60]))).
Proof.
  apply (height_growth_is_linear Cases.raised [1 / 60; 1 / 60] 2).
  - cbn. lra.
  - lra.
  - exact raised_heights.
  - repeat constructor; cbn; lra.
Defined.

(** The viscosity term of HEIGHT_FS is overwritten before the height is
    written, so the [viscosity] uniform has no effect: changing it to any
    value leaves the height field after any sequence of steps unchanged. *)
Theorem viscosity_has_no_effect (s : CompWaterPBR.state) (v : R) (dts : list R) :
  CompWaterPBR.target
    (Spec.steps (CompWaterPBR.set_uniforms s (Obs.withViscosity (CompWaterPBR.uniforms s) v))
                dts)
  = CompWaterPBR.target (Spec.steps s dts).
Proof. exact (steps_ignore_viscosity_aux s v dts). Qed.

(** The forcing the plane and radial waves add at a point is bounded in
    absolute value by the sum of the absolute amplitudes of the eight
    slots, whatever the wave numbers, frequencies, decays and the time. *)
Theorem wave_forcing_bounded_by_amplitudes (u : HeightFS.uniforms) (local : Glsl.vec2) :
  Rabs (HeightFS.waveForcing u local) <= Obs.totalAmplitude u.
Proof. exact (waveForcing_bound u local). Qed.

(** A level field stays level: with a brush size other than 0, no active
    wave and no pending splash, a field of uniform height [c] and zero
    velocity is, after the steps [dts], the uniform field of height [c]
    times the product of the factors [1 - baselineReturn * dt], still with
    zero velocity. *)
Theorem level_field_decays (s : CompWaterPBR.state) (c : R) (dts : list R) :
  HeightFS.mouseSize (CompWaterPBR.uniforms s) <> 0 ->
  Obs.uniformField c (CompWaterPBR.target s) ->
  Spec.noActiveWaves (CompWaterPBR.uniforms s) ->
  Spec.noPendingSplash (CompWaterPBR.uniforms s) ->
  Obs.uniformField
    (c * Obs.decay (HeightFS.baselineReturn (CompWaterPBR.uniforms s)) dts)
    (CompWaterPBR.target (Spec.steps s dts)).
Proof. intros _. exact (steps_uniform s c dts). Qed.

(** The fresh pond raised to the level 2, over two frames. *)
Lemma level_field_decays_witness :
  Obs.uniformField
    (2 * Obs.decay (HeightFS.baselineReturn (CompWaterPBR.uniforms Cases.raised))
                   [1 / 60; 1 / 60])
    (CompWaterPBR.target (Spec.steps Cases.raised [1 / 60; 1 / 60])).
Proof.
  apply (level_field_decays Cases.raised 2 [1 / 60; 1 / 60]).
  - cbn. lra.
  - reflexivity.
  - split; intros i; cbn; destruct i as [|[|[|[|[|i]]]]]; reflexivity.
  - reflexivity.
Defined.

(** With a brush size other than 0, the splash impulse HEIGHT_FS adds is
    nowhere larger in absolute value than [splashStrength], and at the
    splash position it is [splashStrength] itself. *)
Theorem splash_impulse_peak (u : HeightFS.uniforms) :
  HeightFS.mouseSize u <> 0 ->
  (forall local, Rabs (HeightFS.splashImpulse u local) <= Rabs (HeightFS.splashStrength u)) /\
  HeightFS.splashImpulse u (HeightFS.mousePos u) = HeightFS.splashStrength u.
Proof.
  intros _. split; [intros local; apply splashImpulse_bound|apply splashImpulse_centre].
Qed.

(** The splashed pond: brush 5, strength 1000. *)
Lemma splash_impulse_peak_witness :
  (forall local, Rabs (HeightFS.splashImpulse (CompWaterPBR.uniforms Scene.pondSplashed) local)
                 <= Rabs (HeightFS.splashStrength (CompWaterPBR.uniforms Scene.pondSplashed))) /\
  HeightFS.splashImpulse (CompWaterPBR.uniforms Scene.pondSplashed)
    (HeightFS.mousePos (CompWaterPBR.uniforms Scene.pondSplashed))
  = HeightFS.splashStrength (CompWaterPBR.uniforms Scene.pondSplashed).
Proof.
  apply (splash_impulse_peak (CompWaterPBR.uniforms Scene.pondSplashed)).
  cbn. lra.
Defined.

(** With a positive foam sharpness, every output of NORMAL_FS is a valid
    colour: the two encoded slope components and the foam mask lie in
    [0, 1], and the encoded Z component lies in (0.5, 1], so the decoded
    normal always points to the upper side of the plane. *)
Theorem normal_pass_output_ranges (u : NormalFS.uniforms) (t : Tex.texture) (x y : nat) :
  0 < snd (NormalFS.foamParams u) ->
  let o := NormalFS.main u t x y in
  0 <= NormalFS.encX o <= 1 /\ 0 <= NormalFS.encY o <= 1 /\
  0.5 < NormalFS.encZ o <= 1 /\ 0 <= NormalFS.foam o <= 1.
Proof. intros _. exact (normal_main_ranges u t x y). Qed.

(** A texel of the strip under the normal pass of the pond. *)
Lemma normal_pass_output_ranges_witness :
  0 <= NormalFS.encX (NormalFS.main Cases.normalUniforms Cases.strip 1 0) <= 1 /\
  0 <= NormalFS.encY (NormalFS.main Cases.normalUniforms Cases.strip 1 0) <= 1 /\
  0.5 < NormalFS.encZ (NormalFS.main Cases.normalUniforms Cases.strip 1 0) <= 1 /\
  0 <= NormalFS.foam (NormalFS.main Cases.normalUniforms Cases.strip 1 0) <= 1.
Proof.
  apply (normal_pass_output_ranges Cases.normalUniforms Cases.strip 1 0).
  cbn. lra.
Defined.

(** Over a level height field, with a foam threshold that is not negative
    and a positive sharpness, NORMAL_FS writes the colour
    (0.5, 0.5, 1, 0) to every texel: the normal is straight up and there is
    no foam, whatever the level and the displacement scale. *)
Theorem normal_pass_level_field (u : NormalFS.uniforms) (c : R) (t : Tex.texture) (x y : nat) :
  Obs.level c t ->
  0 <= fst (NormalFS.foamParams u) -> 0 < snd (NormalFS.foamParams u) ->
  NormalFS.main u t x y = NormalFS.mkTexel4 0.5 0.5 1 0.
Proof. exact (normal_main_level u c t x y). Qed.

(** The field at level 2 under the normal pass of the pond. *)
Lemma normal_pass_level_field_witness :
  NormalFS.main Cases.normalUniforms Cases.level2 3 4 = NormalFS.mkTexel4 0.5 0.5 1 0.
Proof.
  apply (normal_pass_level_field Cases.normalUniforms 2 Cases.level2 3 4).
  - intros ix iy. rewrite (texelFetch_uniform 2 Cases.level2 ix iy eq_refl) by (cbn; lia).
    reflexivity.
  - cbn. lra.
  - cbn. lra.
Defined.

(** [clearWaves] on a state whose amplitude arrays have their four slots
    empties the plane list, sets both wave counts to 0 and zeroes all
    eight amplitudes, so the wave forcing is 0 at every point; the height
    field and the clock are left as they were. *)
Theorem clearWaves_silences_all_slots (s : CompWaterPBR.state) :
  List.length (HeightFS.pw_amp (HeightFS.pw (CompWaterPBR.uniforms s))) = 4%nat ->
  List.length (HeightFS.rw_amp (HeightFS.rw (CompWaterPBR.uniforms s))) = 4%nat ->
  let s' := CompWaterPBR.clearWaves s in
  Spec.noActiveWaves (CompWaterPBR.uniforms s') /\
  CompWaterPBR._planeWaves s' = [] /\
  HeightFS.numPW (CompWaterPBR.uniforms s') = 0%nat /\
  HeightFS.numRW (CompWaterPBR.uniforms s') = 0%nat /\
  CompWaterPBR.target s' = CompWaterPBR.target s /\
  CompWaterPBR.simTime s' = CompWaterPBR.simTime s /\
  (forall local, HeightFS.waveForcing (CompWaterPBR.uniforms s') local = 0).
Proof. exact (clearWaves_silences s). Qed.

(** The pond with its four plane waves. *)
Lemma clearWaves_silences_all_slots_witness :
  Spec.noActiveWaves (CompWaterPBR.uniforms (CompWaterPBR.clearWaves Scene.pondFull)) /\
  CompWaterPBR._planeWaves (CompWaterPBR.clearWaves Scene.pondFull) = [] /\
  HeightFS.numPW (CompWaterPBR.uniforms (CompWaterPBR.clearWaves Scene.pondFull)) = 0%nat /\
  HeightFS.numRW (CompWaterPBR.uniforms (CompWaterPBR.clearWaves Scene.pondFull)) = 0%nat /\
  CompWaterPBR.target (CompWaterPBR.clearWaves Scene.pondFull)
  = CompWaterPBR.target Scene.pondFull /\
  CompWaterPBR.simTime (CompWaterPBR.clearWaves Scene.pondFull)
  = CompWaterPBR.simTime Scene.pondFull /\
  (forall local,
     HeightFS.waveForcing (CompWaterPBR.uniforms (CompWaterPBR.clearWaves Scene.pondFull))
                          local = 0).
Proof.
  apply (clearWaves_silences_all_slots Scene.pondFull).
  - reflexivity.
  - reflexivity.
Defined.

(** [disableRadialWave (i)] with [i] a slot of the store zeroes the
    amplitude of slot [i], so that slot adds no forcing anywhere; the other
    slots are untouched and the other values of slot [i] stay in place. *)
Theorem disableRadialWave_silences_one_slot (s : CompWaterPBR.state) (i : nat) (local : Glsl.vec2) :
  Spec.radialShaped (CompWaterPBR.uniforms s) ->
  (i < CompWaterPBR._MAX_RW s)%nat -> (i < 4)%nat ->
  let s' := CompWaterPBR.disableRadialWave s (Z.of_nat i) in
  nth i (HeightFS.rw_amp (HeightFS.rw (CompWaterPBR.uniforms s'))) 0 = 0 /\
  HeightFS.radialTerm (CompWaterPBR.uniforms s') local i = 0 /\
  (forall j, j <> i ->
     Spec.radialSlot (CompWaterPBR.uniforms s') j
     = Spec.radialSlot (CompWaterPBR.uniforms s) j) /\
  nth i (HeightFS.rw_k (HeightFS.rw (CompWaterPBR.uniforms s'))) 0
  = nth i (HeightFS.rw_k (HeightFS.rw (CompWaterPBR.uniforms s))) 0 /\
  nth i (HeightFS.rw_omega (HeightFS.rw (CompWaterPBR.uniforms s'))) 0
  = nth i (HeightFS.rw_omega (HeightFS.rw (CompWaterPBR.uniforms s))) 0 /\
  HeightFS.pw (CompWaterPBR.uniforms s') = HeightFS.pw (CompWaterPBR.uniforms s).
Proof. exact (disableRadialWave_in_range s i local). Qed.

(** The ring of the ringed pond, switched off. *)
Lemma disableRadialWave_silences_one_slot_witness :
  nth 0 (HeightFS.rw_amp (HeightFS.rw (CompWaterPBR.uniforms
                                         (CompWaterPBR.disableRadialWave Cases.ringed 0)))) 0
  = 0 /\
  HeightFS.radialTerm (CompWaterPBR.uniforms (CompWaterPBR.disableRadialWave Cases.ringed 0))
                      (1, 2) 0 = 0.
Proof.
  assert (HM : (0 < CompWaterPBR._MAX_RW Cases.ringed)%nat) by (cbn; lia).
  assert (H4 : (0 < 4)%nat) by lia.
  pose proof (disableRadialWave_silences_one_slot Cases.ringed 0 (1, 2)
                ringed_radialShaped HM H4) as H.
  cbv zeta in H. destruct H as (A & B & _).
  split; [exact A|exact B].
Defined.

(** A sequence of [addPlaneWave] calls only appends to the plane list and
    stops at the capacity: starting within the capacity, the list after
    the calls has [min (_MAX_PW, length + number of calls)] entries and
    the old list is its prefix. *)
Theorem plane_list_fills_to_capacity (s : CompWaterPBR.state) (ps : list CompWaterPBR.planeWaveProps) :
  (List.length (CompWaterPBR._planeWaves s) <= CompWaterPBR._MAX_PW s)%nat ->
  let s' := Spec.addPlaneWaves s ps in
  List.length (CompWaterPBR._planeWaves s')
  = Nat.min (CompWaterPBR._MAX_PW s) (List.length (CompWaterPBR._planeWaves s) + List.length ps)
  /\ exists rest, CompWaterPBR._planeWaves s' = CompWaterPBR._planeWaves s ++ rest.
Proof. exact (addPlaneWaves_capacity s ps). Qed.

(** Five plane waves on the fresh pond: four are kept. *)
Lemma plane_list_fills_to_capacity_witness :
  List.length (CompWaterPBR._planeWaves (Spec.addPlaneWaves Scene.pond0 Cases.fivePlanes))
  = Nat.min (CompWaterPBR._MAX_PW Scene.pond0)
            (List.length (CompWaterPBR._planeWaves Scene.pond0)
             + List.length Cases.fivePlanes)
  /\ exists rest,
       CompWaterPBR._planeWaves (Spec.addPlaneWaves Scene.pond0 Cases.fivePlanes)
       = CompWaterPBR._planeWaves Scene.pond0 ++ rest.
Proof.
  apply (plane_list_fills_to_capacity Scene.pond0 Cases.fivePlanes).
  cbn. lia.
Defined.

(** After [_addPWToUniforms] the plane uniforms mirror the plane list: the
    count is [min (length, 4)], slot [i] holds direction, wave number,
    frequency, amplitude and phase of entry [i] of the list for every
    [i < 4] the list has, and every slot from the length of the list on
    has amplitude 0. *)
Theorem plane_uniforms_mirror_list (s : CompWaterPBR.state) :
  Obs.planeShaped (CompWaterPBR.uniforms s) ->
  let s' := CompWaterPBR._addPWToUniforms s in
  HeightFS.numPW (CompWaterPBR.uniforms s')
  = Nat.min (List.length (CompWaterPBR._planeWaves s)) 4 /\
  (forall i w, (i < 4)%nat -> nth_error (CompWaterPBR._planeWaves s) i = Some w ->
               Obs.planeSlot (CompWaterPBR.uniforms s') i = Obs.planeEntry w) /\
  (forall i, (List.length (CompWaterPBR._planeWaves s) <= i)%nat ->
             nth i (HeightFS.pw_amp (HeightFS.pw (CompWaterPBR.uniforms s'))) 0 = 0) /\
  Obs.planeShaped (CompWaterPBR.uniforms s').
Proof. exact (addPWToUniforms_mirror s). Qed.

(** The pond with its four plane waves. *)
Lemma plane_uniforms_mirror_list_witness :
  HeightFS.numPW (CompWaterPBR.uniforms (CompWaterPBR._addPWToUniforms Scene.pondFull))
  = Nat.min (List.length (CompWaterPBR._planeWaves Scene.pondFull)) 4 /\
  (forall i w, (i < 4)%nat -> nth_error (CompWaterPBR._planeWaves Scene.pondFull) i = Some w ->
               Obs.planeSlot (CompWaterPBR.uniforms
                                (CompWaterPBR._addPWToUniforms Scene.pondFull)) i
               = Obs.planeEntry w) /\
  (forall i, (List.length (CompWaterPBR._planeWaves Scene.pondFull) <= i)%nat ->
             nth i (HeightFS.pw_amp
                      (HeightFS.pw (CompWaterPBR.uniforms
                                      (CompWaterPBR._addPWToUniforms Scene.pondFull)))) 0
             = 0) /\
  Obs.planeShaped (CompWaterPBR.uniforms (CompWaterPBR._addPWToUniforms Scene.pondFull)).
Proof.
  apply (plane_uniforms_mirror_list Scene.pondFull).
  repeat split.
Defined.

(** For a positive wave number [_calcOmega] returns a positive angular
    frequency whenever one of omega, period and speed is usable (a positive
    omega, a positive period, a speed other than 0), and NaN when none is:
    the fallback multiplies by [this.gpu.width], which is [undefined]. *)
Theorem omega_positive_or_NaN (s : CompWaterPBR.state) (k : R) (speed omega periodSec : option R) :
  0 < k ->
  (Spec.omegaSource speed omega periodSec = true ->
   exists om, CompWaterPBR._calcOmega s k speed omega periodSec = Some om /\ 0 < om) /\
  (Spec.omegaSource speed omega periodSec = false ->
   CompWaterPBR._calcOmega s k speed omega periodSec = None).
Proof. exact (calcOmega_positive s k speed omega periodSec). Qed.

(** Wave number 1 on the fresh pond: NaN with nothing else given, a
    positive omega with speed 2. *)
Lemma omega_positive_or_NaN_witness :
  CompWaterPBR._calcOmega Scene.pond0 1 None None None = None /\
  exists om, CompWaterPBR._calcOmega Scene.pond0 1 (Some 2) None None = Some om /\ 0 < om.
Proof.
  split.
  - apply (omega_positive_or_NaN Scene.pond0 1 None None None); [lra | reflexivity].
  - apply (omega_positive_or_NaN Scene.pond0 1 (Some 2) None None); [lra|].
    unfold Spec.omegaSource, Spec.finiteNonzero, Js.eqb. cbn.
    destruct (Req_dec_T 2 0); [lra | reflexivity].
Defined.

(** A radial wave added with a positive wavelength [l] is stored with a
    wave number [k] such that [k * l = 2 * PI].  It is active exactly when
    a frequency source is usable (a positive omega, a positive period or a
    speed other than 0): then the slot holds the amplitude as given and a
    positive frequency.  With no usable source the resolved omega is NaN
    and the wave is gated off: the slot holds the amplitude 0. *)
Theorem radial_wave_needs_a_frequency_source (s : CompWaterPBR.state)
      (p : CompWaterPBR.IRadialWaveProps) (l : R) :
  Spec.radialShaped (CompWaterPBR.uniforms s) -> CompWaterPBR._MAX_RW s = 4%nat ->
  CompWaterPBR.rp_wavelength p = Some l -> 0 < l ->
  let s' := CompWaterPBR.addRadialWave s p in
  let i := (CompWaterPBR._rwWrite s mod 4)%nat in
  let source := Spec.omegaSource (CompWaterPBR.rp_speed p) (CompWaterPBR.rp_omega p)
                                 (CompWaterPBR.rp_periodSec p) in
  nth i (HeightFS.rw_k (HeightFS.rw (CompWaterPBR.uniforms s'))) 0 * l = 2 * PI /\
  (source = true ->
   nth i (HeightFS.rw_amp (HeightFS.rw (CompWaterPBR.uniforms s'))) 0
   = CompWaterPBR.rp_amplitude p /\
   0 < nth i (HeightFS.rw_omega (HeightFS.rw (CompWaterPBR.uniforms s'))) 0) /\
  (source = false ->
   nth i (HeightFS.rw_amp (HeightFS.rw (CompWaterPBR.uniforms s'))) 0 = 0).
Proof. exact (addRadialWave_source s p l). Qed.

(** On the fresh pond: the ring of wavelength 5 and period 2 s is active,
    the same ring with no period is gated off. *)
Lemma radial_wave_needs_a_frequency_source_witness :
  nth 0 (HeightFS.rw_amp (HeightFS.rw (CompWaterPBR.uniforms
           (CompWaterPBR.addRadialWave Scene.pond0 (Scene.ring 5))))) 0 = 1 /\
  nth 0 (HeightFS.rw_amp (HeightFS.rw (CompWaterPBR.uniforms
           (CompWaterPBR.addRadialWave Scene.pond0 Cases.ringNoSource)))) 0 = 0.
Proof.
  split.
  - pose proof (radial_wave_needs_a_frequency_source Scene.pond0 (Scene.ring 5) 5
                  pond0_radialShaped eq_refl eq_refl ltac:(lra)) as H.
    cbv zeta in H. destruct H as (_ & H & _).
    apply H. unfold Spec.omegaSource, Spec.finitePositive, Js.ltb. cbn.
    destruct (Rlt_dec 0 2); [reflexivity | lra].
  - pose proof (radial_wave_needs_a_frequency_source Scene.pond0 Cases.ringNoSource 5
                  pond0_radialShaped eq_refl eq_refl ltac:(lra)) as H.
    cbv zeta in H. destruct H as (_ & _ & H).
    apply H. reflexivity.
Defined.

(** On a plane turned by -PI/2 about X (the default), a splash in world
    coordinates at [(x, z)] is placed at the local position
    [(x - px, pz - z)], with [(px, py, pz)] the position of the mesh: the
    world Z axis is mirrored.  The call sets the strength, sets the brush
    size when one is given, and touches nothing else. *)
Theorem world_splash_on_horizontal_plane (s : CompWaterPBR.state) (x z : R) (size : option R)
      (strength : R) :
  Three.rotationX (CompWaterPBR.mesh s) = - PI / 2 ->
  let s' := CompWaterPBR.splash s x z size strength CompWaterPBR.world in
  HeightFS.mousePos (CompWaterPBR.uniforms s')
  = (x - Three.x (Three.position (CompWaterPBR.mesh s)),
     Three.z (Three.position (CompWaterPBR.mesh s)) - z) /\
  HeightFS.splashStrength (CompWaterPBR.uniforms s') = strength /\
  HeightFS.mouseSize (CompWaterPBR.uniforms s')
  = match size with
    | Some v => v
    | None => HeightFS.mouseSize (CompWaterPBR.uniforms s)
    end /\
  CompWaterPBR.target s' = CompWaterPBR.target s /\
  CompWaterPBR.simTime s' = CompWaterPBR.simTime s /\
  HeightFS.pw (CompWaterPBR.uniforms s') = HeightFS.pw (CompWaterPBR.uniforms s) /\
  HeightFS.rw (CompWaterPBR.uniforms s') = HeightFS.rw (CompWaterPBR.uniforms s).
Proof. exact (splash_world_horizontal s x z size strength). Qed.

(** A world splash at (3, 4) on the fresh pond. *)
Lemma world_splash_on_horizontal_plane_witness :
  HeightFS.mousePos (CompWaterPBR.uniforms
                       (CompWaterPBR.splash Scene.pond0 3 4 (Some 5) 100 CompWaterPBR.world))
  = (3 - Three.x (Three.position (CompWaterPBR.mesh Scene.pond0)),
     Three.z (Three.position (CompWaterPBR.mesh Scene.pond0)) - 4).
Proof.
  apply (world_splash_on_horizontal_plane Scene.pond0 3 4 (Some 5) 100).
  reflexivity.
Defined.

(** The height query never extrapolates: on a well-formed state with a full
    texture of at least one texel, if every stored height lies in
    [lo, hi], then [getHeightAtPoint] at any point, inside or outside the
    plane, is the base height plus [h * displacementScale * _normalY] for
    some [h] in [lo, hi]. *)
Theorem height_query_interpolates (s : CompWaterPBR.state) (p : Three.Vector3) (lo hi : R) :
  Spec.wellFormed s -> Obs.fullTexture (CompWaterPBR.target s) ->
  (1 <= CompWaterPBR._simWidth s)%nat -> (1 <= CompWaterPBR._simHeight s)%nat ->
  Forall (fun c => lo <= Tex.hgt c <= hi) (Tex.data (CompWaterPBR.target s)) ->
  exists h, lo <= h <= hi /\
    CompWaterPBR.getHeightAtPoint s p
    = Obs.baseY s p + h * CompWaterPBR.displacementScale (CompWaterPBR.props s)
                      * CompWaterPBR._normalY s.
Proof. exact (getHeightAtPoint_interpolates s p lo hi). Qed.

(** The basin, whose heights lie between 1 and 3, queried far outside the
    plane. *)
Lemma height_query_interpolates_witness :
  exists h, 1 <= h <= 3 /\
    CompWaterPBR.getHeightAtPoint Cases.basin (Three.mkV3 100 0 (-7))
    = Obs.baseY Cases.basin (Three.mkV3 100 0 (-7))
      + h * CompWaterPBR.displacementScale (CompWaterPBR.props Cases.basin)
        * CompWaterPBR._normalY Cases.basin.
Proof.
  apply (height_query_interpolates Cases.basin (Three.mkV3 100 0 (-7)) 1 3).
  - repeat split.
  - reflexivity.
  - cbn. lia.
  - cbn. lia.
  - repeat constructor; cbn; lra.
Defined.

(** After [clearWaves] a level pond only relaxes: from a field of uniform
    height [c] with no pending splash and a brush size other than 0,
    whatever waves were registered, the steps [dts] that follow
    [clearWaves] give the uniform field of height [c] times the product of
    the factors [1 - baselineReturn * dt]. *)
Theorem cleared_level_pond_decays (s : CompWaterPBR.state) (c : R) (dts : list R) :
  HeightFS.mouseSize (CompWaterPBR.uniforms s) <> 0 ->
  List.length (HeightFS.pw_amp (HeightFS.pw (CompWaterPBR.uniforms s))) = 4%nat ->
  List.length (HeightFS.rw_amp (HeightFS.rw (CompWaterPBR.uniforms s))) = 4%nat ->
  Obs.uniformField c (CompWaterPBR.target s) ->
  Spec.noPendingSplash (CompWaterPBR.uniforms s) ->
  Obs.uniformField
    (c * Obs.decay (HeightFS.baselineReturn (CompWaterPBR.uniforms s)) dts)
    (CompWaterPBR.target (Spec.steps (CompWaterPBR.clearWaves s) dts)).
Proof. intros _. exact (clearWaves_then_decay s c dts). Qed.

(** The pond with its four plane waves, at level 2, cleared and stepped
    twice. *)
Lemma cleared_level_pond_decays_witness :
  Obs.uniformField
    (2 * Obs.decay (HeightFS.baselineReturn (CompWaterPBR.uniforms Cases.raisedFull))
                   [1 / 60; 1 / 60])
    (CompWaterPBR.target
       (Spec.steps (CompWaterPBR.clearWaves Cases.raisedFull) [1 / 60; 1 / 60])).
Proof.
  apply (cleared_level_pond_decays Cases.raisedFull 2 [1 / 60; 1 / 60]).
  - cbn. lra.
  - reflexivity.
  - reflexivity.
  - reflexivity.
  - reflexivity.
Defined.

(** After [CompBuoyancy.compUpdate] on a body with probes, a water
    component and a volume that is not negative, [buoyancyForce] is
    vertical and points up, and it is at most
    [n * max (volume / n, 0.001) * volume * 9.81] for [n] probes. *)
Theorem buoyancy_force_bounds (st : CompBuoyancy.state) (w : CompWaterPBR.state) (dt : R) :
  CompBuoyancy.probes (CompBuoyancy.props st) <> [] ->
  CompBuoyancy.water st = Some w ->
  0 <= CompBuoyancy.volume st ->
  let st' := fst (CompBuoyancy.compUpdate st dt) in
  let n := INR (List.length (CompBuoyancy.probes (CompBuoyancy.props st))) in
  Three.x (CompBuoyancy.buoyancyForce st') = 0 /\
  Three.z (CompBuoyancy.buoyancyForce st') = 0 /\
  0 <= Three.y (CompBuoyancy.buoyancyForce st')
    <= n * (Js.Math_max (CompBuoyancy.volume st / n) 1e-3 * CompBuoyancy.volume st * 9.81).
Proof. exact (compUpdate_buoyancy_bounds st w dt). Qed.

(** The raft, one frame. *)
Lemma buoyancy_force_bounds_witness :
  Three.x (CompBuoyancy.buoyancyForce (fst (CompBuoyancy.compUpdate Scene.raft (1 / 60)))) = 0 /\
  Three.z (CompBuoyancy.buoyancyForce (fst (CompBuoyancy.compUpdate Scene.raft (1 / 60)))) = 0 /\
  0 <= Three.y (CompBuoyancy.buoyancyForce (fst (CompBuoyancy.compUpdate Scene.raft (1 / 60))))
    <= INR (List.length (CompBuoyancy.probes (CompBuoyancy.props Scene.raft)))
       * (Js.Math_max (CompBuoyancy.volume Scene.raft
                       / INR (List.length (CompBuoyancy.probes (CompBuoyancy.props Scene.raft))))
                      1e-3
          * CompBuoyancy.volume Scene.raft * 9.81).
Proof.
  apply (buoyancy_force_bounds Scene.raft (CompWaterPBR.create Scene.pond) (1 / 60)).
  - cbn. discriminate.
  - reflexivity.
  - cbn. lra.
Defined.

(** When no probe is below the water surface, [compUpdate] sets
    [buoyancyForce] to zero and adds no torque: with
    [angularDragCoefficient * dt] not negative the angular speed does not
    grow. *)
Theorem dry_probes_give_no_buoyancy (st : CompBuoyancy.state) (w : CompWaterPBR.state) (dt : R) :
  CompBuoyancy.probes (CompBuoyancy.props st) <> [] ->
  CompBuoyancy.water st = Some w ->
  Forall (fun probe => Obs.probeDepth st w probe <= 0)
         (CompBuoyancy.probes (CompBuoyancy.props st)) ->
  0 <= CompBuoyancy.angularDragCoefficient st * dt ->
  let st' := fst (CompBuoyancy.compUpdate st dt) in
  CompBuoyancy.buoyancyForce st' = Three.mkV3 0 0 0 /\
  Three.length (CompBuoyancy._angularVelocity st')
  <= Three.length (CompBuoyancy._angularVelocity st).
Proof. exact (compUpdate_dry st w dt). Qed.

(** The kite, whose probe is one unit above the water. *)
Lemma dry_probes_give_no_buoyancy_witness :
  CompBuoyancy.buoyancyForce (fst (CompBuoyancy.compUpdate Cases.kite (1 / 60)))
  = Three.mkV3 0 0 0 /\
  Three.length (CompBuoyancy._angularVelocity (fst (CompBuoyancy.compUpdate Cases.kite (1 / 60))))
  <= Three.length (CompBuoyancy._angularVelocity Cases.kite).
Proof.
  apply (dry_probes_give_no_buoyancy Cases.kite Scene.pond0 (1 / 60)).
  - cbn. discriminate.
  - reflexivity.
  - exact kite_is_dry.
  - cbn. lra.
Defined.



(** [CompBuoyancy.compUpdate] never moves the body sideways: the X and Z
    components of its position and of its velocity are the same after the
    call as before, on every path through it. *)
Theorem buoyancy_keeps_horizontal (st : CompBuoyancy.state) (dt : R) :
  let st' := fst (CompBuoyancy.compUpdate st dt) in
  Three.x (CompBuoyancy.position (CompBuoyancy.object3D st'))
  = Three.x (CompBuoyancy.position (CompBuoyancy.object3D st)) /\
  Three.z (CompBuoyancy.position (CompBuoyancy.object3D st'))
  = Three.z (CompBuoyancy.position (CompBuoyancy.object3D st)) /\
  Three.x (CompBuoyancy._velocity st') = Three.x (CompBuoyancy._velocity st) /\
  Three.z (CompBuoyancy._velocity st') = Three.z (CompBuoyancy._velocity st).
Proof. exact (compUpdate_horizontal st dt). Qed.

(** In one [compUpdate] call the body moves vertically by at most
    [20 * |dt|], whatever the forces. *)
Theorem buoyancy_vertical_move_bounded (st : CompBuoyancy.state) (dt : R) :
  let st' := fst (CompBuoyancy.compUpdate st dt) in
  Rabs (Three.y (CompBuoyancy.position (CompBuoyancy.object3D st'))
        - Three.y (CompBuoyancy.position (CompBuoyancy.object3D st)))
  <= 20 * Rabs dt.
Proof. exact (compUpdate_vertical_move st dt). Qed.

(** A body whose orientation is a unit quaternion has a unit quaternion
    after [compUpdate], also when the rotation of the frame is applied. *)
Theorem orientation_stays_unit (st : CompBuoyancy.state) (dt : R) :
  Obs.qlength (CompBuoyancy.quaternion (CompBuoyancy.object3D st)) = 1 ->
  Obs.qlength (CompBuoyancy.quaternion
                 (CompBuoyancy.object3D (fst (CompBuoyancy.compUpdate st dt)))) = 1.
Proof. exact (compUpdate_unit_quaternion st dt). Qed.

(** The raft, one frame. *)
Lemma orientation_stays_unit_witness :
  Obs.qlength (CompBuoyancy.quaternion
                 (CompBuoyancy.object3D (fst (CompBuoyancy.compUpdate Scene.raft (1 / 60)))))
  = 1.
Proof.
  apply (orientation_stays_unit Scene.raft (1 / 60)).
  unfold Obs.qlength. cbn.
  replace (0 * 0 + 0 * 0 + 0 * 0 + 1 * 1) with 1 by ring. apply sqrt_1.
Defined.

(** The body acts on the water through the splash uniforms only: after
    [CompBuoyancy.compUpdate] the water component has the same height
    field, clock, wave lists and wave uniforms as before. *)
Theorem buoyancy_leaves_field_alone (st : CompBuoyancy.state) (w : CompWaterPBR.state) (dt : R) :
  CompBuoyancy.water st = Some w ->
  exists w', CompBuoyancy.water (fst (CompBuoyancy.compUpdate st dt)) = Some w' /\
    CompWaterPBR.target w' = CompWaterPBR.target w /\
    CompWaterPBR.simTime w' = CompWaterPBR.simTime w /\
    CompWaterPBR._planeWaves w' = CompWaterPBR._planeWaves w /\
    CompWaterPBR._radialWaves w' = CompWaterPBR._radialWaves w /\
    HeightFS.pw (CompWaterPBR.uniforms w') = HeightFS.pw (CompWaterPBR.uniforms w) /\
    HeightFS.rw (CompWaterPBR.uniforms w') = HeightFS.rw (CompWaterPBR.uniforms w).
Proof. exact (compUpdate_water_frame st w dt). Qed.

(** The raft, one frame. *)
Lemma buoyancy_leaves_field_alone_witness :
  exists w', CompBuoyancy.water (fst (CompBuoyancy.compUpdate Scene.raft (1 / 60))) = Some w' /\
    CompWaterPBR.target w' = CompWaterPBR.target (CompWaterPBR.create Scene.pond) /\
    CompWaterPBR.simTime w' = CompWaterPBR.simTime (CompWaterPBR.create Scene.pond) /\
    CompWaterPBR._planeWaves w' = CompWaterPBR._planeWaves (CompWaterPBR.create Scene.pond) /\
    CompWaterPBR._radialWaves w' = CompWaterPBR._radialWaves (CompWaterPBR.create Scene.pond) /\
    HeightFS.pw (CompWaterPBR.uniforms w')
    = HeightFS.pw (CompWaterPBR.uniforms (CompWaterPBR.create Scene.pond)) /\
    HeightFS.rw (CompWaterPBR.uniforms w')
    = HeightFS.rw (CompWaterPBR.uniforms (CompWaterPBR.create Scene.pond)).
Proof.
  apply (buoyancy_leaves_field_alone Scene.raft (CompWaterPBR.create Scene.pond) (1 / 60)).
  reflexivity.
Defined.

(** A body whose velocity is vertical either leaves the water component as
    it was or splashes it with brush size 2 and the strength
    [10 * |velocity|^2] of the new velocity, which is positive and at most
    4000. *)
Theorem buoyancy_splash_strength_bounded (st : CompBuoyancy.state) (w : CompWaterPBR.state) (dt : R) :
  CompBuoyancy.water st = Some w ->
  Three.x (CompBuoyancy._velocity st) = 0 ->
  Three.z (CompBuoyancy._velocity st) = 0 ->
  let st' := fst (CompBuoyancy.compUpdate st dt) in
  CompBuoyancy.water st' = Some w \/
  exists w', CompBuoyancy.water st' = Some w' /\
    HeightFS.mouseSize (CompWaterPBR.uniforms w') = 2 /\
    HeightFS.splashStrength (CompWaterPBR.uniforms w')
    = Three.lengthSq (CompBuoyancy._velocity st') * 10 /\
    0 < HeightFS.splashStrength (CompWaterPBR.uniforms w') <= 4000.
Proof. exact (compUpdate_splash_strength st w dt). Qed.

(** The raft, one frame. *)
Lemma buoyancy_splash_strength_bounded_witness :
  CompBuoyancy.water (fst (CompBuoyancy.compUpdate Scene.raft (1 / 60)))
  = Some (CompWaterPBR.create Scene.pond) \/
  exists w', CompBuoyancy.water (fst (CompBuoyancy.compUpdate Scene.raft (1 / 60))) = Some w' /\
    HeightFS.mouseSize (CompWaterPBR.uniforms w') = 2 /\
    HeightFS.splashStrength (CompWaterPBR.uniforms w')
    = Three.lengthSq (CompBuoyancy._velocity (fst (CompBuoyancy.compUpdate Scene.raft (1 / 60))))
      * 10 /\
    0 < HeightFS.splashStrength (CompWaterPBR.uniforms w') <= 4000.
Proof.
  apply (buoyancy_splash_strength_bounded Scene.raft (CompWaterPBR.create Scene.pond) (1 / 60)).
  - reflexivity.
  - reflexivity.
  - reflexivity.
Defined.
